(** * Bernoulli restricted Boltzmann machine: [boltzmann/brbm.py]

    A shallow embedding of the module [brbm.py] and the properties its
    specification states about it.

    - Numbers.  The tensors of the source hold floating point numbers.  The
      embedding is generic in the scalar type: the class [Scalar] lists the
      scalar operations the source applies (through TensorFlow), and every
      function below is written once for all instances.  The instance
      [xreal] interprets them as exact real arithmetic extended with the
      special values of IEEE 754 (the two infinities and not-a-number);
      rounding and overflow are not part of it.  The instance
      [single_scalar] adds the range of single precision, the type of the
      variables of the model: a result too small becomes 0, one too large
      an infinity.
    - Tensors.  A rank-1 tensor is a list of scalars, a rank-2 tensor a list
      of rows, a rank-3 tensor a list of matrices.  TensorFlow rejects
      operands whose shapes do not agree; the list functions are total (they
      truncate), so statements that depend on shapes carry them as
      hypotheses.  A negative limit of a range and a negative dimension of
      a shape are refused by TensorFlow: the embedding raises
      [InvalidArgumentError] there.
    - Effects.  The model object and the random generator live in a [World];
      functions that read the model, draw random numbers or raise are written
      in the state and error monad [M].  The argument [rbm] of the source
      functions is a reference to the model object: here it is the component
      [rbm] of the world. *)

From Stdlib Require Import String Ascii DecimalString.
From Stdlib Require Import Reals Lra.
From Stdlib Require Import List ZArith Bool Lia.
Import ListNotations.

Set Implicit Arguments.

Local Open Scope Z_scope.

(** ** Scalars *)

(** The operations of TensorFlow on one element of a float tensor.
    Comparisons are three separate operations, as they are for floats
    (none of them holds on not-a-number). *)
Class Scalar (F : Type) : Type := {
  cast : Z -> F;                 (* int -> float conversion, [tf.cast] *)
  float_lit : Z -> Z -> F;       (* the decimal literal [m]e[k], m * 10^k *)
  fadd : F -> F -> F;
  fsub : F -> F -> F;
  fmul : F -> F -> F;
  fdiv : F -> F -> F;
  fneg : F -> F;
  fabs : F -> F;                 (* [tf.abs] *)
  fmax : F -> F -> F;            (* the step of [tf.reduce_max] *)
  ninf : F;                      (* [tf.reduce_max] of an empty tensor *)
  flog : F -> F;                 (* [tf.math.log] *)
  fsigmoid : F -> F;             (* [tf.sigmoid] *)
  fgeb : F -> F -> bool;         (* [>=] *)
  fleb : F -> F -> bool;         (* [<=] *)
  fltb : F -> F -> bool;         (* [<] *)
  to_dtype : F -> F              (* [tf.cast(x, 'float32')] of a float *)
}.

(** The literal [0.5] of [activate]. *)
Definition half {F} `{Scalar F} : F := float_lit 5 (-1).

(** The facts about scalars that the theorems below rely on.  They hold for
    IEEE floats and for the instance [xreal]. *)
Class ScalarLaws (F : Type) `{Scalar F} : Prop := {
  cast_0_neq_1 : cast 0 <> cast 1;
  one_ge_half : fgeb (cast 1) half = true;
  zero_ge_half : fgeb (cast 0) half = false;
  sub_0_0 : fsub (cast 0) (cast 0) = cast 0;
  sub_1_1 : fsub (cast 1) (cast 1) = cast 0;
  abs_0 : fabs (cast 0) = cast 0;
  max_ninf_0 : fmax ninf (cast 0) = cast 0;
  max_0_0 : fmax (cast 0) (cast 0) = cast 0;
  lt_ninf : forall t, fltb (cast 0) t = true -> fltb ninf t = true
}.
Arguments ScalarLaws F {_}.

(** ** Exceptions, and the state and error monad *)

Inductive exn : Type :=
| UnboundLocalError (name : string)
| ValueError (msg : string)
| InvalidArgumentError.         (* TensorFlow's, for a negative limit or dimension *)

Inductive result (A : Type) : Type :=
| Ok (a : A)
| Raise (e : exn).
Arguments Ok {A} a.
Arguments Raise {A} e.

(** A computation on a state [S]: it returns or raises, and the state it
    leaves is kept in both cases. *)
Definition M (S A : Type) : Type := S -> result A * S.

Definition ret {S A} (a : A) : M S A := fun s => (Ok a, s).

Definition bind {S A B} (c : M S A) (k : A -> M S B) : M S B :=
  fun s =>
    match c s with
    | (Ok a, s') => k a s'
    | (Raise e, s') => (Raise e, s')
    end.

Definition raise {S A} (e : exn) : M S A := fun s => (Raise e, s).

Definition gets {S A} (f : S -> A) : M S A := fun s => (Ok (f s), s).

Definition modify {S} (f : S -> S) : M S unit := fun s => (Ok tt, f s).

Declare Scope monad_scope.
Delimit Scope monad_scope with monad.
Notation "x <- c ;; k" := (bind c (fun x => k))
  (at level 100, c at next level, right associativity) : monad_scope.
Notation "c ;;; k" := (bind c (fun _ => k))
  (at level 100, right associativity) : monad_scope.

(** ** Tensors *)

Abbreviation vector F := (list F) (only parsing).
Abbreviation matrix F := (list (list F)) (only parsing).
Abbreviation tensor3 F := (list (list (list F))) (only parsing).

Section Tensors.

Context {F : Type} `{Scalar F}.

Fixpoint map2 {A B C} (f : A -> B -> C) (xs : list A) (ys : list B) : list C :=
  match xs, ys with
  | x :: xs', y :: ys' => f x y :: map2 f xs' ys'
  | _, _ => []
  end.

(** A binary elementwise operation along one axis, with the broadcasting of
    TensorFlow: an axis of size 1 is stretched to the size of the other
    operand. *)
Definition bcast2 {A B C} (f : A -> B -> C) (xs : list A) (ys : list B) : list C :=
  match xs, ys with
  | [x], _ => map (f x) ys
  | _, [y] => map (fun x => f x y) xs
  | _, _ => map2 f xs ys
  end.

(** Tensors of any rank: elementwise unary and (broadcasting) binary
    operations, and the list of all the elements. *)
Class Tensor (T : Type) : Type := {
  tmap : (F -> F) -> T -> T;
  tbin : (F -> F -> F) -> T -> T -> T;
  tflat : T -> list F;
  tnil : T
}.

#[export] Instance scalar_tensor : Tensor F := {
  tmap f x := f x;
  tbin f x y := f x y;
  tflat x := [x];
  tnil := cast 0
}.

#[export] Instance list_tensor (T : Type) `{Tensor T} : Tensor (list T) := {
  tmap f := map (tmap f);
  tbin f := bcast2 (tbin f);
  tflat l := concat (map tflat l);
  tnil := []
}.

Definition tadd {T} `{Tensor T} : T -> T -> T := tbin fadd.
Definition tsub {T} `{Tensor T} : T -> T -> T := tbin fsub.
Definition tmul {T} `{Tensor T} : T -> T -> T := tbin fmul.
Definition tdiv {T} `{Tensor T} : T -> T -> T := tbin fdiv.
Definition tneg {T} `{Tensor T} : T -> T := tmap fneg.
Definition zeros_like {T} `{Tensor T} : T -> T := tmap (fun _ => cast 0).

(** [tf.reduce_sum] of a rank-1 tensor. *)
Definition sum (l : list F) : F := fold_left fadd l (cast 0).

(** [tf.reduce_sum(x, axis=0)]. *)
Definition reduce_sum_0 {T} `{Tensor T} (x : list T) : T :=
  fold_left tadd x (zeros_like (hd tnil x)).

(** [tf.reduce_mean(x, axis=0)]: the sum along the axis divided by its size. *)
Definition reduce_mean_0 {T} `{Tensor T} (x : list T) : T :=
  tmap (fun s => fdiv s (cast (Z.of_nat (length x)))) (reduce_sum_0 x).

(** [tf.reduce_sum(x, axis=-1)] and [tf.reduce_mean(x, axis=-1)] of a
    rank-2 tensor. *)
Definition reduce_sum_last (x : matrix F) : vector F := map sum x.

Definition reduce_mean_last (x : matrix F) : vector F :=
  map (fun r => fdiv (sum r) (cast (Z.of_nat (length r)))) x.

(** [tf.reduce_max(x)], over all the elements. *)
Definition reduce_max {T} `{Tensor T} (x : T) : F :=
  fold_left fmax (tflat x) ninf.

Definition shape (x : matrix F) : nat * nat := (length x, length (hd [] x)).

Definition column (j : nat) (w : matrix F) : vector F :=
  map (fun r => nth j r (cast 0)) w.

(** [tf.transpose(w)] of a rank-2 tensor. *)
Definition transpose (w : matrix F) : matrix F :=
  map (fun j => column j w) (seq 0 (snd (shape w))).

Definition dot (x y : vector F) : F := sum (map2 fmul x y).

(** [x @ w]. *)
Definition matmul (x w : matrix F) : matrix F :=
  map (fun r => map (dot r) (transpose w)) x.

(** [tf.expand_dims(x, axis=-1)] and [tf.expand_dims(x, axis=-2)] of a
    rank-2 tensor. *)
Definition expand_dims_last (x : matrix F) : tensor3 F :=
  map (map (fun e => [e])) x.

Definition expand_dims_before_last (x : matrix F) : tensor3 F :=
  map (fun r => [r]) x.

(** [outer], lines 9-10. *)
Definition outer (x y : matrix F) : tensor3 F :=
  tmul (expand_dims_last x) (expand_dims_before_last y).

(** [expect], lines 17-18. *)
Definition expect {T} `{Tensor T} (x : list T) : T := reduce_mean_0 x.

End Tensors.

Arguments Tensor F T : clear implicits.

(** ** Loops *)

(** What the body of a [for] loop leaves: the loop goes on, or [break]. *)
Inductive control (St : Type) : Type :=
| Continue (st : St)
| Break (st : St).
Arguments Continue {St} st.
Arguments Break {St} st.

(** [for x in xs: body], on the variables [st] the body assigns. *)
Fixpoint for_in {S A St} (xs : list A) (body : A -> St -> M S (control St))
    (st : St) : M S St :=
  match xs with
  | [] => ret st
  | x :: rest =>
      (c <- body x st ;;
       match c with
       | Continue st' => for_in rest body st'
       | Break st' => ret st'
       end)%monad
  end.

(** [tf.range(n)]: 0, 1, ..., n-1, none when [n = 0]; a negative [n] is
    refused by TensorFlow. *)
Definition tf_range {S} (n : Z) : M S (list Z) :=
  if n <? 0 then raise InvalidArgumentError
  else ret (map Z.of_nat (seq 0 (Z.to_nat n))).

(** ** The model and the world *)

(** A source of uniform random numbers of [0, 1): one draw and the next
    state of the generator. *)
Class Generator (F G : Type) : Type := {
  uniform : G -> F * G
}.

Section Model.

Context {F : Type} `{Scalar F}.

(** [BernoulliRBM], lines 94-118: the sizes and the current values of the
    three variables. *)
Record BernoulliRBM : Type := {
  ambient_size : Z;
  latent_size : Z;
  kernel : matrix F;
  latent_bias : vector F;
  ambient_bias : vector F
}.

(** The three [tf.Variable] objects the model owns. *)
Inductive variable : Type :=
| var_kernel
| var_latent_bias
| var_ambient_bias.

(** A gradient: a tensor of rank 1 or 2. *)
Inductive gradient : Type :=
| Rank1 (v : vector F)
| Rank2 (m : matrix F).

Context {G : Type} `{Generator F G}.

Record World : Type := {
  rbm : BernoulliRBM;
  gen : G
}.

Local Open Scope monad_scope.

(** One uniform draw from the global generator. *)
Definition draw : M World F :=
  fun w => let (u, g) := uniform (gen w) in (Ok u, {| rbm := rbm w; gen := g |}).

Fixpoint draws (n : nat) : M World (vector F) :=
  match n with
  | O => ret []
  | S n' => u <- draw ;; r <- draws n' ;; ret (u :: r)
  end.

Fixpoint draw_rows (rows cols : nat) : M World (matrix F) :=
  match rows with
  | O => ret []
  | S rows' => r <- draws cols ;; m <- draw_rows rows' cols ;; ret (r :: m)
  end.

(** [random], lines 13-14, at a shape of rank 2; a negative dimension is
    refused by [tf.random.uniform]. *)
Definition random (shp : Z * Z) : M World (matrix F) :=
  if (fst shp <? 0) || (snd shp <? 0) then raise InvalidArgumentError
  else draw_rows (Z.to_nat (fst shp)) (Z.to_nat (snd shp)).

(** [x.shape] of a tensor of rank 2. *)
Definition tf_shape (x : matrix F) : Z * Z :=
  (Z.of_nat (fst (shape x)), Z.of_nat (snd (shape x))).

(** [tf.where(c, a, b)] on a rank-2 condition, and [tf.cast] to the float
    type. *)
Definition where_ (c : list (list bool)) (a b : Z) : list (list Z) :=
  map (map (fun t : bool => if t then a else b)) c.

Definition tf_cast (y : list (list Z)) : matrix F := map (map cast) y.

(** [activate], lines 121-126. *)
Definition activate (prob : matrix F) (stochastic : bool) : M World (matrix F) :=
  y <- (if negb stochastic
        then ret (where_ (map (map (fun p => fgeb p half)) prob) 1 0)
        else r <- random (tf_shape prob) ;;
             ret (where_ (map2 (map2 fleb) r prob) 1 0)) ;;
  ret (tf_cast y).

(** [prob_latent_given_ambient], lines 129-132. *)
Definition prob_latent_given_ambient (ambient : matrix F) : M World (matrix F) :=
  W <- gets (fun w => kernel (rbm w)) ;;
  b <- gets (fun w => latent_bias (rbm w)) ;;
  let x := ambient in
  let a := tadd (matmul x W) [b] in
  ret (tmap fsigmoid a).

(** [prob_ambient_given_latent], lines 135-138. *)
Definition prob_ambient_given_latent (latent : matrix F) : M World (matrix F) :=
  W <- gets (fun w => kernel (rbm w)) ;;
  v <- gets (fun w => ambient_bias (rbm w)) ;;
  let h := latent in
  let a := tadd (matmul h (transpose W)) [v] in
  ret (tmap fsigmoid a).

(** The body of the loop of [relax], lines 143-149, on the variables
    [ambient] and [step]; [step] is unbound ([None]) before the first
    iteration. *)
Definition relax_body (tol : F) (step : Z) (st : matrix F * option Z)
    : M World (control (matrix F * option Z)) :=
  let ambient := fst st in
  latent_prob <- prob_latent_given_ambient ambient ;;
  latent <- activate latent_prob false ;;
  new_ambient_prob <- prob_ambient_given_latent latent ;;
  new_ambient <- activate new_ambient_prob false ;;
  if fltb (reduce_max (tmap fabs (tsub new_ambient ambient))) tol
  then ret (Break (ambient, Some step))
  else ret (Continue (new_ambient, Some step)).

(** [relax], lines 141-150. *)
Definition relax (ambient : matrix F) (max_iter : Z) (tol : F)
    : M World (matrix F * Z) :=
  steps <- tf_range max_iter ;;
  st <- for_in steps (relax_body tol) (ambient, None) ;;
  match snd st with
  | Some step => ret (fst st, step)
  | None => raise (UnboundLocalError "step"%string)
  end.

(** [get_energy], lines 153-161. *)
Definition get_energy (ambient latent : matrix F) : M World (vector F) :=
  let x := ambient in
  let h := latent in
  W <- gets (fun w => kernel (rbm w)) ;;
  b <- gets (fun w => latent_bias (rbm w)) ;;
  v <- gets (fun w => ambient_bias (rbm w)) ;;
  let energy :=
    tsub (tsub (tneg (reduce_sum_last (tmul (matmul x W) h)))
               (reduce_mean_last (tmul h [b])))
         (reduce_mean_last (tmul x [v])) in
  ret energy.

(** [init_fantasy_latent], lines 164-166. *)
Definition init_fantasy_latent (num_samples : Z) : M World (matrix F) :=
  n <- gets (fun w => latent_size (rbm w)) ;;
  p <- random (num_samples, n) ;;
  ret (map (map (fun e => if fgeb e half then float_lit 1 0 else float_lit 0 0)) p).

(** [get_grads_and_vars], lines 169-188. *)
Definition get_grads_and_vars (real_ambient fantasy_latent : matrix F)
    : M World (list (gradient * variable)) :=
  real_latent_prob <- prob_latent_given_ambient real_ambient ;;
  real_latent <- activate real_latent_prob true ;;
  fantasy_ambient_prob <- prob_ambient_given_latent fantasy_latent ;;
  fantasy_ambient <- activate fantasy_ambient_prob true ;;
  let grad_kernel :=
    tsub (expect (outer fantasy_ambient_prob fantasy_latent))
         (expect (outer real_ambient real_latent)) in
  let grad_latent_bias := tsub (expect fantasy_latent) (expect real_latent) in
  let grad_ambient_bias := tsub (expect fantasy_ambient) (expect real_ambient) in
  ret [ (Rank2 grad_kernel, var_kernel);
        (Rank1 grad_latent_bias, var_latent_bias);
        (Rank1 grad_ambient_bias, var_ambient_bias) ].

(** The body of the loop of [contrastive_divergence], lines 195-198, on the
    variable [fantasy_latent]. *)
Definition cd_body (_ : Z) (fantasy_latent : matrix F) : M World (control (matrix F)) :=
  fantasy_ambient_prob <- prob_ambient_given_latent fantasy_latent ;;
  fantasy_ambient <- activate fantasy_ambient_prob true ;;
  fantasy_latent_prob <- prob_latent_given_ambient fantasy_ambient ;;
  fantasy_latent' <- activate fantasy_latent_prob true ;;
  ret (Continue fantasy_latent').

(** [contrastive_divergence], lines 191-199. *)
Definition contrastive_divergence (fantasy_latent : matrix F) (mc_steps : Z)
    : M World (matrix F) :=
  steps <- tf_range mc_steps ;;
  for_in steps cd_body fantasy_latent.

End Model.

Arguments BernoulliRBM F : clear implicits.
Arguments gradient F : clear implicits.
Arguments World F G : clear implicits.

(** ** Parameter initializers *)

(** [tf.cast(b, dtype)], with the [dtype] ['float32'] that
    [create_variable] passes. *)
Definition cast_dtype {F : Type} `{Scalar F} (b : vector F) : vector F :=
  map to_dtype b.

(** The initializers of TensorFlow the two strategies return:
    [tf.initializers.glorot_normal()], [tf.random_normal_initializer(stddev)]
    and [tf.initializers.zeros()], called with a shape.  They are
    TensorFlow's: what they return for a shape, and what they do with a
    negative dimension, is left to the instance. *)
Class Initializers (F G : Type) : Type := {
  glorot_normal : Z * Z -> M G (matrix F);
  random_normal : F -> Z * Z -> M G (matrix F);
  zeros : Z -> M G (vector F)
}.

(** [GlorotInitializer], lines 36-57. *)
Module GlorotInitializer.

Record t (F : Type) : Type := { samples : matrix F; eps : F }.
Arguments samples {F} _.
Arguments eps {F} _.

(** [__init__(samples, eps=1e-8)]. *)
Definition new {F} `{Scalar F} (samples : matrix F) (eps : option F) : t F :=
  {| samples := samples;
     eps := match eps with Some e => e | None => float_lit 1 (-8) end |}.

(** The value the initializer [ambient_bias] returns (its first argument,
    the shape, is ignored by the source). *)
Definition ambient_bias {F} `{Scalar F} (self : t F) : vector F :=
  let b := tdiv [cast 1] (tadd (expect (samples self)) [eps self]) in
  cast_dtype b.

Definition kernel {F G} `{Initializers F G} (self : t F) : Z * Z -> M G (matrix F) :=
  glorot_normal.

Definition latent_bias {F G} `{Initializers F G} (self : t F) : Z -> M G (vector F) :=
  zeros.

End GlorotInitializer.

(** [HintonInitializer], lines 60-82. *)
Module HintonInitializer.

Record t (F : Type) : Type := { samples : matrix F; eps : F }.
Arguments samples {F} _.
Arguments eps {F} _.

Definition new {F} `{Scalar F} (samples : matrix F) (eps : option F) : t F :=
  {| samples := samples;
     eps := match eps with Some e => e | None => float_lit 1 (-8) end |}.

Definition ambient_bias {F} `{Scalar F} (self : t F) : vector F :=
  let p := expect (samples self) in
  let b := tsub (tmap flog (tadd p [eps self]))
                (tmap flog (tadd (tsub [cast 1] p) [eps self])) in
  cast_dtype b.

Definition kernel {F G} `{Scalar F} `{Initializers F G} (self : t F)
    : Z * Z -> M G (matrix F) :=
  random_normal (float_lit 1 (-2)).

Definition latent_bias {F G} `{Initializers F G} (self : t F) : Z -> M G (vector F) :=
  zeros.

End HintonInitializer.

(** ** The metrics sink *)

(** Python's [format(v, '.<n>f')] on a float. *)
Class FloatFormat (F : Type) : Type := {
  format_f : nat -> F -> string
}.

Module History.

Local Open Scope string_scope.

(** The Python values that reach the sink. *)
Inductive pyobj (F : Type) : Type :=
| PyFloat (x : F)                 (* [float] or [np.floating] *)
| PyStr (s : string)
| PyNone
| PyInt (z : Z)
| PyBool (b : bool)
| PyArray (a : list F)            (* [np.ndarray] *)
| PyTensor0 (x : F)               (* a scalar float [tf.Tensor] *)
| PyTensor1 (a : list F).         (* a float [tf.Tensor] of rank 1 *)
Arguments PyFloat {F} x.
Arguments PyStr {F} s.
Arguments PyNone {F}.
Arguments PyInt {F} z.
Arguments PyBool {F} b.
Arguments PyArray {F} a.
Arguments PyTensor0 {F} x.
Arguments PyTensor1 {F} a.

(** [type(v)] as an f-string prints it. *)
Definition type_repr {F} (v : pyobj F) : string :=
  match v with
  | PyFloat _ => "<class 'float'>"
  | PyStr _ => "<class 'str'>"
  | PyNone => "<class 'NoneType'>"
  | PyInt _ => "<class 'int'>"
  | PyBool _ => "<class 'bool'>"
  | PyArray _ => "<class 'numpy.ndarray'>"
  | PyTensor0 _ | PyTensor1 _ =>
      "<class 'tensorflow.python.framework.ops.EagerTensor'>"
  end.

(** A [dict] with string keys, in insertion order. *)
Definition dict (F : Type) : Type := list (string * pyobj F).

Fixpoint dict_get {F} (d : dict F) (k : string) (default : pyobj F) : pyobj F :=
  match d with
  | [] => default
  | (k', v) :: d' => if String.eqb k' k then v else dict_get d' k default
  end.

(** [d[k] = v]: a key that is present keeps its place. *)
Fixpoint dict_set {F} (d : dict F) (k : string) (v : pyobj F) : dict F :=
  match d with
  | [] => [(k, v)]
  | (k', v') :: d' =>
      if String.eqb k' k then (k', v) :: d' else (k', v') :: dict_set d' k v
  end.

(** [self.logs]: a [defaultdict(dict)] keyed by the step. *)
Definition t (F : Type) : Type := list (Z * dict F).

Fixpoint lookup {F} (logs : t F) (step : Z) : option (dict F) :=
  match logs with
  | [] => None
  | (s, d) :: logs' => if Z.eqb s step then Some d else lookup logs' step
  end.

Fixpoint store {F} (logs : t F) (step : Z) (d : dict F) : t F :=
  match logs with
  | [] => [(step, d)]
  | (s, d') :: logs' =>
      if Z.eqb s step then (s, d) :: logs' else (s, d') :: store logs' step d
  end.

Local Open Scope monad_scope.

(** [self.logs[step]]: a missing step is entered with an empty [dict]. *)
Definition getitem {F} (step : Z) : M (t F) (dict F) :=
  fun logs =>
    match lookup logs step with
    | Some d => (Ok d, logs)
    | None => (Ok [], store logs step [])
    end.

(** [value.numpy()], for the values that have the attribute. *)
Definition numpy {F} (value : pyobj F) : option (pyobj F) :=
  match value with
  | PyTensor0 x => Some (PyFloat x)
  | PyTensor1 a => Some (PyArray a)
  | _ => None
  end.

(** [History.log], lines 207-212. *)
Definition log {F} (step : Z) (key : string) (value : pyobj F) : M (t F) unit :=
  let value := match numpy value with Some v => v | None => value end in
  d <- getitem step ;;
  modify (fun logs => store logs step (dict_set d key value)).

Definition str_of_int (z : Z) : string := NilZero.string_of_int (Z.to_int z).

(** The body of the loop of [show], lines 220-227, on the variable
    [aspects]. *)
Definition show_body {F} `{FloatFormat F} (step : Z) (k : string)
    (aspects : list string) : M (t F) (control (list string)) :=
  d <- getitem step ;;
  let v := dict_get d k PyNone in
  v' <- match v with
        | PyFloat x => ret (format_f 5 x)
        | PyStr s => ret s
        | _ => raise (ValueError
                 ("Type " ++ type_repr v ++ " is temporally not supported."))
        end ;;
  ret (Continue (List.app aspects [k ++ ": " ++ v'])).

(** [History.show], lines 214-230. *)
Definition show {F} `{FloatFormat F} (step : Z) (keys : option (list string))
    : M (t F) string :=
  keys <- match keys with
          | None => d <- getitem step ;; ret (map fst d)
          | Some ks => ret ks
          end ;;
  aspects <- for_in keys (show_body step) [] ;;
  let show_str := String.concat " - " (("step: " ++ str_of_int step) :: aspects) in
  ret show_str.

End History.

(** ** Extended reals: an instance of the scalars *)

(** A real number, or one of the special values of IEEE 754.  Arithmetic on
    finite values is exact. *)
Inductive xreal : Type :=
| Fin (r : R)
| PInf
| NInf
| NaN.

Definition Rsign (r : R) : comparison :=
  if Rlt_dec 0 r then Gt else if Rlt_dec r 0 then Lt else Eq.

Definition inf_of (c : comparison) : xreal :=
  match c with Gt => PInf | Lt => NInf | Eq => NaN end.

Definition xneg (x : xreal) : xreal :=
  match x with
  | Fin r => Fin (- r)
  | PInf => NInf
  | NInf => PInf
  | NaN => NaN
  end.

Definition xadd (x y : xreal) : xreal :=
  match x, y with
  | NaN, _ | _, NaN => NaN
  | Fin a, Fin b => Fin (a + b)
  | PInf, NInf | NInf, PInf => NaN
  | PInf, _ | _, PInf => PInf
  | NInf, _ | _, NInf => NInf
  end.

Definition xsub (x y : xreal) : xreal := xadd x (xneg y).

Definition xmul (x y : xreal) : xreal :=
  match x, y with
  | NaN, _ | _, NaN => NaN
  | Fin a, Fin b => Fin (a * b)
  | Fin a, PInf | PInf, Fin a => inf_of (Rsign a)
  | Fin a, NInf | NInf, Fin a => inf_of (CompOpp (Rsign a))
  | PInf, PInf | NInf, NInf => PInf
  | PInf, NInf | NInf, PInf => NInf
  end.

Definition xdiv (x y : xreal) : xreal :=
  match x, y with
  | NaN, _ | _, NaN => NaN
  | Fin a, Fin b => if Req_dec_T b 0 then inf_of (Rsign a) else Fin (a / b)
  | Fin _, _ => Fin 0
  | PInf, Fin b => if Rlt_dec b 0 then NInf else PInf
  | NInf, Fin b => if Rlt_dec b 0 then PInf else NInf
  | _, _ => NaN
  end.

Definition xabs (x : xreal) : xreal :=
  match x with
  | Fin r => Fin (Rabs r)
  | PInf | NInf => PInf
  | NaN => NaN
  end.

Definition xmax (x y : xreal) : xreal :=
  match x, y with
  | NaN, _ | _, NaN => NaN
  | Fin a, Fin b => Fin (Rmax a b)
  | PInf, _ | _, PInf => PInf
  | NInf, z | z, NInf => z
  end.

Definition xlog (x : xreal) : xreal :=
  match x with
  | Fin r => if Rlt_dec 0 r then Fin (ln r)
             else if Rlt_dec r 0 then NaN else NInf
  | PInf => PInf
  | NInf | NaN => NaN
  end.

Definition xsigmoid (x : xreal) : xreal :=
  match x with
  | Fin r => Fin (/ (1 + exp (- r)))
  | PInf => Fin 1
  | NInf => Fin 0
  | NaN => NaN
  end.

Definition xleb (x y : xreal) : bool :=
  match x, y with
  | NaN, _ | _, NaN => false
  | Fin a, Fin b => if Rle_dec a b then true else false
  | NInf, _ | _, PInf => true
  | _, _ => false
  end.

Definition xltb (x y : xreal) : bool :=
  match x, y with
  | NaN, _ | _, NaN => false
  | Fin a, Fin b => if Rlt_dec a b then true else false
  | NInf, NInf | PInf, PInf => false
  | NInf, _ | _, PInf => true
  | _, _ => false
  end.

Definition xgeb (x y : xreal) : bool := xleb y x.

#[export] Instance xreal_scalar : Scalar xreal := {
  cast z := Fin (IZR z);
  float_lit m k := Fin (IZR m * powerRZ 10 k);
  fadd := xadd;
  fsub := xsub;
  fmul := xmul;
  fdiv := xdiv;
  fneg := xneg;
  fabs := xabs;
  fmax := xmax;
  ninf := NInf;
  flog := xlog;
  fsigmoid := xsigmoid;
  fgeb := xgeb;
  fleb := xleb;
  fltb := xltb;
  to_dtype x := x
}.

Definition is_finite (x : xreal) : Prop := exists r, x = Fin r.

(** ** The range of single precision

    The variables of the model are of the type [float32].  The instance
    [single_scalar] is [xreal_scalar] with the range of that type: every
    literal and every result goes through [to_single], which gives 0 for a
    number whose magnitude is at most [2^-150], half of the smallest
    positive number of the type, and an infinity for a number whose
    magnitude is at least [2^128 - 2^103], half-way between the largest
    number of the type and [2^128].  The rounding of the mantissa is not
    part of it. *)

Definition single_tiny : R := / IZR (2 ^ 150).

Definition single_huge : R := IZR (2 ^ 128 - 2 ^ 103).

(** The smallest positive normal number of the type, [2^-126]. *)
Definition single_normal : R := / IZR (2 ^ 126).

Definition to_single (x : xreal) : xreal :=
  match x with
  | Fin r =>
      if Rle_dec (Rabs r) single_tiny then Fin 0
      else if Rle_dec single_huge (Rabs r)
           then (if Rlt_dec r 0 then NInf else PInf)
           else Fin r
  | _ => x
  end.

Definition single_scalar : Scalar xreal := {|
  cast z := to_single (Fin (IZR z));
  float_lit m k := to_single (Fin (IZR m * powerRZ 10 k));
  fadd x y := to_single (xadd x y);
  fsub x y := to_single (xsub x y);
  fmul x y := to_single (xmul x y);
  fdiv x y := to_single (xdiv x y);
  fneg := xneg;
  fabs := xabs;
  fmax := xmax;
  ninf := NInf;
  flog x := to_single (xlog x);
  fsigmoid x := to_single (xsigmoid x);
  fgeb := xgeb;
  fleb := xleb;
  fltb := xltb;
  to_dtype := to_single
|}.

(** A generator that reads its draws from a given sequence. *)
Definition sequence_generator {F : Type} (draws : nat -> F) : Generator F nat :=
  {| uniform n := (draws n, S n) |}.


(** ** Definitions used to state the properties *)

Section Statements.

Context {F : Type} `{Scalar F}.

(** Elements of tensors by index. *)
Definition at1 (v : vector F) (i : nat) : F := nth i v (cast 0).
Definition at2 (x : matrix F) (n i : nat) : F := at1 (nth n x []) i.

(** A rank-2 tensor of [rows] rows of [cols] elements. *)
Definition has_shape (x : matrix F) (rows cols : nat) : Prop :=
  length x = rows /\ Forall (fun r => length r = cols) x.

(** The mean of a list of numbers: their sum divided by their count. *)
Definition mean (l : list F) : F := fdiv (sum l) (cast (Z.of_nat (length l))).

(** The mean and the sum of [f 0, ..., f (n-1)]. *)
Definition mean_over (n : nat) (f : nat -> F) : F := mean (map f (seq 0 n)).
Definition sum_over (n : nat) (f : nat -> F) : F := sum (map f (seq 0 n)).

(** The conditional probabilities as functions of the value of the model. *)
Definition latent_prob_of (m : BernoulliRBM F) (ambient : matrix F) : matrix F :=
  tmap fsigmoid (tadd (matmul ambient (kernel m)) [latent_bias m]).

Definition ambient_prob_of (m : BernoulliRBM F) (latent : matrix F) : matrix F :=
  tmap fsigmoid (tadd (matmul latent (transpose (kernel m))) [ambient_bias m]).

(** The deterministic activation: the threshold at [0.5]. *)
Definition threshold (prob : matrix F) : matrix F :=
  tf_cast (where_ (map (map (fun p => fgeb p half)) prob) 1 0).

(** An element of a binary state. *)
Definition binary (e : F) : Prop := e = cast 0 \/ e = cast 1.

(** The stochastic activation with the draws [r]. *)
Definition sample (r prob : matrix F) : matrix F :=
  tf_cast (where_ (map2 (map2 fleb) r prob) 1 0).

(** One round of relaxation: the deterministic latent activation of the
    ambient state, then the deterministic ambient activation of that. *)
Definition relax_round (m : BernoulliRBM F) (ambient : matrix F) : matrix F :=
  threshold (ambient_prob_of m (threshold (latent_prob_of m ambient))).

Fixpoint iterate (m : BernoulliRBM F) (k : nat) (ambient : matrix F) : matrix F :=
  match k with
  | O => ambient
  | S k' => iterate m k' (relax_round m ambient)
  end.

(** The maximum absolute elementwise change of one round is below [tol]. *)
Definition converged (m : BernoulliRBM F) (tol : F) (ambient : matrix F) : bool :=
  fltb (reduce_max (tmap fabs (tsub (relax_round m ambient) ambient))) tol.

(** The energy of one row as the specification writes it, and with the
    bias terms summed as in the textbook. *)
Definition energy_row (m : BernoulliRBM F) (A L : nat) (x h : vector F) : F :=
  fsub (fsub
    (fneg (sum_over L (fun j =>
       fmul (sum_over A (fun i => fmul (at1 x i) (at2 (kernel m) i j))) (at1 h j))))
    (mean_over L (fun j => fmul (at1 h j) (at1 (latent_bias m) j))))
    (mean_over A (fun i => fmul (at1 x i) (at1 (ambient_bias m) i))).

Definition textbook_energy_row (m : BernoulliRBM F) (A L : nat) (x h : vector F) : F :=
  fsub (fsub
    (fneg (sum_over L (fun j =>
       fmul (sum_over A (fun i => fmul (at1 x i) (at2 (kernel m) i j))) (at1 h j))))
    (sum_over L (fun j => fmul (at1 h j) (at1 (latent_bias m) j))))
    (sum_over A (fun i => fmul (at1 x i) (at1 (ambient_bias m) i))).

Context {G : Type} `{Generator F G}.

Local Open Scope monad_scope.

(** One round of block Gibbs sampling: sample the ambient state given the
    latent one, then the latent state given that ambient one. *)
Definition gibbs_round (latent : matrix F) : M (World F G) (matrix F) :=
  ambient <- (p <- prob_ambient_given_latent latent ;; activate p true) ;;
  p <- prob_latent_given_ambient ambient ;; activate p true.

Fixpoint gibbs_rounds (n : nat) (latent : matrix F) : M (World F G) (matrix F) :=
  match n with
  | O => ret latent
  | S n' => latent' <- gibbs_round latent ;; gibbs_rounds n' latent'
  end.

End Statements.

(** What [History.show] prints for a value, as the specification has it:
    a float with five decimals, a string as it is, nothing else. *)
Definition render {F} `{FloatFormat F} (v : History.pyobj F) : option string :=
  match v with
  | History.PyFloat x => Some (format_f 5 x)
  | History.PyStr s => Some s
  | _ => None
  end.

(** ** A small model over the extended reals

    One ambient and one latent unit, all parameters zero; every draw of the
    generator is one half. *)

#[export] Instance half_generator : Generator xreal nat :=
  sequence_generator (fun _ => Fin (/ 2)).

Definition m0 : BernoulliRBM xreal :=
  {| ambient_size := 1; latent_size := 1;
     kernel := [[Fin 0]]; latent_bias := [Fin 0]; ambient_bias := [Fin 0] |}.

Definition w0 : World xreal nat := {| rbm := m0; gen := 0%nat |}.

(** A model with two ambient and two latent units. *)
Definition m2 : BernoulliRBM xreal :=
  {| ambient_size := 2; latent_size := 2;
     kernel := [[Fin 1; Fin 2]; [Fin 3; Fin 4]];
     latent_bias := [Fin 1; Fin 1];
     ambient_bias := [Fin 1; Fin 3] |}.

Definition w2 : World xreal nat := {| rbm := m2; gen := 0%nat |}.

(** The dictionary of a step, empty when the step has no entry, and what
    [History.show] prints for the key [k] of it. *)
Definition current_dict {F} (logs : History.t F) (step : Z) : History.dict F :=
  match History.lookup logs step with Some d => d | None => [] end.

Definition rendered {F} `{FloatFormat F} (d : History.dict F) (k : string) : string :=
  match render (History.dict_get d k History.PyNone) with
  | Some s => s
  | None => EmptyString
  end.

(** ** Python floats and their fixed-point format *)

(** A Python float: the binary float [m * 2^e], an infinity, or nan. *)
Inductive pyfloat : Type :=
| PyFinite (m e : Z)
| PyInf (negative : bool)
| PyNan.

Definition digit (d : Z) : ascii := ascii_of_nat (48 + Z.to_nat d).

(** The last [n] decimal digits of [x]. *)
Fixpoint digits (n : nat) (x : Z) : string :=
  match n with
  | O => EmptyString
  | S n' => String.append (digits n' (x / 10)) (String (digit (x mod 10)) EmptyString)
  end.

(** [num / den] rounded to the nearest integer, ties to even. *)
Definition round_half_even (num den : Z) : Z :=
  let q := num / den in
  let r := num mod den in
  if 2 * r <? den then q
  else if den <? 2 * r then q + 1
  else if Z.even q then q else q + 1.

(** [format(x, '.<n>f')]. *)
Definition format_fixed (n : nat) (x : pyfloat) : string :=
  match x with
  | PyNan => "nan"%string
  | PyInf false => "inf"%string
  | PyInf true => "-inf"%string
  | PyFinite m e =>
      let scale := 10 ^ Z.of_nat n in
      let q := if 0 <=? e then Z.abs m * 2 ^ e * scale
               else round_half_even (Z.abs m * scale) (2 ^ (- e)) in
      String.append (if m <? 0 then "-"%string else EmptyString)
        (String.append (History.str_of_int (q / scale))
           (match n with
            | O => EmptyString
            | S _ => String.append "."%string (digits n (q mod scale))
            end))
  end.

#[export] Instance pyfloat_format : FloatFormat pyfloat :=
  {| format_f := format_fixed |}.

(** A numeral in fixed-point notation with exactly [n] decimal places: an
    optional minus sign, at least one digit, a point and [n] digits. *)
Definition is_decimal_digit (c : ascii) : bool :=
  (48 <=? nat_of_ascii c)%nat && (nat_of_ascii c <=? 57)%nat.

Fixpoint all_digits (s : string) : bool :=
  match s with
  | EmptyString => true
  | String c s' => is_decimal_digit c && all_digits s'
  end.

Definition fixed_point (n : nat) (s : string) : Prop :=
  exists sign integer fraction : string,
    s = String.append sign (String.append integer (String.append "." fraction)) /\
    (sign = EmptyString \/ sign = "-"%string) /\
    integer <> EmptyString /\ all_digits integer = true /\
    String.length fraction = n /\ all_digits fraction = true.

(** A history whose only value is a float that is not a number. *)
Definition logs_nan : History.t pyfloat :=
  [ (0, [ ("mean energy"%string, History.PyFloat PyNan) ]) ].

(** A history with two steps. *)
Definition logs0 : History.t pyfloat :=
  [ (0, [ ("mean energy"%string, History.PyFloat (PyFinite (-3) (-1)));
          ("kernel"%string, History.PyStr "0.00012 (0.01000)") ]);
    (10, [ ("recon error"%string, History.PyFloat (PyFinite 1 (-3)));
           ("batch"%string, History.PyInt 7) ]) ].

(** ** The draws of the generator *)

Section Draws.

Context {F G : Type} `{Generator F G}.

(** The state of the generator after [n] draws, and the draw number [k]
    (counted from 0) from the state [g]. *)
Fixpoint advance (n : nat) (g : G) : G :=
  match n with
  | O => g
  | S n' => advance n' (snd (uniform g))
  end.

Definition nth_draw (g : G) (k : nat) : F := fst (uniform (advance k g)).

(** A matrix of [rows] rows of [cols] draws from the state [g], filled row
    by row. *)
Definition drawn (g : G) (rows cols : nat) : matrix F :=
  map (fun i => map (fun j => nth_draw g (i * cols + j)) (seq 0 cols)) (seq 0 rows).

End Draws.

(** What an absolute value can be over the extended reals: a nonnegative
    number, plus infinity or not-a-number. *)
Definition abs_value (x : xreal) : Prop :=
  x = NaN \/ x = PInf \/ exists r, (0 <= r)%R /\ x = Fin r.

(** The value [History.log] stores: the [numpy()] of a tensor, the value
    itself otherwise. *)
Definition stored {F} (value : History.pyobj F) : History.pyobj F :=
  match History.numpy value with Some v => v | None => value end.

(** ** Construction of the model *)

(** An initializer object of one of the two subclasses. *)
Inductive Initializer (F : Type) : Type :=
| Glorot (self : GlorotInitializer.t F)
| Hinton (self : HintonInitializer.t F).
Arguments Glorot {F} self.
Arguments Hinton {F} self.

Section Construction.

Context {F : Type} `{Scalar F} {G : Type} `{Initializers F G}.

Local Open Scope monad_scope.

(** The property [kernel] of the initializer, called with a shape: lines
    42-44 and 66-68. *)
Definition kernel_initializer (initializer : Initializer F) (shape : Z * Z)
    : M G (matrix F) :=
  match initializer with
  | Glorot self => GlorotInitializer.kernel self shape
  | Hinton self => HintonInitializer.kernel self shape
  end.

(** The property [latent_bias], called with the shape [[latent_size]]. *)
Definition latent_bias_initializer (initializer : Initializer F) (shape : Z)
    : M G (vector F) :=
  match initializer with
  | Glorot self => GlorotInitializer.latent_bias self shape
  | Hinton self => HintonInitializer.latent_bias self shape
  end.

(** The property [ambient_bias]: the function it returns ignores the shape
    it is called with. *)
Definition ambient_bias_initializer (initializer : Initializer F) (_ : Z)
    : M G (vector F) :=
  match initializer with
  | Glorot self => ret (GlorotInitializer.ambient_bias self)
  | Hinton self => ret (HintonInitializer.ambient_bias self)
  end.

(** [create_variable], lines 85-91: the variable holds the value the
    initializer returns for the shape. *)
Definition create_variable {T Shape : Type} (name : string) (shape : Shape)
    (initializer : Shape -> M G T) : M G T :=
  init_value <- initializer shape ;;
  ret init_value.

(** [BernoulliRBM.__init__], lines 96-118. *)
Definition new_BernoulliRBM (ambient_size latent_size : Z)
    (initializer : Initializer F) : M G (BernoulliRBM F) :=
  kernel <- create_variable "kernel" (ambient_size, latent_size)
              (kernel_initializer initializer) ;;
  latent_bias <- create_variable "latent_bias" latent_size
                   (latent_bias_initializer initializer) ;;
  ambient_bias <- create_variable "ambient_bias" ambient_size
                    (ambient_bias_initializer initializer) ;;
  ret {| ambient_size := ambient_size;
         latent_size := latent_size;
         kernel := kernel;
         latent_bias := latent_bias;
         ambient_bias := ambient_bias |}.

End Construction.

(** The samples an initializer was built from. *)
Definition initializer_samples {F} (initializer : Initializer F) : matrix F :=
  match initializer with
  | Glorot self => GlorotInitializer.samples self
  | Hinton self => HintonInitializer.samples self
  end.

(** A model whose parameters have the shapes of [A] ambient and [L] latent
    units. *)
Definition well_shaped {F} (m : BernoulliRBM F) (A L : nat) : Prop :=
  has_shape (kernel m) A L /\
  length (latent_bias m) = L /\
  length (ambient_bias m) = A.

(** Initializers that, for a shape with no negative dimension, return a
    tensor of that shape, and [zeros] one of zeros that takes no draw. *)
Definition respects_shapes {F G : Type} `{Scalar F} `{Initializers F G} : Prop :=
  (forall (shp : Z * Z) (g : G), 0 <= fst shp -> 0 <= snd shp ->
     exists k g',
       glorot_normal shp g = (Ok k, g') /\
       has_shape k (Z.to_nat (fst shp)) (Z.to_nat (snd shp))) /\
  (forall (stddev : F) (shp : Z * Z) (g : G), 0 <= fst shp -> 0 <= snd shp ->
     exists k g',
       random_normal stddev shp g = (Ok k, g') /\
       has_shape k (Z.to_nat (fst shp)) (Z.to_nat (snd shp))) /\
  (forall (n : Z) (g : G), 0 <= n ->
     zeros n g = (Ok (repeat (float_lit 0 0) (Z.to_nat n)), g)).

(** Initializers whose kernels hold the same number everywhere, for
    examples. *)
Definition constant_initializers {F G : Type} `{Scalar F} (c : F) : Initializers F G :=
  {| glorot_normal shp :=
       if (fst shp <? 0) || (snd shp <? 0) then raise InvalidArgumentError
       else ret (repeat (repeat c (Z.to_nat (snd shp))) (Z.to_nat (fst shp)));
     random_normal _ shp :=
       if (fst shp <? 0) || (snd shp <? 0) then raise InvalidArgumentError
       else ret (repeat (repeat c (Z.to_nat (snd shp))) (Z.to_nat (fst shp)));
     zeros n :=
       if n <? 0 then raise InvalidArgumentError
       else ret (repeat (float_lit 0 0) (Z.to_nat n)) |}.

(** ** Training *)

(** The scalar operations of the diagnostics: [tf.sqrt] and the
    elementwise [==]. *)
Class ScalarMore (F : Type) : Type := {
  fsqrt : F -> F;
  feqb : F -> F -> bool
}.

(** [optimizer.apply_gradients], of TensorFlow: from the pairs it is
    given, the values of the three variables (kernel, latent bias, ambient
    bias) and its own state, the new values and its next state. *)
Class Optimizer (F O : Type) : Type := {
  apply_gradients :
    list (gradient F * variable) -> matrix F * vector F * vector F -> O ->
    (matrix F * vector F * vector F) * O
}.

Section Training.

Context {F : Type} `{Scalar F} `{ScalarMore F} `{FloatFormat F}.
Context {G : Type} `{Generator F G} {O : Type} `{Optimizer F O}.

(** What a run of [train] works on: the model and the generator, the
    optimizer, the [History] object and the standard output. *)
Record Session : Type := {
  world : World F G;
  optimizer : O;
  history : History.t F;
  stdout : list string
}.

Local Open Scope monad_scope.

Definition in_world {A} (c : M (World F G) A) : M Session A :=
  fun s =>
    let (r, w) := c (world s) in
    (r, {| world := w; optimizer := optimizer s;
           history := history s; stdout := stdout s |}).

Definition in_history {A} (c : M (History.t F) A) : M Session A :=
  fun s =>
    let (r, h) := c (history s) in
    (r, {| world := world s; optimizer := optimizer s;
           history := h; stdout := stdout s |}).

(** [print(line, end='\r', flush=True)]. *)
Definition print (line : string) : M Session unit :=
  modify (fun s =>
    {| world := world s; optimizer := optimizer s; history := history s;
       stdout := List.app (stdout s) [String.append line (String "013" EmptyString)] |}).

(** [optimizer.apply_gradients(grads_and_vars)] on the variables of the
    model. *)
Definition optimizer_apply (grads_and_vars : list (gradient F * variable))
    : M Session unit :=
  modify (fun s =>
    let m := rbm (world s) in
    let '(k, b, v, o) :=
      apply_gradients grads_and_vars
        (kernel m, latent_bias m, ambient_bias m) (optimizer s) in
    {| world := {| rbm := {| ambient_size := ambient_size m;
                             latent_size := latent_size m;
                             kernel := k; latent_bias := b; ambient_bias := v |};
                   gen := gen (world s) |};
       optimizer := o; history := history s; stdout := stdout s |}).

(** [tf.reduce_mean(x)], over all the elements. *)
Definition reduce_mean_all {T} `{Tensor F T} (x : T) : F :=
  fdiv (sum (tflat x)) (cast (Z.of_nat (length (tflat x)))).

(** [tf.nn.moments(x, axes)] over all the axes: the mean, and the mean of
    the squared differences to it. *)
Definition moments {T} `{Tensor F T} (x : T) : F * F :=
  let mean := reduce_mean_all x in
  let variance :=
    reduce_mean_all
      (tmap (fun e => fmul (fsub e mean) (fsub e mean)) x) in
  (mean, variance).

(** [stats], lines 261-264. *)
Definition stats {T} `{Tensor F T} (step : Z) (x : T) (name : string)
    : M Session unit :=
  let (mean, var) := moments x in
  let std := fsqrt var in
  in_history
    (History.log step name
       (History.PyStr
          (String.append (format_f 5 mean)
             (String.append " (" (String.append (format_f 5 std) ")"))))).

(** [log_and_show_internal_information], lines 251-274. *)
Definition log_and_show_internal_information (step : Z)
    (real_ambient fantasy_latent : matrix F) : M Session unit :=
  real_latent <- in_world (p <- prob_latent_given_ambient real_ambient ;;
                           activate p false) ;;
  recon_ambient <- in_world (p <- prob_ambient_given_latent real_latent ;;
                             activate p false) ;;
  energy <- in_world (get_energy real_ambient real_latent) ;;
  let mean_energy := reduce_mean_all (T := vector F) energy in
  let recon_error :=
    reduce_mean_all (T := matrix F)
      (map2 (map2 (fun a b => cast (if feqb a b then 1 else 0)))
         recon_ambient real_ambient) in
  let latent_on_ratio := reduce_mean_all (T := matrix F) real_latent in
  in_history (History.log step "mean energy" (History.PyTensor0 mean_energy)) ;;;
  in_history (History.log step "recon error" (History.PyTensor0 recon_error)) ;;;
  in_history (History.log step "latent-on ratio" (History.PyTensor0 latent_on_ratio)) ;;;
  k <- gets (fun s => kernel (rbm (world s))) ;;
  stats (T := matrix F) step k "kernel" ;;;
  v <- gets (fun s => ambient_bias (rbm (world s))) ;;
  stats (T := vector F) step v "ambientbias" ;;;
  b <- gets (fun s => latent_bias (rbm (world s))) ;;
  stats (T := vector F) step b "latent bias" ;;;
  line <- in_history (History.show step None) ;;
  print line.

(** [enumerate(dataset)]. *)
Definition enumerate {A} (xs : list A) : list (Z * A) :=
  combine (map Z.of_nat (seq 0 (length xs))) xs.

(** The body of the loop of [train], lines 240-246, on the variable
    [fantasy_latent]; [with_history] says that a [History] was given. *)
Definition train_body (mc_steps : Z) (with_history : bool)
    (item : Z * matrix F) (fantasy_latent : matrix F)
    : M Session (control (matrix F)) :=
  let (step, real_ambient) := item in
  grads_and_vars <- in_world (get_grads_and_vars real_ambient fantasy_latent) ;;
  optimizer_apply grads_and_vars ;;;
  fantasy_latent' <- in_world (contrastive_divergence fantasy_latent mc_steps) ;;
  (if with_history && (step mod 10 =? 0)
   then log_and_show_internal_information step real_ambient fantasy_latent'
   else ret tt) ;;;
  ret (Continue fantasy_latent').

(** [train], lines 233-248. *)
Definition train (dataset : list (matrix F)) (fantasy_latent : matrix F)
    (mc_steps : Z) (with_history : bool) : M Session (matrix F) :=
  for_in (enumerate dataset) (train_body mc_steps with_history) fantasy_latent.

End Training.

Arguments Session F G O : clear implicits.

(** ** Definitions used to state the properties of training *)

Section TrainingStatements.

Context {F : Type} `{Scalar F} `{ScalarMore F} `{FloatFormat F}.

(** The energies [get_energy] returns on the model [m]. *)
Definition energy_of (m : BernoulliRBM F) (x h : matrix F) : vector F :=
  tsub (tsub (tneg (reduce_sum_last (tmul (matmul x (kernel m)) h)))
             (reduce_mean_last (tmul h [latent_bias m])))
       (reduce_mean_last (tmul x [ambient_bias m])).

(** The text [stats] logs for a tensor: its mean and, in brackets, its
    standard deviation. *)
Definition moments_text {T} `{Tensor F T} (x : T) : string :=
  String.append (format_f 5 (fst (moments x)))
    (String.append " ("
       (String.append (format_f 5 (fsqrt (snd (moments x)))) ")")).

(** The fraction of the elements of [recon] that are equal to those of
    [real]. *)
Definition equal_fraction (recon real : matrix F) : F :=
  reduce_mean_all (T := matrix F)
    (map2 (map2 (fun a b => cast (if feqb a b then 1 else 0))) recon real).

(** The line of diagnostics of a batch on a step that had no entry. *)
Definition diagnostics_line (m : BernoulliRBM F) (step : Z)
    (real_ambient : matrix F) : string :=
  let real_latent := threshold (latent_prob_of m real_ambient) in
  let recon_ambient := threshold (ambient_prob_of m real_latent) in
  String.concat " - "
    [ String.append "step: " (History.str_of_int step);
      String.append "mean energy: "
        (format_f 5 (reduce_mean_all (T := vector F)
                       (energy_of m real_ambient real_latent)));
      String.append "recon error: "
        (format_f 5 (equal_fraction recon_ambient real_ambient));
      String.append "latent-on ratio: "
        (format_f 5 (reduce_mean_all (T := matrix F) real_latent));
      String.append "kernel: " (moments_text (kernel m));
      String.append "ambientbias: " (moments_text (ambient_bias m));
      String.append "latent bias: " (moments_text (latent_bias m)) ]%string.

(** A history all of whose values can be shown. *)
Definition clean_history (h : History.t F) : Prop :=
  forall step d k,
    History.lookup h step = Some d -> In k (map fst d) ->
    render (History.dict_get d k History.PyNone) <> None.

End TrainingStatements.

(** The steps of a data set of [n] batches at which [train] logs. *)
Definition logged_steps (n : nat) : list Z :=
  filter (fun step => step mod 10 =? 0) (map Z.of_nat (seq 0 n)).

(** The keys [log_and_show_internal_information] writes, in its order. *)
Definition diagnostics_keys : list string :=
  [ "mean energy"; "recon error"; "latent-on ratio";
    "kernel"; "ambientbias"; "latent bias" ]%string.

Section LoggedValues.

Context {F : Type} `{Scalar F} `{ScalarMore F} `{FloatFormat F}.

(** The six values [log_and_show_internal_information] stores under a
    step, as they are after [log] has taken the [numpy()] of the tensors. *)
Definition logged_values (m : BernoulliRBM F) (real_ambient : matrix F)
    : list (string * History.pyobj F) :=
  let real_latent := threshold (latent_prob_of m real_ambient) in
  let recon_ambient := threshold (ambient_prob_of m real_latent) in
  [ ("mean energy",
     History.PyFloat
       (reduce_mean_all (T := vector F) (energy_of m real_ambient real_latent)));
    ("recon error", History.PyFloat (equal_fraction recon_ambient real_ambient));
    ("latent-on ratio",
     History.PyFloat (reduce_mean_all (T := matrix F) real_latent));
    ("kernel", History.PyStr (moments_text (kernel m)));
    ("ambientbias", History.PyStr (moments_text (ambient_bias m)));
    ("latent bias", History.PyStr (moments_text (latent_bias m))) ]%string.

(** The dictionary of the step after they are stored in [d]. *)
Definition logged_dict (m : BernoulliRBM F) (real_ambient : matrix F)
    (d : History.dict F) : History.dict F :=
  fold_left (fun d kv => History.dict_set d (fst kv) (snd kv))
    (logged_values m real_ambient) d.

End LoggedValues.

(** A dictionary whose keys before [k0] can be shown and whose value at
    [k0] cannot. *)
Definition first_unsupported {F} `{FloatFormat F} (d : History.dict F)
    (before : list string) (k0 : string) : Prop :=
  (exists after, map fst d = List.app before (k0 :: after)) /\
  (forall k, In k before -> render (History.dict_get d k History.PyNone) <> None) /\
  render (History.dict_get d k0 History.PyNone) = None.

(** ** The diagnostics over the extended reals

    The remaining operations for the instance [xreal]: the square root,
    the equality of two numbers, the fixed-point format of a number (the
    decimal expansion of the nearest multiple of [10^-n], ties to even) and
    plain gradient descent, [tf.optimizers.SGD(learning_rate)], whose state
    is empty (a pair whose gradient has not the rank of its variable, which
    [get_grads_and_vars] never builds, is passed over). *)

Definition xsqrt (x : xreal) : xreal :=
  match x with
  | Fin r => if Rle_dec 0 r then Fin (sqrt r) else NaN
  | PInf => PInf
  | NInf | NaN => NaN
  end.

Definition xeqb (x y : xreal) : bool :=
  match x, y with
  | Fin a, Fin b => if Req_dec_T a b then true else false
  | PInf, PInf | NInf, NInf => true
  | _, _ => false
  end.

#[export] Instance xreal_more : ScalarMore xreal :=
  {| fsqrt := xsqrt; feqb := xeqb |}.

Definition xreal_format (n : nat) (x : xreal) : string :=
  match x with
  | NaN => "nan"%string
  | PInf => "inf"%string
  | NInf => "-inf"%string
  | Fin r =>
      let scale := 10 ^ Z.of_nat n in
      let a := (Rabs r * IZR scale)%R in
      let lo := Int_part a in
      let twice := (2 * frac_part a)%R in
      let q := if Rlt_dec twice 1 then lo
               else if Rlt_dec 1 twice then lo + 1
               else if Z.even lo then lo else lo + 1 in
      String.append (if Rlt_dec r 0 then "-"%string else EmptyString)
        (String.append (History.str_of_int (q / scale))
           (match n with
            | O => EmptyString
            | S _ => String.append "."%string (digits n (q mod scale))
            end))
  end.

#[export] Instance xreal_float_format : FloatFormat xreal :=
  {| format_f := xreal_format |}.

Definition sgd_update {F} `{Scalar F} (learning_rate : F)
    (vars : matrix F * vector F * vector F) (gv : gradient F * variable)
    : matrix F * vector F * vector F :=
  let '(k, b, v) := vars in
  let step_of x g := fsub x (fmul learning_rate g) in
  match gv with
  | (Rank2 g, var_kernel) => (map2 (map2 step_of) k g, b, v)
  | (Rank1 g, var_latent_bias) => (k, map2 step_of b g, v)
  | (Rank1 g, var_ambient_bias) => (k, b, map2 step_of v g)
  | _ => vars
  end.

Definition sgd {F} `{Scalar F} (learning_rate : F) : Optimizer F unit :=
  {| apply_gradients gvs vars o := (fold_left (sgd_update learning_rate) gvs vars, o) |}.

#[export] Instance sgd_tenth : Optimizer xreal unit := sgd (Fin (/ 10)).

(** A session on the model [m2] with an empty history. *)
Definition session2 : Session xreal nat unit :=
  {| world := w2; optimizer := tt; history := []; stdout := [] |}.

(** A session whose history holds an integer at step 0. *)
Definition session2_int : Session xreal nat unit :=
  {| world := w2; optimizer := tt;
     history := [ (0, [ ("epoch"%string, History.PyInt 1) ]) ];
     stdout := [] |}.
Lemma xleb_fin (a b : R) : (a <= b)%R -> xleb (Fin a) (Fin b) = true.
Proof. intros Hab. simpl. destruct (Rle_dec a b); [reflexivity | contradiction]. Qed.

Lemma xleb_fin_false (a b : R) : (b < a)%R -> xleb (Fin a) (Fin b) = false.
Proof. intros Hab. simpl. destruct (Rle_dec a b); [lra | reflexivity]. Qed.

Lemma xltb_fin (a b : R) : (a < b)%R -> xltb (Fin a) (Fin b) = true.
Proof. intros Hab. simpl. destruct (Rlt_dec a b); [reflexivity | contradiction]. Qed.

Lemma xltb_fin_false (a b : R) : (b <= a)%R -> xltb (Fin a) (Fin b) = false.
Proof. intros Hab. simpl. destruct (Rlt_dec a b); [lra | reflexivity]. Qed.

Lemma xhalf : @half xreal _ = Fin (/ 2).
Proof. unfold half. simpl. apply f_equal. lra. Qed.

Lemma xsigmoid_0 : xsigmoid (Fin 0) = Fin (/ 2).
Proof. simpl. rewrite Ropp_0, exp_0. apply f_equal. lra. Qed.

#[export] Instance xreal_laws : ScalarLaws xreal.
Proof.
  constructor.
  - simpl. intros E. injection E. lra.
  - rewrite xhalf. apply xleb_fin. lra.
  - rewrite xhalf. apply xleb_fin_false. lra.
  - simpl. apply f_equal. lra.
  - simpl. apply f_equal. lra.
  - simpl. rewrite Rabs_R0. reflexivity.
  - reflexivity.
  - simpl. apply f_equal. apply Rmax_left. lra.
  - intros [r| | |]; simpl; intros Ht; try reflexivity; discriminate.
Qed.

(** * Properties *)

(** ** Lists *)

Section ListFacts.

Context {A B C : Type}.

Lemma map2_length (f : A -> B -> C) (xs : list A) (ys : list B) :
  length xs = length ys -> length (map2 f xs ys) = length xs.
Proof.
  revert ys. induction xs as [|x xs IH]; intros [|y ys] E; simpl in *;
    try discriminate; auto.
Qed.

Lemma map2_nth (f : A -> B -> C) (xs : list A) (ys : list B) i da db dc :
  length xs = length ys -> (i < length xs)%nat ->
  nth i (map2 f xs ys) dc = f (nth i xs da) (nth i ys db).
Proof.
  revert ys i. induction xs as [|x xs IH]; intros [|y ys] i E Hi; simpl in *;
    try discriminate; try lia.
  destruct i as [|i]; [reflexivity|]. apply IH; lia.
Qed.

Lemma bcast2_same_length (f : A -> B -> C) (xs : list A) (ys : list B) :
  length xs = length ys -> bcast2 f xs ys = map2 f xs ys.
Proof.
  intros E. destruct xs as [|x [|x' xs]], ys as [|y [|y' ys]];
    simpl in *; try discriminate; reflexivity.
Qed.

Lemma bcast2_singleton_r (f : A -> B -> C) (xs : list A) (y : B) :
  bcast2 f xs [y] = map (fun x => f x y) xs.
Proof. destruct xs as [|x [|x' xs]]; reflexivity. Qed.

Lemma bcast2_singleton_l (f : A -> B -> C) (x : A) (ys : list B) :
  bcast2 f [x] ys = map (f x) ys.
Proof. reflexivity. Qed.

End ListFacts.

Lemma bcast2_diag {A C : Type} (f : A -> A -> C) (xs : list A) :
  bcast2 f xs xs = map (fun x => f x x) xs.
Proof.
  rewrite bcast2_same_length by reflexivity.
  induction xs as [|x xs IH]; simpl; [reflexivity | now rewrite IH].
Qed.

(** ** The range of a loop *)

Lemma tf_range_run {S : Type} (n : Z) (s : S) :
  0 <= n -> tf_range n s = (Ok (map Z.of_nat (seq 0 (Z.to_nat n))), s).
Proof.
  intros Hn. unfold tf_range.
  destruct (n <? 0) eqn:E; [apply Z.ltb_lt in E; lia | reflexivity].
Qed.

Lemma tf_range_negative {S : Type} (n : Z) (s : S) :
  n < 0 -> tf_range n s = (Raise InvalidArgumentError, s).
Proof.
  intros Hn. unfold tf_range.
  destruct (n <? 0) eqn:E; [reflexivity | apply Z.ltb_ge in E; lia].
Qed.

(** ** The relaxation procedure *)

Section RelaxFacts.

Context {F : Type} `{Scalar F} {G : Type} `{Generator F G}.

Lemma prob_latent_run (x : matrix F) (w : World F G) :
  prob_latent_given_ambient x w = (Ok (latent_prob_of (rbm w) x), w).
Proof. reflexivity. Qed.

Lemma prob_ambient_run (h : matrix F) (w : World F G) :
  prob_ambient_given_latent h w = (Ok (ambient_prob_of (rbm w) h), w).
Proof. reflexivity. Qed.

Lemma activate_false_run (p : matrix F) (w : World F G) :
  activate p false w = (Ok (threshold p), w).
Proof. reflexivity. Qed.

Lemma relax_body_run (tol : F) (s : Z) (st : matrix F * option Z) (w : World F G) :
  relax_body tol s st w =
  (Ok (if converged (rbm w) tol (fst st)
       then Break (fst st, Some s)
       else Continue (relax_round (rbm w) (fst st), Some s)), w).
Proof.
  unfold relax_body, bind.
  rewrite prob_latent_run, activate_false_run, prob_ambient_run, activate_false_run.
  unfold converged, relax_round.
  destruct (fltb _ tol); reflexivity.
Qed.

(** The loop stops at the first iteration whose change is below [tol]. *)
Lemma relax_loop_first (tol : F) (w : World F G) (k : nat) :
  forall (n s : nat) (a : matrix F) (o : option Z),
    (k < n)%nat ->
    (forall j, (j < k)%nat -> converged (rbm w) tol (iterate (rbm w) j a) = false) ->
    converged (rbm w) tol (iterate (rbm w) k a) = true ->
    for_in (map Z.of_nat (seq s n)) (relax_body tol) (a, o) w =
    (Ok (iterate (rbm w) k a, Some (Z.of_nat (s + k))), w).
Proof.
  induction k as [|k IH]; intros n s a o Hk Hbefore Hconv;
    (destruct n as [|n]; [lia|]); simpl; unfold bind;
    rewrite relax_body_run; cbn [fst].
  - cbn [iterate] in Hconv. rewrite Hconv. rewrite Nat.add_0_r. reflexivity.
  - pose proof (Hbefore 0%nat ltac:(lia)) as Hnow. cbn [iterate] in Hnow.
    rewrite Hnow.
    rewrite (IH n (S s) (relax_round (rbm w) a) (Some (Z.of_nat s))).
    + replace (S s + k)%nat with (s + S k)%nat by lia. reflexivity.
    + lia.
    + intros j Hj. apply (Hbefore (S j)). lia.
    + exact Hconv.
Qed.

(** Without convergence the loop runs over the whole range. *)
Lemma relax_loop_never (tol : F) (w : World F G) (n : nat) :
  forall (s : nat) (a : matrix F) (o : option Z),
    (forall j, (j < n)%nat -> converged (rbm w) tol (iterate (rbm w) j a) = false) ->
    for_in (map Z.of_nat (seq s n)) (relax_body tol) (a, o) w =
    (Ok (iterate (rbm w) n a,
         match n with O => o | S n' => Some (Z.of_nat (s + n')) end), w).
Proof.
  induction n as [|n IH]; intros s a o Hnever; simpl; [reflexivity|].
  unfold bind. rewrite relax_body_run. cbn [fst].
  pose proof (Hnever 0%nat ltac:(lia)) as Hnow. cbn [iterate] in Hnow.
  rewrite Hnow.
  rewrite IH.
  - destruct n as [|n]; cbn [iterate].
    + rewrite Nat.add_0_r. reflexivity.
    + replace (S s + n)%nat with (s + S n)%nat by lia. reflexivity.
  - intros j Hj. apply (Hnever (S j)). lia.
Qed.

(** Either some iteration below [n] is the first to converge, or none
    converges. *)
Lemma first_converged (m : BernoulliRBM F) (tol : F) (a : matrix F) (n : nat) :
  (exists k, (k < n)%nat /\
     (forall j, (j < k)%nat -> converged m tol (iterate m j a) = false) /\
     converged m tol (iterate m k a) = true) \/
  (forall j, (j < n)%nat -> converged m tol (iterate m j a) = false).
Proof.
  induction n as [|n [[k [Hk Hfirst]]|Hnever]].
  - right. intros j Hj. lia.
  - left. exists k. split; [lia | exact Hfirst].
  - destruct (converged m tol (iterate m n a)) eqn:E.
    + left. exists n. repeat split; [lia | exact Hnever | exact E].
    + right. intros j Hj. destruct (Nat.eq_dec j n) as [->|Hne]; [exact E|].
      apply Hnever. lia.
Qed.

Lemma relax_first (w : World F G) (ambient : matrix F) (max_iter : Z) (tol : F)
    (k : nat) :
  Z.of_nat k < max_iter ->
  (forall j, (j < k)%nat ->
     converged (rbm w) tol (iterate (rbm w) j ambient) = false) ->
  converged (rbm w) tol (iterate (rbm w) k ambient) = true ->
  relax ambient max_iter tol w = (Ok (iterate (rbm w) k ambient, Z.of_nat k), w).
Proof.
  intros Hk Hbefore Hconv. unfold relax. unfold bind at 1.
  rewrite tf_range_run by lia. unfold bind.
  rewrite (@relax_loop_first tol w k) by (try assumption; lia).
  reflexivity.
Qed.

Lemma relax_never (w : World F G) (ambient : matrix F) (max_iter : Z) (tol : F) :
  1 <= max_iter ->
  (forall j, Z.of_nat j < max_iter ->
     converged (rbm w) tol (iterate (rbm w) j ambient) = false) ->
  relax ambient max_iter tol w =
  (Ok (iterate (rbm w) (Z.to_nat max_iter) ambient, max_iter - 1), w).
Proof.
  intros Hpos Hnever. unfold relax. unfold bind at 1.
  rewrite tf_range_run by lia. unfold bind.
  rewrite relax_loop_never by (intros j Hj; apply Hnever; lia).
  destruct (Z.to_nat max_iter) as [|n] eqn:E; [lia|].
  cbn [snd fst Nat.add]. replace (Z.of_nat n) with (max_iter - 1) by lia.
  reflexivity.
Qed.

Lemma relax_unbound (w : World F G) (ambient : matrix F) (tol : F) :
  relax ambient 0 tol w = (Raise (UnboundLocalError "step"), w).
Proof. reflexivity. Qed.

Lemma relax_negative (w : World F G) (ambient : matrix F) (max_iter : Z) (tol : F) :
  max_iter < 0 ->
  relax ambient max_iter tol w = (Raise InvalidArgumentError, w).
Proof.
  intros Hneg. unfold relax. unfold bind at 1.
  now rewrite tf_range_negative by exact Hneg.
Qed.

Lemma relax_no_iteration (w : World F G) (ambient : matrix F) (max_iter : Z)
    (tol : F) :
  max_iter <= 0 -> exists e, relax ambient max_iter tol w = (Raise e, w).
Proof.
  intros Hle. destruct (Z.eq_dec max_iter 0) as [->|Hne].
  - eexists. apply relax_unbound.
  - eexists. apply relax_negative. lia.
Qed.

End RelaxFacts.

(** ** The deterministic activation *)

Section ThresholdFacts.

Context {F : Type} `{Scalar F}.

Lemma threshold_elementwise (p : matrix F) :
  threshold p = map (map (fun e => if fgeb e half then cast 1 else cast 0)) p.
Proof.
  unfold threshold, tf_cast, where_. rewrite !map_map.
  apply map_ext. intros r. rewrite !map_map.
  apply map_ext. intros e. destruct (fgeb e half); reflexivity.
Qed.

Lemma threshold_binary (p : matrix F) : Forall (Forall binary) (threshold p).
Proof.
  rewrite threshold_elementwise.
  apply Forall_map, Forall_forall. intros r _.
  apply Forall_map, Forall_forall. intros e _.
  destruct (fgeb e half); [right | left]; reflexivity.
Qed.

Lemma threshold_relates (p : matrix F) :
  cast 0 <> cast 1 ->
  Forall2 (Forall2 (fun pe ye => ye = cast 1 <-> fgeb pe half = true))
          p (threshold p).
Proof.
  intros Hneq. rewrite threshold_elementwise.
  induction p as [|r p IH]; simpl; constructor; [|exact IH].
  clear IH. induction r as [|e r IH]; simpl; constructor; [|exact IH].
  destruct (fgeb e half); split; intros E; try reflexivity; try discriminate.
  now apply Hneq in E.
Qed.

Lemma threshold_idempotent `{!ScalarLaws F} (p : matrix F) :
  threshold (threshold p) = threshold p.
Proof.
  rewrite !threshold_elementwise, map_map.
  apply map_ext. intros r. rewrite map_map.
  apply map_ext. intros e.
  destruct (fgeb e half); [rewrite one_ge_half | rewrite zero_ge_half]; reflexivity.
Qed.

(** A state of zeros and ones does not differ from itself. *)
Lemma change_of_binary `{!ScalarLaws F} (a : matrix F) :
  Forall (Forall binary) a ->
  Forall (fun e => e = cast 0) (tflat (tmap fabs (tsub a a))).
Proof.
  intros Hbin. unfold tsub. cbn [tbin tmap tflat list_tensor scalar_tensor].
  rewrite bcast2_diag, !map_map.
  apply Forall_concat, Forall_map.
  eapply Forall_impl; [|exact Hbin]. intros r Hr.
  rewrite bcast2_diag, !map_map.
  apply Forall_concat, Forall_map.
  eapply Forall_impl; [|exact Hr]. intros e [->| ->]; constructor; auto.
  - now rewrite sub_0_0, abs_0.
  - now rewrite sub_1_1, abs_0.
Qed.

Lemma max_of_zeros `{!ScalarLaws F} (l : list F) (acc : F) :
  Forall (fun e => e = cast 0) l ->
  acc = ninf \/ acc = cast 0 ->
  fold_left fmax l acc = ninf \/ fold_left fmax l acc = cast 0.
Proof.
  intros Hl. revert acc. induction Hl as [|e l -> _ IH]; intros acc Hacc; simpl.
  - exact Hacc.
  - apply IH. right. destruct Hacc as [->| ->]; [apply max_ninf_0 | apply max_0_0].
Qed.

(** A fixed point of the round passes the convergence test for every
    positive tolerance. *)
Lemma fixed_point_converged `{!ScalarLaws F} (m : BernoulliRBM F) (tol : F)
    (a : matrix F) :
  relax_round m a = a ->
  fltb (cast 0) tol = true ->
  converged m tol a = true.
Proof.
  intros Hfix Htol. unfold converged. rewrite Hfix.
  assert (Hbin : Forall (Forall binary) a).
  { rewrite <- Hfix. apply threshold_binary. }
  destruct (max_of_zeros (acc := ninf) (change_of_binary Hbin)) as [E|E];
    [left; reflexivity | |]; unfold reduce_max; rewrite E.
  - now apply lt_ninf.
  - exact Htol.
Qed.

Lemma iterate_fixed_point (m : BernoulliRBM F) (a : matrix F) (k : nat) :
  relax_round m a = a -> iterate m k a = a.
Proof.
  intros Hfix. induction k as [|k IH]; simpl; [reflexivity|].
  now rewrite Hfix.
Qed.

End ThresholdFacts.

(** ** Evaluation over the extended reals *)

Arguments xsigmoid : simpl never.
Arguments xgeb : simpl never.
Arguments xleb : simpl never.
Arguments xltb : simpl never.
Arguments IZR : simpl never.
Arguments half : simpl never.

Lemma exp_neg_le_1 (r : R) : (0 <= r)%R -> (exp (- r) <= 1)%R.
Proof.
  intros [Hr| <-].
  - left. rewrite <- exp_0. apply exp_increasing. lra.
  - rewrite Ropp_0, exp_0. lra.
Qed.

(** The sigmoid is at least one half exactly on the nonnegative reals. *)
Lemma xsigmoid_ge_half (r : R) :
  (0 <= r)%R -> xgeb (xsigmoid (Fin r)) half = true.
Proof.
  intros Hr. rewrite xhalf. unfold xgeb, xsigmoid. apply xleb_fin.
  pose proof (exp_neg_le_1 Hr). pose proof (exp_pos (- r)).
  apply Rinv_le_contravar; lra.
Qed.

Lemma xsigmoid_lt_half (r : R) :
  (r < 0)%R -> xgeb (xsigmoid (Fin r)) half = false.
Proof.
  intros Hr. rewrite xhalf. unfold xgeb, xsigmoid. apply xleb_fin_false.
  assert (1 < exp (- r))%R by (rewrite <- exp_0; apply exp_increasing; lra).
  apply Rinv_lt_contravar; [|lra].
  apply Rmult_lt_0_compat; lra.
Qed.

Ltac xeval :=
  unfold relax_round, converged, latent_prob_of, ambient_prob_of, threshold;
  cbn.

Lemma m0_round (r : R) : relax_round m0 [[Fin r]] = [[Fin 1]].
Proof.
  xeval. rewrite xsigmoid_ge_half; [reflexivity|]. lra.
Qed.

Lemma m0_not_converged_0 : converged m0 (Fin 0) [[Fin 0]] = false.
Proof.
  unfold converged. rewrite m0_round. cbn. apply xltb_fin_false. apply Rabs_pos.
Qed.

Lemma m0_not_converged_1 : converged m0 (Fin 0) [[Fin 1]] = false.
Proof.
  unfold converged. rewrite m0_round. cbn. apply xltb_fin_false. apply Rabs_pos.
Qed.

Lemma m0_iterate (k : nat) (r : R) : iterate m0 (S k) [[Fin r]] = [[Fin 1]].
Proof.
  revert r. induction k as [|k IH]; intros r.
  - cbn [iterate]. apply m0_round.
  - change (iterate m0 (S (S k)) [[Fin r]])
      with (iterate m0 (S k) (relax_round m0 [[Fin r]])).
    rewrite m0_round. apply IH.
Qed.

Lemma m0_never_converged (r : R) (j : nat) :
  (r = 0 \/ r = 1)%R -> converged m0 (Fin 0) (iterate m0 j [[Fin r]]) = false.
Proof.
  intros Hr. destruct j as [|j].
  - cbn [iterate]. destruct Hr as [-> | ->];
      [apply m0_not_converged_0 | apply m0_not_converged_1].
  - rewrite m0_iterate. apply m0_not_converged_1.
Qed.

(** ** Claims about [relax] and [activate] *)

Section RelaxClaims.

Context {F : Type} `{Scalar F} {G : Type} `{Generator F G}.



Context `{!ScalarLaws F}.


(** C4.  [activate(p, False)] does not depend on the state it is called
    in and leaves it as it is, so two calls give the same output; every
    element of the output is 0 or 1, and it is 1 exactly where the element
    of [p] is at least [0.5]; activating the output again gives the output. *)
Theorem activate_deterministic_idempotent (p : matrix F) (w : World F G) :
  exists y,
    activate p false w = (Ok y, w) /\
    (forall w' : World F G, activate p false w' = (Ok y, w')) /\
    Forall (Forall binary) y /\
    Forall2 (Forall2 (fun pe ye => ye = cast 1 <-> fgeb pe half = true)) p y /\
    activate y false w = (Ok y, w).
Proof.
  exists (threshold p). repeat split.
  - apply threshold_binary.
  - apply threshold_relates, cast_0_neq_1.
  - rewrite activate_false_run, threshold_idempotent. reflexivity.
Qed.

End RelaxClaims.






Lemma activate_deterministic_idempotent_witness :
  ScalarLaws xreal /\
  exists y,
    activate [[Fin (/ 2); Fin 0]] false w0 = (Ok y, w0) /\
    (forall w' : World xreal nat,
        activate [[Fin (/ 2); Fin 0]] false w' = (Ok y, w')) /\
    Forall (Forall binary) y /\
    Forall2 (Forall2 (fun pe ye => ye = cast 1 <-> fgeb pe half = true))
            [[Fin (/ 2); Fin 0]] y /\
    activate y false w0 = (Ok y, w0).
Proof.
  split; [exact xreal_laws|].
  exact (@activate_deterministic_idempotent _ _ _ _ _ [[Fin (/ 2); Fin 0]] w0).
Defined.

(** ** The stochastic functions *)

Section StochasticFacts.

Context {F : Type} `{Scalar F} {G : Type} `{Generator F G}.

Lemma draws_ok (n : nat) (w : World F G) :
  exists v w', draws n w = (Ok v, w') /\ rbm w' = rbm w /\ length v = n.
Proof.
  revert w. induction n as [|n IH]; intros w; simpl.
  - exists [], w. repeat split.
  - unfold bind, draw. destruct (uniform (gen w)) as [u g].
    destruct (IH {| rbm := rbm w; gen := g |}) as (v & w' & -> & Hrbm & Hlen).
    exists (u :: v), w'. simpl. repeat split; [exact Hrbm | now rewrite Hlen].
Qed.

Lemma draw_rows_ok (rows cols : nat) (w : World F G) :
  exists m w', draw_rows rows cols w = (Ok m, w') /\ rbm w' = rbm w /\
               has_shape m rows cols.
Proof.
  revert w. induction rows as [|rows IH]; intros w; simpl.
  - exists [], w. repeat split. constructor.
  - unfold bind. destruct (draws_ok cols w) as (v & w1 & -> & Hrbm1 & Hlen).
    destruct (IH w1) as (m & w2 & -> & Hrbm2 & Hrows & Hcols).
    exists (v :: m), w2. repeat split.
    + now rewrite Hrbm2.
    + simpl. now rewrite Hrows.
    + constructor; assumption.
Qed.

(** The shape of a tensor has no negative dimension. *)
Lemma random_of_nat (rows cols : nat) :
  random (G := G) (Z.of_nat rows, Z.of_nat cols) = draw_rows rows cols.
Proof.
  unfold random. cbn [fst snd].
  destruct (Z.of_nat rows <? 0) eqn:Er; [apply Z.ltb_lt in Er; lia|].
  destruct (Z.of_nat cols <? 0) eqn:Ec; [apply Z.ltb_lt in Ec; lia|].
  cbn [orb]. now rewrite !Nat2Z.id.
Qed.

Lemma random_tf_shape (p : matrix F) :
  random (G := G) (tf_shape p) = draw_rows (fst (shape p)) (snd (shape p)).
Proof. apply random_of_nat. Qed.

(** A stochastic activation returns the sample for the draws it makes and
    leaves the model as it is. *)
Lemma activate_true_ok (p : matrix F) (w : World F G) :
  exists r w', activate p true w = (Ok (sample r p), w') /\ rbm w' = rbm w /\
               has_shape r (fst (shape p)) (snd (shape p)).
Proof.
  unfold activate, bind. change (negb true) with false. cbv beta iota.
  rewrite random_tf_shape.
  destruct (draw_rows_ok (fst (shape p)) (snd (shape p)) w)
    as (r & w' & -> & Hrbm & Hshape).
  exists r, w'. repeat split; [exact Hrbm | apply Hshape | apply Hshape].
Qed.

Lemma gibbs_round_ok (latent : matrix F) (w : World F G) :
  exists latent' w', gibbs_round latent w = (Ok latent', w') /\ rbm w' = rbm w.
Proof.
  unfold gibbs_round, bind. rewrite prob_ambient_run.
  destruct (activate_true_ok (ambient_prob_of (rbm w) latent) w)
    as (r1 & w1 & -> & Hrbm1 & _).
  rewrite prob_latent_run.
  set (ambient := sample r1 (ambient_prob_of (rbm w) latent)).
  destruct (activate_true_ok (latent_prob_of (rbm w1) ambient) w1)
    as (r2 & w2 & -> & Hrbm2 & _).
  eexists _, w2. split; [reflexivity | now rewrite Hrbm2].
Qed.

Lemma gibbs_rounds_ok (n : nat) (latent : matrix F) (w : World F G) :
  exists latent' w', gibbs_rounds n latent w = (Ok latent', w') /\ rbm w' = rbm w.
Proof.
  revert latent w. induction n as [|n IH]; intros latent w; simpl.
  - exists latent, w. split; reflexivity.
  - unfold bind. destruct (gibbs_round_ok latent w) as (l1 & w1 & -> & Hrbm1).
    destruct (IH l1 w1) as (l2 & w2 & -> & Hrbm2).
    exists l2, w2. split; [reflexivity | now rewrite Hrbm2].
Qed.

(** The body of the loop is one round of block Gibbs sampling. *)
Lemma cd_body_run (s : Z) (latent : matrix F) (w : World F G) :
  cd_body s latent w = bind (gibbs_round latent) (fun l => ret (Continue l)) w.
Proof.
  unfold cd_body, gibbs_round, bind.
  destruct (prob_ambient_given_latent latent w) as [[p|e] w1]; [|reflexivity].
  destruct (activate p true w1) as [[a|e] w2]; [|reflexivity].
  destruct (prob_latent_given_ambient a w2) as [[q|e] w3]; [|reflexivity].
  destruct (activate q true w3) as [[l|e] w4]; reflexivity.
Qed.

Lemma cd_loop_run (steps : list Z) (latent : matrix F) (w : World F G) :
  for_in steps cd_body latent w = gibbs_rounds (length steps) latent w.
Proof.
  revert latent w. induction steps as [|s steps IH]; intros latent w; simpl.
  - reflexivity.
  - unfold bind at 1. rewrite cd_body_run. unfold bind.
    destruct (gibbs_round latent w) as [[l|e] w1]; [|reflexivity].
    unfold ret. apply IH.
Qed.

Lemma gibbs_rounds_last (n : nat) (latent : matrix F) (w : World F G) :
  gibbs_rounds (S n) latent w = bind (gibbs_rounds n latent) gibbs_round w.
Proof.
  revert latent w. induction n as [|n IH]; intros latent w.
  - simpl. unfold bind, ret.
    destruct (gibbs_round latent w) as [[l|e] w1]; reflexivity.
  - change (gibbs_rounds (S (S n)) latent w)
      with (bind (gibbs_round latent) (gibbs_rounds (S n)) w).
    change (gibbs_rounds (S n) latent)
      with (bind (gibbs_round latent) (gibbs_rounds n)).
    unfold bind.
    destruct (gibbs_round latent w) as [[l|e] w1]; [|reflexivity].
    rewrite IH. reflexivity.
Qed.

Lemma cd_run (latent : matrix F) (k : Z) (w : World F G) :
  0 <= k ->
  contrastive_divergence latent k w = gibbs_rounds (Z.to_nat k) latent w.
Proof.
  intros Hk. unfold contrastive_divergence. unfold bind at 1.
  rewrite tf_range_run by exact Hk.
  now rewrite cd_loop_run, length_map, length_seq.
Qed.

Lemma cd_negative (latent : matrix F) (k : Z) (w : World F G) :
  k < 0 -> contrastive_divergence latent k w = (Raise InvalidArgumentError, w).
Proof.
  intros Hk. unfold contrastive_divergence. unfold bind at 1.
  now rewrite tf_range_negative by exact Hk.
Qed.



End StochasticFacts.


(** ** Means along the batch axis, by index *)

Section MoreListFacts.

Context {A B C : Type}.

Lemma map2_map {A' B' : Type} (f : A' -> B' -> C) (g : A -> A') (h : B -> B')
    (xs : list A) (ys : list B) :
  map2 f (map g xs) (map h ys) = map2 (fun x y => f (g x) (h y)) xs ys.
Proof.
  revert ys. induction xs as [|x xs IH]; intros [|y ys]; simpl;
    try reflexivity. now rewrite IH.
Qed.

Lemma map2_ext_in (f g : A -> B -> C) (xs : list A) (ys : list B) :
  (forall x y, In x xs -> In y ys -> f x y = g x y) ->
  map2 f xs ys = map2 g xs ys.
Proof.
  revert ys. induction xs as [|x xs IH]; intros [|y ys] E; simpl;
    try reflexivity.
  rewrite E by (left; reflexivity). f_equal.
  apply IH. intros x' y' Hx Hy. apply E; right; assumption.
Qed.

Lemma map2_diag (f : A -> A -> C) (g h : B -> A) (xs : list B) :
  map2 f (map g xs) (map h xs) = map (fun x => f (g x) (h x)) xs.
Proof. induction xs as [|x xs IH]; simpl; [reflexivity | now rewrite IH]. Qed.

(** A list is the table of its elements. *)
Lemma map_seq_nth (f : A -> C) (xs : list A) (d : A) :
  map f xs = map (fun n => f (nth n xs d)) (seq 0 (length xs)).
Proof.
  induction xs as [|x xs IH]; simpl; [reflexivity|].
  f_equal. rewrite <- seq_shift, map_map. exact IH.
Qed.

Lemma map2_seq (f : A -> B -> C) (xs : list A) (ys : list B) (da : A) (db : B) :
  length xs = length ys ->
  map2 f xs ys = map (fun n => f (nth n xs da) (nth n ys db)) (seq 0 (length xs)).
Proof.
  revert ys. induction xs as [|x xs IH]; intros [|y ys] E; simpl in *;
    try discriminate; [reflexivity|].
  f_equal. rewrite <- seq_shift, map_map. apply IH. lia.
Qed.

Lemma nth_map_in (f : A -> C) (xs : list A) (i : nat) (d : A) (d' : C) :
  (i < length xs)%nat -> nth i (map f xs) d' = f (nth i xs d).
Proof.
  intros Hi. rewrite (nth_indep _ d' (f d)) by now rewrite length_map.
  apply map_nth.
Qed.

End MoreListFacts.

Section TensorFacts.

Context {F : Type} `{Scalar F} {T : Type} `{Tensor F T}.

Lemma fold_tadd_length (xs : list (list T)) (acc : list T) (m : nat) :
  length acc = m -> Forall (fun x => length x = m) xs ->
  length (fold_left tadd xs acc) = m.
Proof.
  intros Hacc Hxs. revert acc Hacc.
  induction Hxs as [|x xs Hx _ IH]; intros acc Hacc; simpl; [exact Hacc|].
  apply IH. unfold tadd. cbn [tbin list_tensor].
  rewrite bcast2_same_length, map2_length; congruence.
Qed.

Lemma fold_tadd_nth (xs : list (list T)) (acc : list T) (m i : nat) (d : T) :
  length acc = m -> Forall (fun x => length x = m) xs -> (i < m)%nat ->
  nth i (fold_left tadd xs acc) d =
  fold_left tadd (map (fun x => nth i x d) xs) (nth i acc d).
Proof.
  intros Hacc Hxs Hi. revert acc Hacc.
  induction Hxs as [|x xs Hx _ IH]; intros acc Hacc; simpl; [reflexivity|].
  rewrite IH.
  - f_equal. unfold tadd at 1. cbn [tbin list_tensor].
    rewrite bcast2_same_length by congruence.
    apply map2_nth; [congruence | lia].
  - unfold tadd. cbn [tbin list_tensor].
    rewrite bcast2_same_length, map2_length; congruence.
Qed.

Lemma expect_length (xs : list (list T)) (m : nat) :
  xs <> [] -> Forall (fun x => length x = m) xs -> length (expect xs) = m.
Proof.
  intros Hne Hxs. unfold expect, reduce_mean_0, reduce_sum_0.
  cbn [tmap list_tensor]. rewrite length_map.
  apply fold_tadd_length; [|exact Hxs].
  unfold zeros_like. cbn [tmap tnil list_tensor]. rewrite length_map.
  destruct xs as [|x xs]; [contradiction|]. now inversion Hxs.
Qed.

(** The mean along the first axis is taken position by position. *)
Lemma expect_nth (xs : list (list T)) (m i : nat) (d : T) :
  xs <> [] -> Forall (fun x => length x = m) xs -> (i < m)%nat ->
  nth i (expect xs) d = expect (map (fun x => nth i x d) xs).
Proof.
  intros Hne Hxs Hi. unfold expect, reduce_mean_0, reduce_sum_0.
  assert (Hhd : length (hd [] xs) = m).
  { destruct xs as [|x xs]; [contradiction|]. now inversion Hxs. }
  cbn [tmap list_tensor].
  rewrite (nth_map_in _ _ d) by (rewrite (@fold_tadd_length _ _ m); auto;
    unfold zeros_like; cbn [tmap tnil list_tensor]; now rewrite length_map).
  rewrite length_map. f_equal.
  rewrite (@fold_tadd_nth _ _ m) by
    (auto; unfold zeros_like; cbn [tmap tnil list_tensor]; now rewrite length_map).
  f_equal. unfold zeros_like. cbn [tmap tnil list_tensor].
  rewrite (nth_map_in _ _ d) by lia.
  destruct xs as [|x xs]; [contradiction | reflexivity].
Qed.

End TensorFacts.

(** ** Shapes *)

Section ShapeFacts.

Context {F : Type} `{Scalar F}.

Lemma Forall_map2 {A B C : Type} (P : C -> Prop) (f : A -> B -> C)
    (xs : list A) (ys : list B) :
  (forall x y, In x xs -> In y ys -> P (f x y)) -> Forall P (map2 f xs ys).
Proof.
  revert ys. induction xs as [|x xs IH]; intros [|y ys] E; simpl;
    try constructor.
  - apply E; left; reflexivity.
  - apply IH. intros x' y' Hx Hy. apply E; right; assumption.
Qed.

Lemma has_shape_row (x : matrix F) (N L n : nat) :
  has_shape x N L -> (n < N)%nat -> length (nth n x []) = L.
Proof.
  intros [Hlen Hrows] Hn. rewrite Forall_forall in Hrows.
  apply Hrows, nth_In. lia.
Qed.

Lemma shape_of (x : matrix F) (N L : nat) :
  has_shape x N L -> (0 < N)%nat -> shape x = (N, L).
Proof.
  intros Hx HN. unfold shape. f_equal; [apply Hx|].
  change (hd [] x) with (hd [] x). destruct x as [|r x].
  - destruct Hx as [Hlen _]. simpl in Hlen. lia.
  - destruct Hx as [_ Hrows]. now inversion Hrows.
Qed.

Lemma transpose_shape (w : matrix F) (A L : nat) :
  has_shape w A L -> (0 < A)%nat -> has_shape (transpose w) L A.
Proof.
  intros Hw HA. unfold transpose. rewrite (shape_of Hw HA). cbn [snd].
  split.
  - now rewrite length_map, length_seq.
  - apply Forall_map, Forall_forall. intros j _.
    unfold column. rewrite length_map. apply Hw.
Qed.

Lemma matmul_shape (x w : matrix F) (N A L : nat) :
  length x = N -> has_shape w A L -> (0 < A)%nat ->
  has_shape (matmul x w) N L.
Proof.
  intros Hx Hw HA. unfold matmul. split.
  - now rewrite length_map.
  - apply Forall_map, Forall_forall. intros r _.
    rewrite length_map. apply (transpose_shape Hw HA).
Qed.

Lemma add_bias_eq (x : matrix F) (b : vector F) (L : nat) :
  Forall (fun r => length r = L) x -> length b = L ->
  tadd x [b] = map (fun r => map2 fadd r b) x.
Proof.
  intros Hx Hb. unfold tadd. cbn [tbin list_tensor scalar_tensor].
  rewrite bcast2_singleton_r. apply map_ext_in. intros r Hr.
  rewrite Forall_forall in Hx.
  apply bcast2_same_length. rewrite (Hx r Hr). now symmetry.
Qed.

Lemma add_bias_shape (x : matrix F) (b : vector F) (N L : nat) :
  has_shape x N L -> length b = L -> has_shape (tadd x [b]) N L.
Proof.
  intros [Hlen Hrows] Hb. rewrite (@add_bias_eq x b L Hrows Hb). split.
  - now rewrite length_map.
  - apply Forall_map. eapply Forall_impl; [|exact Hrows].
    intros r Hr. cbv beta. rewrite map2_length; congruence.
Qed.

Lemma tmap_shape (f : F -> F) (x : matrix F) (N L : nat) :
  has_shape x N L -> has_shape (tmap f x) N L.
Proof.
  intros [Hlen Hrows]. cbn [tmap list_tensor scalar_tensor]. split.
  - now rewrite length_map.
  - apply Forall_map. eapply Forall_impl; [|exact Hrows].
    intros r Hr. cbv beta. now rewrite length_map.
Qed.

Lemma latent_prob_shape (m : BernoulliRBM F) (x : matrix F) (N A L : nat) :
  has_shape (kernel m) A L -> (0 < A)%nat -> length (latent_bias m) = L ->
  length x = N -> has_shape (latent_prob_of m x) N L.
Proof.
  intros Hw HA Hb Hx. unfold latent_prob_of.
  apply tmap_shape, add_bias_shape; [|exact Hb].
  now apply (@matmul_shape x (kernel m) N A L).
Qed.

Lemma ambient_prob_shape (m : BernoulliRBM F) (h : matrix F) (N A L : nat) :
  has_shape (kernel m) A L -> (0 < A)%nat -> (0 < L)%nat ->
  length (ambient_bias m) = A ->
  length h = N -> has_shape (ambient_prob_of m h) N A.
Proof.
  intros Hw HA HL Hv Hh. unfold ambient_prob_of.
  apply tmap_shape, add_bias_shape; [|exact Hv].
  apply (@matmul_shape h (transpose (kernel m)) N L A); [exact Hh| |exact HL].
  now apply transpose_shape.
Qed.

Lemma sample_shape (r p : matrix F) (N L : nat) :
  has_shape r N L -> has_shape p N L -> has_shape (sample r p) N L.
Proof.
  intros [Hr Hrrows] [Hp Hprows]. unfold sample, tf_cast, where_.
  rewrite map_map. split.
  - rewrite length_map, map2_length; [exact Hr | exact (eq_trans Hr (eq_sym Hp))].
  - apply Forall_map, Forall_map2. intros x y Hx Hy.
    rewrite !length_map.
    rewrite Forall_forall in Hrrows, Hprows.
    rewrite map2_length; [now apply Hrrows|].
    rewrite (Hrrows x Hx), (Hprows y Hy). reflexivity.
Qed.

End ShapeFacts.

(** ** The gradient estimator *)

Section GradientFacts.

Context {F : Type} `{Scalar F}.

Lemma expect_scalars (l : list F) : expect l = mean l.
Proof. reflexivity. Qed.

Lemma outer_eq (x y : matrix F) :
  length x = length y ->
  outer x y = map2 (fun r s => map (fun e => map (fmul e) s) r) x y.
Proof.
  intros Hlen. unfold outer, tmul, expand_dims_last, expand_dims_before_last.
  cbn [tbin list_tensor scalar_tensor].
  rewrite bcast2_same_length by now rewrite !length_map.
  rewrite map2_map. apply map2_ext_in. intros r s _ _.
  rewrite bcast2_singleton_r, map_map. reflexivity.
Qed.

Lemma outer_shape (x y : matrix F) (N A L : nat) :
  has_shape x N A -> has_shape y N L ->
  length (outer x y) = N /\ Forall (fun m => has_shape m A L) (outer x y).
Proof.
  intros [Hx Hxrows] [Hy Hyrows].
  rewrite outer_eq by exact (eq_trans Hx (eq_sym Hy)). split.
  - rewrite map2_length; [exact Hx | exact (eq_trans Hx (eq_sym Hy))].
  - apply Forall_map2. intros r s Hr Hs.
    rewrite Forall_forall in Hxrows, Hyrows. split.
    + rewrite length_map. now apply Hxrows.
    + apply Forall_map, Forall_forall. intros e _.
      rewrite length_map. now apply Hyrows.
Qed.

Lemma outer_entry (x y : matrix F) (N A L n i j : nat) :
  has_shape x N A -> has_shape y N L ->
  (n < N)%nat -> (i < A)%nat -> (j < L)%nat ->
  at2 (nth n (outer x y) []) i j = fmul (at2 x n i) (at2 y n j).
Proof.
  intros Hx Hy Hn Hi Hj.
  rewrite outer_eq by exact (eq_trans (proj1 Hx) (eq_sym (proj1 Hy))).
  unfold at2, at1.
  rewrite (@map2_nth _ _ _ _ x y n [] [] []);
    [|exact (eq_trans (proj1 Hx) (eq_sym (proj1 Hy)))
     |rewrite (proj1 Hx); exact Hn].
  rewrite (nth_map_in _ _ (cast 0)) by (rewrite (has_shape_row Hx Hn); exact Hi).
  rewrite (nth_map_in _ _ (cast 0)) by (rewrite (has_shape_row Hy Hn); exact Hj).
  reflexivity.
Qed.

(** The batch mean of the outer products, entry by entry. *)
Lemma expect_outer_entry (x y : matrix F) (N A L i j : nat) :
  has_shape x N A -> has_shape y N L ->
  (0 < N)%nat -> (i < A)%nat -> (j < L)%nat ->
  at2 (expect (outer x y)) i j =
  mean_over N (fun n => fmul (at2 x n i) (at2 y n j)).
Proof.
  intros Hx Hy HN Hi Hj.
  destruct (outer_shape Hx Hy) as [Hlen Hall].
  assert (Hne : outer x y <> []).
  { intros E. rewrite E in Hlen. simpl in Hlen. lia. }
  unfold at2, at1.
  rewrite (@expect_nth _ _ _ _ (outer x y) A i []);
    [|exact Hne | eapply Forall_impl; [|exact Hall]; intros m Hm; apply Hm | exact Hi].
  rewrite (@expect_nth _ _ _ _ _ L j (cast 0)); [| | |exact Hj].
  - rewrite expect_scalars, map_map. unfold mean_over. f_equal.
    rewrite (map_seq_nth _ (outer x y) []), Hlen.
    apply map_ext_in. intros n Hn. apply in_seq in Hn.
    apply (@outer_entry x y N A L n i j); auto; lia.
  - intros E. apply map_eq_nil in E. contradiction.
  - apply Forall_map. eapply Forall_impl; [|exact Hall].
    intros m [Hrows Hcols]. cbv beta.
    rewrite Forall_forall in Hcols. apply Hcols, nth_In. lia.
Qed.

(** The batch mean of a state, unit by unit. *)
Lemma expect_entry (x : matrix F) (N L j : nat) :
  has_shape x N L -> (0 < N)%nat -> (j < L)%nat ->
  at1 (expect x) j = mean_over N (fun n => at2 x n j).
Proof.
  intros [Hlen Hrows] HN Hj. unfold at1.
  rewrite (@expect_nth _ _ _ _ x L j (cast 0)); [| |exact Hrows|exact Hj].
  - rewrite expect_scalars. unfold mean_over. f_equal.
    rewrite (map_seq_nth _ x []), Hlen. reflexivity.
  - intros E. rewrite E in Hlen. simpl in Hlen. lia.
Qed.

Lemma expect_shape (x : matrix F) (N L : nat) :
  has_shape x N L -> (0 < N)%nat -> length (expect x) = L.
Proof.
  intros [Hlen Hrows] HN. apply expect_length; [|exact Hrows].
  intros E. rewrite E in Hlen. simpl in Hlen. lia.
Qed.

Lemma expect_outer_shape (x y : matrix F) (N A L : nat) :
  has_shape x N A -> has_shape y N L -> (0 < N)%nat ->
  has_shape (expect (outer x y)) A L.
Proof.
  intros Hx Hy HN. destruct (outer_shape Hx Hy) as [Hlen Hall].
  assert (Hne : outer x y <> []).
  { intros E. rewrite E in Hlen. simpl in Hlen. lia. }
  split.
  - apply expect_length; [exact Hne|].
    eapply Forall_impl; [|exact Hall]. intros m Hm. apply Hm.
  - apply Forall_forall. intros r Hr.
    destruct (In_nth _ _ [] Hr) as (i & Hi & <-).
    rewrite (@expect_length _ _ _ _ (outer x y) A) in Hi;
      [|exact Hne | eapply Forall_impl; [|exact Hall]; intros m Hm; apply Hm].
    rewrite (@expect_nth _ _ _ _ (outer x y) A i []);
      [|exact Hne | eapply Forall_impl; [|exact Hall]; intros m Hm; apply Hm | exact Hi].
    apply expect_length.
    + intros E. apply map_eq_nil in E. contradiction.
    + apply Forall_map. eapply Forall_impl; [|exact Hall].
      intros m [Hrows Hcols]. cbv beta.
      rewrite Forall_forall in Hcols. apply Hcols, nth_In. lia.
Qed.

Lemma tsub_vectors (a b : vector F) (L j : nat) :
  length a = L -> length b = L ->
  length (tsub a b) = L /\
  ((j < L)%nat -> at1 (tsub a b) j = fsub (at1 a j) (at1 b j)).
Proof.
  intros Ha Hb. unfold tsub. cbn [tbin list_tensor scalar_tensor].
  rewrite bcast2_same_length by congruence. split.
  - rewrite map2_length; congruence.
  - intros Hj. unfold at1. apply map2_nth; [congruence | lia].
Qed.

Lemma tsub_matrices (a b : matrix F) (A L i j : nat) :
  has_shape a A L -> has_shape b A L ->
  has_shape (tsub a b) A L /\
  ((i < A)%nat -> (j < L)%nat ->
   at2 (tsub a b) i j = fsub (at2 a i j) (at2 b i j)).
Proof.
  intros Ha Hb. unfold tsub. cbn [tbin list_tensor].
  rewrite bcast2_same_length by exact (eq_trans (proj1 Ha) (eq_sym (proj1 Hb))).
  split; [split|].
  - rewrite map2_length;
      [apply Ha | exact (eq_trans (proj1 Ha) (eq_sym (proj1 Hb)))].
  - apply Forall_map2. intros r s Hr Hs.
    destruct Ha as [_ Ha], Hb as [_ Hb]. rewrite Forall_forall in Ha, Hb.
    apply (@tsub_vectors r s L 0); auto.
  - intros Hi Hj. unfold at2.
    rewrite (@map2_nth _ _ _ _ a b i [] [] []);
      [|exact (eq_trans (proj1 Ha) (eq_sym (proj1 Hb)))
       |rewrite (proj1 Ha); exact Hi].
    apply (@tsub_vectors _ _ L j); [|  |exact Hj].
    + apply (has_shape_row Ha Hi).
    + apply (has_shape_row Hb Hi).
Qed.

End GradientFacts.

Section GradientClaim.

Context {F : Type} `{Scalar F} {G : Type} `{Generator F G}.

(** C2.  On a model with [A] ambient and [L] latent units and batches of
    [N] rows, [get_grads_and_vars] draws [real_latent] by a stochastic
    activation of the latent probabilities of [real_ambient], then
    [fantasy_ambient] by a stochastic activation of the ambient
    probabilities of [fantasy_latent], and returns exactly three pairs: the
    kernel with the batch mean of the outer products of
    [fantasy_ambient_prob] and [fantasy_latent] minus the batch mean of the
    outer products of [real_ambient] and [real_latent]; the latent bias
    with the mean of [fantasy_latent] minus the mean of [real_latent]; the
    ambient bias with the mean of [fantasy_ambient] minus the mean of
    [real_ambient]. *)
Theorem get_grads_and_vars_formulas (w : World F G)
    (real_ambient fantasy_latent : matrix F) (N A L : nat) :
  (0 < N)%nat -> (0 < A)%nat -> (0 < L)%nat ->
  has_shape (kernel (rbm w)) A L ->
  length (latent_bias (rbm w)) = L ->
  length (ambient_bias (rbm w)) = A ->
  has_shape real_ambient N A ->
  has_shape fantasy_latent N L ->
  let fantasy_ambient_prob := ambient_prob_of (rbm w) fantasy_latent in
  exists real_latent fantasy_ambient w1 w2
         grad_kernel grad_latent_bias grad_ambient_bias,
    activate (latent_prob_of (rbm w) real_ambient) true w = (Ok real_latent, w1) /\
    activate fantasy_ambient_prob true w1 = (Ok fantasy_ambient, w2) /\
    get_grads_and_vars real_ambient fantasy_latent w =
      (Ok [ (Rank2 grad_kernel, var_kernel);
            (Rank1 grad_latent_bias, var_latent_bias);
            (Rank1 grad_ambient_bias, var_ambient_bias) ], w2) /\
    has_shape grad_kernel A L /\
    length grad_latent_bias = L /\
    length grad_ambient_bias = A /\
    (forall i j, (i < A)%nat -> (j < L)%nat ->
       at2 grad_kernel i j =
       fsub (mean_over N (fun n =>
               fmul (at2 fantasy_ambient_prob n i) (at2 fantasy_latent n j)))
            (mean_over N (fun n =>
               fmul (at2 real_ambient n i) (at2 real_latent n j)))) /\
    (forall j, (j < L)%nat ->
       at1 grad_latent_bias j =
       fsub (mean_over N (fun n => at2 fantasy_latent n j))
            (mean_over N (fun n => at2 real_latent n j))) /\
    (forall i, (i < A)%nat ->
       at1 grad_ambient_bias i =
       fsub (mean_over N (fun n => at2 fantasy_ambient n i))
            (mean_over N (fun n => at2 real_ambient n i))).
Proof.
  intros HN HA HL Hw Hb Hv Hra Hfl fap.
  assert (Hlp : has_shape (latent_prob_of (rbm w) real_ambient) N L).
  { apply (@latent_prob_shape _ _ (rbm w) real_ambient N A L); auto. apply Hra. }
  assert (Hfap : has_shape fap N A).
  { apply (@ambient_prob_shape _ _ (rbm w) fantasy_latent N A L); auto. apply Hfl. }
  destruct (activate_true_ok (latent_prob_of (rbm w) real_ambient) w)
    as (r1 & w1 & E1 & Hrbm1 & Hr1).
  rewrite (shape_of Hlp HN) in Hr1. cbn [fst snd] in Hr1.
  destruct (activate_true_ok fap w1) as (r2 & w2 & E2 & Hrbm2 & Hr2).
  rewrite (shape_of Hfap HN) in Hr2. cbn [fst snd] in Hr2.
  pose proof (sample_shape Hr1 Hlp) as Hrl.
  pose proof (sample_shape Hr2 Hfap) as Hfa.
  set (rl := sample r1 (latent_prob_of (rbm w) real_ambient)) in *.
  set (fa := sample r2 fap) in *.
  exists rl, fa, w1, w2.
  exists (tsub (expect (outer fap fantasy_latent)) (expect (outer real_ambient rl))),
         (tsub (expect fantasy_latent) (expect rl)),
         (tsub (expect fa) (expect real_ambient)).
  split; [exact E1|]. split; [exact E2|]. split.
  { unfold get_grads_and_vars, bind.
    rewrite prob_latent_run, E1, prob_ambient_run, Hrbm1.
    fold fap. rewrite E2. reflexivity. }
  pose proof (expect_outer_shape Hfap Hfl HN) as Hneg.
  pose proof (expect_outer_shape Hra Hrl HN) as Hpos.
  split; [apply (@tsub_matrices _ _ _ _ A L 0 0 Hneg Hpos)|].
  split; [apply (@tsub_vectors _ _ _ _ L 0);
          [apply (expect_shape Hfl HN) | apply (expect_shape Hrl HN)]|].
  split; [apply (@tsub_vectors _ _ _ _ A 0);
          [apply (expect_shape Hfa HN) | apply (expect_shape Hra HN)]|].
  split; [|split].
  - intros i j Hi Hj.
    rewrite (proj2 (@tsub_matrices _ _ _ _ A L i j Hneg Hpos) Hi Hj).
    rewrite (@expect_outer_entry _ _ fap fantasy_latent N A L i j) by auto.
    rewrite (@expect_outer_entry _ _ real_ambient rl N A L i j) by auto.
    reflexivity.
  - intros j Hj.
    rewrite (proj2 (@tsub_vectors _ _ _ _ L j (expect_shape Hfl HN)
                      (expect_shape Hrl HN)) Hj).
    rewrite (@expect_entry _ _ fantasy_latent N L j) by auto.
    rewrite (@expect_entry _ _ rl N L j) by auto.
    reflexivity.
  - intros i Hi.
    rewrite (proj2 (@tsub_vectors _ _ _ _ A i (expect_shape Hfa HN)
                      (expect_shape Hra HN)) Hi).
    rewrite (@expect_entry _ _ fa N A i) by auto.
    rewrite (@expect_entry _ _ real_ambient N A i) by auto.
    reflexivity.
Qed.

End GradientClaim.

Lemma get_grads_and_vars_formulas_witness :
  (0 < 1)%nat /\
  has_shape (kernel (rbm w0)) 1 1 /\
  length (latent_bias (rbm w0)) = 1%nat /\
  length (ambient_bias (rbm w0)) = 1%nat /\
  has_shape [[Fin 1]] 1 1 /\
  exists grad_kernel grad_latent_bias grad_ambient_bias w2,
    get_grads_and_vars [[Fin 1]] [[Fin 1]] w0 =
      (Ok [ (Rank2 grad_kernel, var_kernel);
            (Rank1 grad_latent_bias, var_latent_bias);
            (Rank1 grad_ambient_bias, var_ambient_bias) ], w2) /\
    has_shape grad_kernel 1 1.
Proof.
  assert (Hone : has_shape [[Fin 1]] 1 1).
  { split; [reflexivity | repeat constructor]. }
  assert (Hker : has_shape (kernel (rbm w0)) 1 1).
  { split; [reflexivity | repeat constructor]. }
  repeat split; try reflexivity; try lia; try (repeat constructor; fail).
  destruct (@get_grads_and_vars_formulas _ _ _ _ w0 [[Fin 1]] [[Fin 1]] 1 1 1
              ltac:(lia) ltac:(lia) ltac:(lia) Hker eq_refl eq_refl Hone Hone)
    as (rl & fa & w1 & w2 & gk & glb & gab & _ & _ & Hrun & Hshape & _).
  exists gk, glb, gab, w2. split; [exact Hrun | exact Hshape].
Defined.

(** ** The energy *)

Section EnergyFacts.

Context {F : Type} `{Scalar F}.

Lemma bcast_rows_eq (f : F -> F -> F) (x : matrix F) (b : vector F) (L : nat) :
  Forall (fun r => length r = L) x -> length b = L ->
  bcast2 (bcast2 f) x [b] = map (fun r => map2 f r b) x.
Proof.
  intros Hx Hb. rewrite bcast2_singleton_r. apply map_ext_in. intros r Hr.
  rewrite Forall_forall in Hx.
  apply bcast2_same_length. rewrite (Hx r Hr). now symmetry.
Qed.

(** The entry of a matrix product. *)
Lemma matmul_entry (x w : matrix F) (N A L n j : nat) :
  has_shape x N A -> has_shape w A L -> (0 < A)%nat ->
  (n < N)%nat -> (j < L)%nat ->
  at2 (matmul x w) n j = sum_over A (fun i => fmul (at2 x n i) (at2 w i j)).
Proof.
  intros Hx Hw HA Hn Hj. unfold at2, at1, matmul.
  rewrite (nth_map_in _ _ []) by (rewrite (proj1 Hx); exact Hn).
  unfold transpose. rewrite (shape_of Hw HA). cbn [snd]. rewrite map_map.
  rewrite (nth_map_in _ _ 0%nat) by (rewrite length_seq; exact Hj).
  rewrite seq_nth by exact Hj. cbn [Nat.add].
  unfold dot, sum_over. f_equal.
  rewrite (map2_seq _ _ _ (cast 0) (cast 0)), (has_shape_row Hx Hn).
  - apply map_ext_in. intros i Hi. apply in_seq in Hi. f_equal.
    unfold column.
    rewrite (@nth_map_in _ _ (fun r : list F => nth j r (cast 0)) w i [] (cast 0))
      by (rewrite (proj1 Hw); lia).
    reflexivity.
  - unfold column. rewrite length_map, (has_shape_row Hx Hn). symmetry. apply Hw.
Qed.

(** The row sums of [(x @ w) * h]. *)
Lemma interaction_entry (x h w : matrix F) (N A L n : nat) :
  has_shape x N A -> has_shape h N L -> has_shape w A L -> (0 < A)%nat ->
  (n < N)%nat ->
  at1 (reduce_sum_last (tmul (matmul x w) h)) n =
  sum_over L (fun j =>
    fmul (sum_over A (fun i => fmul (at2 x n i) (at2 w i j))) (at2 h n j)).
Proof.
  intros Hx Hh Hw HA Hn.
  pose proof (@matmul_shape _ _ x w N A L (proj1 Hx) Hw HA) as Hxw.
  unfold at1, reduce_sum_last, tmul. cbn [tbin list_tensor scalar_tensor].
  rewrite bcast2_same_length by exact (eq_trans (proj1 Hxw) (eq_sym (proj1 Hh))).
  rewrite (nth_map_in _ _ [])
    by (rewrite map2_length;
        [rewrite (proj1 Hxw); exact Hn
        |exact (eq_trans (proj1 Hxw) (eq_sym (proj1 Hh)))]).
  rewrite (@map2_nth _ _ _ _ (matmul x w) h n [] [] []);
    [|exact (eq_trans (proj1 Hxw) (eq_sym (proj1 Hh)))
     |rewrite (proj1 Hxw); exact Hn].
  rewrite bcast2_same_length
    by (rewrite (has_shape_row Hxw Hn), (has_shape_row Hh Hn); reflexivity).
  unfold sum_over. f_equal.
  rewrite (map2_seq _ _ _ (cast 0) (cast 0)), (has_shape_row Hxw Hn)
    by (rewrite (has_shape_row Hxw Hn), (has_shape_row Hh Hn); reflexivity).
  apply map_ext_in. intros j Hj. apply in_seq in Hj. f_equal.
  apply (@matmul_entry x w N A L n j); auto. lia.
Qed.

(** The row means of a state times a bias. *)
Lemma bias_mean_entry (h : matrix F) (b : vector F) (N L n : nat) :
  has_shape h N L -> length b = L -> (n < N)%nat ->
  at1 (reduce_mean_last (tmul h [b])) n =
  mean_over L (fun j => fmul (at2 h n j) (at1 b j)).
Proof.
  intros Hh Hb Hn. unfold at1 at 1, reduce_mean_last, tmul.
  cbn [tbin list_tensor scalar_tensor].
  rewrite (@bcast_rows_eq fmul h b L (proj2 Hh) Hb), map_map.
  rewrite (nth_map_in _ _ []) by (rewrite (proj1 Hh); exact Hn).
  unfold mean_over, mean.
  rewrite (map2_seq _ _ _ (cast 0) (cast 0)), (has_shape_row Hh Hn)
    by (rewrite (has_shape_row Hh Hn); now symmetry).
  reflexivity.
Qed.

Lemma tneg_entry (v : vector F) (n : nat) :
  (n < length v)%nat -> at1 (tneg v) n = fneg (at1 v n).
Proof.
  intros Hn. unfold at1, tneg. cbn [tmap list_tensor scalar_tensor].
  now apply nth_map_in.
Qed.

End EnergyFacts.

Arguments xdiv : simpl never.

Lemma xdiv_fin (a b : R) : b <> 0%R -> xdiv (Fin a) (Fin b) = Fin (a / b).
Proof.
  intros Hb. unfold xdiv. destruct (Req_dec_T b 0); [contradiction | reflexivity].
Qed.

Lemma m2_energy :
  get_energy [[Fin 1; Fin 0]] [[Fin 0; Fin 1]] w2 = (Ok [Fin (-3)], w2).
Proof.
  unfold get_energy, bind, gets, ret. cbn.
  rewrite !xdiv_fin by lra. cbn.
  apply (f_equal (fun r => (Ok [Fin r], w2))). lra.
Qed.

Lemma m2_textbook_energy :
  textbook_energy_row m2 2 2 [Fin 1; Fin 0] [Fin 0; Fin 1] = Fin (-4).
Proof.
  unfold textbook_energy_row, sum_over, at2, at1. cbn.
  apply f_equal. lra.
Qed.

(** C3.  On a model with [A] ambient and [L] latent units, [get_energy]
    returns for the row [n] of the batch: minus the sum over the latent
    units [j] of [(ambient @ kernel)[n][j] * latent[n][j]], minus the mean
    over [j] of [latent[n][j] * latent_bias[j]], minus the mean over the
    ambient units [i] of [ambient[n][i] * ambient_bias[i]].  It is not the
    energy with summed bias terms: on the model [m2] the two differ. *)
Theorem get_energy_formula :
  (forall (F : Type) (HS : Scalar F) (G : Type) (HG : Generator F G)
          (w : World F G) (ambient latent : matrix F) (N A L : nat),
      (0 < A)%nat -> (0 < L)%nat ->
      has_shape (kernel (rbm w)) A L ->
      length (latent_bias (rbm w)) = L ->
      length (ambient_bias (rbm w)) = A ->
      has_shape ambient N A ->
      has_shape latent N L ->
      exists energy,
        get_energy ambient latent w = (Ok energy, w) /\
        length energy = N /\
        forall n, (n < N)%nat ->
          at1 energy n =
          energy_row (rbm w) A L (nth n ambient []) (nth n latent [])) /\
  (get_energy [[Fin 1; Fin 0]] [[Fin 0; Fin 1]] w2 = (Ok [Fin (-3)], w2) /\
   textbook_energy_row m2 2 2 [Fin 1; Fin 0] [Fin 0; Fin 1] = Fin (-4) /\
   Fin (-3) <> Fin (-4)).
Proof.
  split.
  - intros F HS G HG w x h N A L HA HL Hw Hb Hv Hx Hh.
    eexists. split; [reflexivity|].
    set (s := reduce_sum_last (tmul (matmul x (kernel (rbm w))) h)).
    set (mh := reduce_mean_last (tmul h [latent_bias (rbm w)])).
    set (mx := reduce_mean_last (tmul x [ambient_bias (rbm w)])).
    assert (Hs : length (tneg s) = N).
    { pose proof (@matmul_shape _ _ x (kernel (rbm w)) N A L (proj1 Hx) Hw HA)
        as Hxw.
      unfold tneg, s, reduce_sum_last, tmul.
      cbn [tmap tbin list_tensor scalar_tensor].
      rewrite !length_map.
      rewrite bcast2_same_length
        by exact (eq_trans (proj1 Hxw) (eq_sym (proj1 Hh))).
      rewrite map2_length
        by exact (eq_trans (proj1 Hxw) (eq_sym (proj1 Hh))).
      apply Hxw. }
    assert (Hmh : length mh = N).
    { unfold mh, reduce_mean_last, tmul. cbn [tbin list_tensor scalar_tensor].
      rewrite (@bcast_rows_eq _ fmul h _ L (proj2 Hh) Hb), !length_map.
      apply Hh. }
    assert (Hmx : length mx = N).
    { unfold mx, reduce_mean_last, tmul. cbn [tbin list_tensor scalar_tensor].
      rewrite (@bcast_rows_eq _ fmul x _ A (proj2 Hx) Hv), !length_map.
      apply Hx. }
    destruct (@tsub_vectors _ _ (tneg s) mh N 0 Hs Hmh) as [Hsub _].
    split; [apply (@tsub_vectors _ _ _ mx N 0 Hsub Hmx)|].
    intros n Hn.
    rewrite (proj2 (@tsub_vectors _ _ _ mx N n Hsub Hmx) Hn).
    rewrite (proj2 (@tsub_vectors _ _ (tneg s) mh N n Hs Hmh) Hn).
    rewrite tneg_entry by (unfold tneg in Hs; cbn [tmap list_tensor] in Hs;
                           rewrite length_map in Hs; rewrite Hs; exact Hn).
    unfold s, mh, mx.
    rewrite (@interaction_entry _ _ x h (kernel (rbm w)) N A L n) by auto.
    rewrite (@bias_mean_entry _ _ h _ N L n) by auto.
    rewrite (@bias_mean_entry _ _ x _ N A n) by auto.
    reflexivity.
  - split; [exact m2_energy | split; [exact m2_textbook_energy|]].
    intros E. injection E. lra.
Qed.

Lemma get_energy_formula_witness :
  (0 < 2)%nat /\
  has_shape (kernel (rbm w2)) 2 2 /\
  length (latent_bias (rbm w2)) = 2%nat /\
  length (ambient_bias (rbm w2)) = 2%nat /\
  has_shape [[Fin 1; Fin 0]] 1 2 /\
  has_shape [[Fin 0; Fin 1]] 1 2 /\
  exists energy,
    get_energy [[Fin 1; Fin 0]] [[Fin 0; Fin 1]] w2 = (Ok energy, w2) /\
    at1 energy 0 = energy_row m2 2 2 [Fin 1; Fin 0] [Fin 0; Fin 1].
Proof.
  assert (Hker : has_shape (kernel (rbm w2)) 2 2).
  { split; [reflexivity | repeat constructor]. }
  assert (Hx : has_shape [[Fin 1; Fin 0]] 1 2).
  { split; [reflexivity | repeat constructor]. }
  assert (Hh : has_shape [[Fin 0; Fin 1]] 1 2).
  { split; [reflexivity | repeat constructor]. }
  split; [lia|]. split; [exact Hker|]. split; [reflexivity|].
  split; [reflexivity|]. split; [exact Hx|]. split; [exact Hh|].
  destruct (proj1 get_energy_formula xreal _ nat _ w2 _ _ 1%nat 2%nat 2%nat
              ltac:(lia) ltac:(lia) Hker eq_refl eq_refl Hx Hh)
    as (e & Hrun & _ & Hrow).
  exists e. split; [exact Hrun|]. apply (Hrow 0%nat). lia.
Defined.

(** ** The initializers of the ambient bias *)

Section InitializerFacts.

Context {F : Type} `{Scalar F}.

Lemma hinton_ambient_bias_eq (samples : matrix F) (eps : F) :
  HintonInitializer.ambient_bias (HintonInitializer.new samples (Some eps)) =
  map (fun p =>
         to_dtype (fsub (flog (fadd p eps)) (flog (fadd (fsub (cast 1) p) eps))))
      (expect samples).
Proof.
  unfold HintonInitializer.ambient_bias, HintonInitializer.new, cast_dtype.
  cbn [HintonInitializer.samples HintonInitializer.eps].
  unfold tsub, tadd. cbn [tmap tbin list_tensor scalar_tensor].
  rewrite !bcast2_singleton_r, bcast2_singleton_l, !map_map.
  rewrite bcast2_same_length by now rewrite !length_map.
  rewrite map2_diag. now rewrite map_map.
Qed.

Lemma glorot_ambient_bias_eq (samples : matrix F) (eps : F) :
  GlorotInitializer.ambient_bias (GlorotInitializer.new samples (Some eps)) =
  map (fun p => to_dtype (fdiv (cast 1) (fadd p eps))) (expect samples).
Proof.
  unfold GlorotInitializer.ambient_bias, GlorotInitializer.new, cast_dtype.
  cbn [GlorotInitializer.samples GlorotInitializer.eps].
  unfold tdiv, tadd. cbn [tmap tbin list_tensor scalar_tensor].
  rewrite bcast2_singleton_r, bcast2_singleton_l, !map_map.
  reflexivity.
Qed.

End InitializerFacts.

Arguments xlog : simpl never.
Arguments xdiv : simpl never.
Arguments to_single : simpl never.

Lemma xlog_fin (r : R) : (0 < r)%R -> xlog (Fin r) = Fin (ln r).
Proof.
  intros Hr. unfold xlog. destruct (Rlt_dec 0 r); [reflexivity | contradiction].
Qed.

(** Without the floor the logit of [p = 0] is an infinity. *)
Lemma xlog_zero : xlog (Fin 0) = NInf.
Proof.
  unfold xlog. destruct (Rlt_dec 0 0) as [Hlt|_]; [lra|].
  destruct (Rlt_dec 0 0) as [Hlt|_]; [lra | reflexivity].
Qed.

(** *** The range of single precision *)

Local Open Scope R_scope.

Ltac big_constants :=
  unfold single_tiny, single_normal, single_huge in *;
  repeat match goal with
  | |- context [IZR (?a ^ ?b)] =>
      let z := eval vm_compute in (a ^ b)%Z in change (a ^ b)%Z with z
  | |- context [IZR (?a ^ ?b - ?c ^ ?d)] =>
      let z := eval vm_compute in (a ^ b - c ^ d)%Z in
      change (a ^ b - c ^ d)%Z with z
  end.

Section SinglePrecision.

(** In this section the arithmetic of [xreal] is that of [single_scalar]. *)
#[local] Existing Instance single_scalar.

Lemma single_constants :
  0 < single_tiny /\ single_tiny < single_normal /\ single_normal < / 2 /\
  2 <= / single_normal /\ 2 * / single_normal < single_huge.
Proof.
  unfold single_normal. rewrite Rinv_inv. big_constants. lra.
Qed.

Lemma to_single_keep (r : R) :
  single_tiny < Rabs r < single_huge -> to_single (Fin r) = Fin r.
Proof.
  intros [Hlo Hhi]. unfold to_single.
  destruct (Rle_dec (Rabs r) single_tiny) as [H|_]; [lra|].
  destruct (Rle_dec single_huge (Rabs r)) as [H|_]; [lra|]. reflexivity.
Qed.

Lemma to_single_zero (r : R) :
  Rabs r <= single_tiny -> to_single (Fin r) = Fin 0.
Proof.
  intros H. unfold to_single.
  destruct (Rle_dec (Rabs r) single_tiny) as [_|N]; [reflexivity | contradiction].
Qed.

Lemma to_single_0 (r : R) : r = 0 -> to_single (Fin r) = Fin 0.
Proof.
  intros ->. apply to_single_zero. rewrite Rabs_R0.
  destruct single_constants as (Ht & _). lra.
Qed.

Lemma to_single_1 (r : R) : r = 1 -> to_single (Fin r) = Fin 1.
Proof.
  intros ->. destruct single_constants as (Ht & Hn & H1 & Hone & Hh).
  apply to_single_keep. rewrite Rabs_R1. lra.
Qed.

(** What [to_single] does to a number below the largest. *)
Lemma to_single_cases (r : R) :
  Rabs r < single_huge ->
  exists r',
    to_single (Fin r) = Fin r' /\
    ((r' = r /\ (r < - single_tiny \/ single_tiny < r)) \/
     (r' = 0 /\ - single_tiny <= r <= single_tiny)).
Proof.
  intros Hhi. unfold to_single.
  destruct (Rle_dec (Rabs r) single_tiny) as [Hle|Hgt].
  - exists 0. split; [reflexivity|]. right. split; [reflexivity|].
    unfold Rabs in Hle. destruct (Rcase_abs r); lra.
  - destruct (Rle_dec single_huge (Rabs r)) as [H|_]; [lra|].
    exists r. split; [reflexivity|]. left. split; [reflexivity|].
    apply Rnot_le_lt in Hgt. unfold Rabs in Hgt.
    destruct (Rcase_abs r); [left; lra | right; lra].
Qed.

Lemma abs_below (r b : R) : - b < r < b -> Rabs r < b.
Proof. intros [Hlo Hhi]. apply Rabs_def1; lra. Qed.

Lemma ln_below (x : R) : 0 < x -> ln x < x.
Proof.
  intros Hx. rewrite <- (ln_exp x) at 2. apply ln_increasing; [exact Hx|].
  assert (Hne : x <> 0) by lra. pose proof (exp_ineq1 x Hne). lra.
Qed.

Lemma ln_bound (x b : R) : 0 < / b <= x -> x <= b -> Rabs (ln x) < b.
Proof.
  intros [Hb Hlo] Hhi.
  assert (Hx : 0 < x) by lra.
  assert (Hbpos : 0 < b)
    by (apply Rinv_0_lt_compat in Hb; now rewrite Rinv_inv in Hb).
  apply Rabs_def1.
  - pose proof (@ln_below _ Hx). lra.
  - assert (Hinv : 0 < / x) by now apply Rinv_0_lt_compat.
    pose proof (@ln_below _ Hinv) as Hl. rewrite ln_Rinv in Hl by exact Hx.
    assert (/ x <= b).
    { rewrite <- (Rinv_inv b). apply Rinv_le_contravar; assumption. }
    lra.
Qed.

Lemma ln_monotone (x y : R) : 0 < x -> x <= y -> ln x <= ln y.
Proof.
  intros Hx [Hlt| ->]; [left; now apply ln_increasing | right; reflexivity].
Qed.

Section SingleInitializers.

Variables (p e : R).
Hypothesis Hp : 0 <= p <= 1.
Hypothesis He : single_normal <= e <= 1.

(** A number of the normal range, at most 1, is kept as it is. *)
Lemma single_eps : to_single (Fin e) = Fin e.
Proof.
  destruct single_constants as (Ht & Hn & H1 & Hone & Hh).
  apply to_single_keep. rewrite Rabs_pos_eq by lra. lra.
Qed.

(** The entry of the Hinton bias at the mean [p]. *)
Lemma single_hinton_entry :
  exists b : R,
    to_dtype (Scalar := single_scalar)
      (fsub (Scalar := single_scalar)
         (flog (Scalar := single_scalar)
            (fadd (Scalar := single_scalar) (Fin p) (Fin e)))
         (flog (Scalar := single_scalar)
            (fadd (Scalar := single_scalar)
               (fsub (Scalar := single_scalar)
                  (cast (Scalar := single_scalar) 1) (Fin p))
               (Fin e)))) = Fin b /\
    (/ 2 <= p -> 0 <= b) /\ (p <= / 2 -> b <= 0).
Proof.
  destruct single_constants as (Ht & Hn & H1 & Hone & Hh).
  cbn [to_dtype fsub flog fadd cast single_scalar].
  unfold xsub.
  rewrite (@to_single_keep (1)) by (rewrite Rabs_pos_eq by lra; lra).
  cbn [xadd xneg].
  rewrite (@to_single_keep (p + e)) by (rewrite Rabs_pos_eq by lra; lra).
  rewrite (@xlog_fin (p + e)) by lra.
  assert (Hl1 : Rabs (ln (p + e)) < / single_normal).
  { apply ln_bound; rewrite ?Rinv_inv; lra. }
  destruct (@to_single_cases (ln (p + e)) ltac:(lra)) as (l1 & -> & Hc1).
  destruct (@to_single_cases (1 + - p) ltac:(apply abs_below; lra))
    as (q & -> & Hq).
  cbn [xadd].
  assert (Hq01 : 0 <= q <= 1 - p) by (destruct Hq as [[-> _]|[-> _]]; lra).
  rewrite (@to_single_keep (q + e)) by (rewrite Rabs_pos_eq by lra; lra).
  rewrite (@xlog_fin (q + e)) by lra.
  assert (Hl2 : Rabs (ln (q + e)) < / single_normal).
  { apply ln_bound; rewrite ?Rinv_inv; lra. }
  destruct (@to_single_cases (ln (q + e)) ltac:(lra)) as (l2 & -> & Hc2).
  cbn [xadd xneg].
  apply Rabs_def2 in Hl1, Hl2.
  assert (Hd : Rabs (l1 + - l2) < single_huge).
  { apply abs_below.
    destruct Hc1 as [[-> _]|[-> _]], Hc2 as [[-> _]|[-> _]]; lra. }
  destruct (@to_single_cases _ Hd) as (d & -> & Hcd).
  assert (Hd' : Rabs d < single_huge).
  { apply Rabs_def2 in Hd. apply abs_below.
    destruct Hcd as [[-> _]|[-> _]]; lra. }
  destruct (@to_single_cases _ Hd') as (b & -> & Hcb).
  exists b. split; [reflexivity|]. split.
  - intros Hhalf.
    assert (Hq' : q <= p) by lra.
    assert (Hln : ln (q + e) <= ln (p + e)) by (apply ln_monotone; lra).
    assert (0 <= l1 + - l2).
    { destruct Hc1 as [[-> [?|?]]|[-> ?]], Hc2 as [[-> [?|?]]|[-> ?]]; lra. }
    assert (0 <= d) by (destruct Hcd as [[-> _]|[-> _]]; lra).
    destruct Hcb as [[-> _]|[-> _]]; lra.
  - intros Hhalf.
    assert (Hq' : q = 1 - p) by (destruct Hq as [[-> _]|[-> ?]]; lra).
    assert (Hln : ln (p + e) <= ln (q + e)) by (apply ln_monotone; lra).
    assert (l1 + - l2 <= 0).
    { destruct Hc1 as [[-> [?|?]]|[-> ?]], Hc2 as [[-> [?|?]]|[-> ?]]; lra. }
    assert (d <= 0) by (destruct Hcd as [[-> _]|[-> _]]; lra).
    destruct Hcb as [[-> _]|[-> _]]; lra.
Qed.

(** The entry of the Glorot bias at the mean [p]. *)
Lemma single_glorot_entry :
  to_dtype (Scalar := single_scalar)
    (fdiv (Scalar := single_scalar) (cast (Scalar := single_scalar) 1)
       (fadd (Scalar := single_scalar) (Fin p) (Fin e))) = Fin (1 / (p + e)) /\
  / (1 + e) <= 1 / (p + e) <= / e.
Proof.
  destruct single_constants as (Ht & Hn & H1 & Hone & Hh).
  assert (Hbounds : / (1 + e) <= 1 / (p + e) <= / e).
  { replace (1 / (p + e)) with (/ (p + e)) by (field; lra).
    split; apply Rinv_le_contravar; lra. }
  assert (Hlow : / 2 <= / (1 + e)) by (apply Rinv_le_contravar; lra).
  assert (Hhigh : / e <= / single_normal) by (apply Rinv_le_contravar; lra).
  split; [|exact Hbounds].
  cbn [to_dtype fdiv fadd cast single_scalar xadd].
  rewrite (@to_single_keep (1)) by (rewrite Rabs_pos_eq by lra; lra).
  rewrite (@to_single_keep (p + e)) by (rewrite Rabs_pos_eq by lra; lra).
  rewrite xdiv_fin by lra.
  rewrite !(@to_single_keep (1 / (p + e)))
    by (rewrite Rabs_pos_eq by lra; lra).
  reflexivity.
Qed.

End SingleInitializers.

(** The entries of the two initializers in single precision, for a literal
    [eps] of the normal range that is at most 1. *)
Lemma single_ambient_bias_entries (samples : matrix xreal) (m k : Z) (p : R)
    (j : nat) :
  single_normal <= IZR m * powerRZ 10 k <= 1 ->
  (j < length (expect (H := single_scalar) samples))%nat ->
  nth j (expect (H := single_scalar) samples) NaN = Fin p ->
  0 <= p <= 1 ->
  exists b : R,
    nth j (HintonInitializer.ambient_bias (H := single_scalar)
             (HintonInitializer.new (H := single_scalar) samples
                (Some (float_lit (Scalar := single_scalar) m k)))) NaN = Fin b /\
    nth j (GlorotInitializer.ambient_bias (H := single_scalar)
             (GlorotInitializer.new (H := single_scalar) samples
                (Some (float_lit (Scalar := single_scalar) m k)))) NaN =
      Fin (1 / (p + IZR m * powerRZ 10 k)) /\
    (/ 2 <= p -> 0 <= b) /\ (p <= / 2 -> b <= 0) /\
    / (1 + IZR m * powerRZ 10 k) <= 1 / (p + IZR m * powerRZ 10 k)
      <= / (IZR m * powerRZ 10 k).
Proof.
  intros He Hj Hp Hrange.
  assert (Heps : float_lit (Scalar := single_scalar) m k =
                 Fin (IZR m * powerRZ 10 k)).
  { cbn [float_lit single_scalar]. now apply single_eps. }
  rewrite Heps.
  destruct (@single_hinton_entry p _ Hrange He) as (b & Hb & Hpos & Hneg).
  destruct (@single_glorot_entry p _ Hrange He) as (Hg & Hbounds).
  exists b. split; [|split; [|split; [exact Hpos|split; [exact Hneg|exact Hbounds]]]].
  - rewrite (@hinton_ambient_bias_eq xreal single_scalar).
    rewrite (nth_map_in _ _ NaN) by exact Hj.
    rewrite Hp. exact Hb.
  - rewrite (@glorot_ambient_bias_eq xreal single_scalar).
    rewrite (nth_map_in _ _ NaN) by exact Hj.
    rewrite Hp. exact Hg.
Qed.

Lemma default_eps_normal : single_normal <= IZR 1 * powerRZ 10 (-8) <= 1.
Proof. big_constants. simpl. lra. Qed.

Lemma single_expect_row :
  expect (H := single_scalar) [[Fin 0; Fin 1]] = [Fin 0; Fin 1].
Proof.
  unfold expect, reduce_mean_0, reduce_sum_0. cbn.
  rewrite (@to_single_0 0) by reflexivity.
  rewrite (@to_single_1 1) by reflexivity.
  cbn [xadd].
  rewrite (@to_single_0 (0 + 0)) by lra. rewrite (@to_single_1 (0 + 1)) by lra.
  rewrite !xdiv_fin by lra.
  rewrite (@to_single_0 (0 / 1)) by lra. rewrite (@to_single_1 (1 / 1)) by lra.
  reflexivity.
Qed.

(** [1e-46] is below half of the smallest positive number. *)
Lemma single_literal_underflow :
  0 < IZR 1 * powerRZ 10 (-46) /\
  float_lit (Scalar := single_scalar) 1 (-46) = Fin 0.
Proof.
  assert (Hsmall : 0 < IZR 1 * powerRZ 10 (-46) <= single_tiny).
  { big_constants. simpl. lra. }
  split; [lra|]. cbn [float_lit single_scalar].
  apply to_single_zero. rewrite Rabs_pos_eq; lra.
Qed.

Lemma hinton_entry_underflow :
  let f := fun p : xreal =>
    to_dtype (Scalar := single_scalar)
      (fsub (Scalar := single_scalar)
         (flog (Scalar := single_scalar)
            (fadd (Scalar := single_scalar) p (Fin 0)))
         (flog (Scalar := single_scalar)
            (fadd (Scalar := single_scalar)
               (fsub (Scalar := single_scalar)
                  (cast (Scalar := single_scalar) 1) p)
               (Fin 0)))) in
  f (Fin 0) = NInf /\ f (Fin 1) = PInf.
Proof.
  cbv zeta. cbn [to_dtype fsub flog fadd cast single_scalar]. unfold xsub.
  rewrite (@to_single_1 1) by reflexivity. cbn [xadd xneg].
  rewrite (@to_single_0 (0 + 0)) by lra. rewrite xlog_zero.
  rewrite (@to_single_1 (1 + - (0))) by lra.
  rewrite (@to_single_0 (1 + - (1))) by lra. cbn [xadd].
  rewrite (@to_single_1 (1 + 0)) by lra.
  rewrite (@to_single_0 (0 + 0)) by lra. rewrite xlog_zero.
  rewrite (@xlog_fin 1) by lra. rewrite ln_1.
  rewrite (@to_single_0 0) by reflexivity.
  split; reflexivity.
Qed.

Lemma glorot_entry_underflow :
  let g := fun p : xreal =>
    to_dtype (Scalar := single_scalar)
      (fdiv (Scalar := single_scalar) (cast (Scalar := single_scalar) 1)
         (fadd (Scalar := single_scalar) p (Fin 0))) in
  g (Fin 0) = PInf /\ g (Fin 1) = Fin 1.
Proof.
  cbv zeta. cbn [to_dtype fdiv fadd cast single_scalar xadd].
  rewrite (@to_single_1 1) by reflexivity.
  rewrite (@to_single_0 (0 + 0)) by lra.
  rewrite (@to_single_1 (1 + 0)) by lra.
  rewrite (@xdiv_fin 1 1) by lra.
  rewrite (@to_single_1 (1 / 1)) by lra.
  rewrite (@to_single_1 1) by reflexivity.
  split; [|reflexivity].
  unfold xdiv. destruct (Req_dec_T 0 0) as [_|N]; [|contradiction].
  unfold Rsign. destruct (Rlt_dec 0 1); [reflexivity | lra].
Qed.

(** C8 (amended).  The initializer of the Hinton strategy returns
    [log(p + eps) - log(1 - p + eps)] and that of the Glorot strategy
    [1 / (p + eps)], elementwise on [p = mean(sample, axis=0)], in the
    arithmetic of the float type and cast to ['float32'].  In single
    precision, where [p] is a number between 0 and 1, in particular 0 or 1,
    both results are finite numbers for every literal [eps] of the normal
    range that is at most 1, and so for the default [1e-8].  A positive
    [eps] alone does not give that: one that single precision rounds to 0
    leaves no floor. *)
Theorem ambient_bias_initializers :
  (forall (F : Type) (HS : Scalar F) (samples : matrix F) (eps : F),
      HintonInitializer.ambient_bias (HintonInitializer.new samples (Some eps)) =
      map (fun p =>
             to_dtype
               (fsub (flog (fadd p eps)) (flog (fadd (fsub (cast 1) p) eps))))
          (expect samples) /\
      GlorotInitializer.ambient_bias (GlorotInitializer.new samples (Some eps)) =
      map (fun p => to_dtype (fdiv (cast 1) (fadd p eps))) (expect samples)) /\
  (forall (samples : matrix xreal) (m k : Z) (p : R) (j : nat),
      (single_normal <= IZR m * powerRZ 10 k <= 1)%R ->
      (j < length (expect (H := single_scalar) samples))%nat ->
      nth j (expect (H := single_scalar) samples) NaN = Fin p ->
      (0 <= p <= 1)%R ->
      is_finite
        (nth j (HintonInitializer.ambient_bias (H := single_scalar)
                  (HintonInitializer.new (H := single_scalar) samples
                     (Some (float_lit (Scalar := single_scalar) m k)))) NaN) /\
      is_finite
        (nth j (GlorotInitializer.ambient_bias (H := single_scalar)
                  (GlorotInitializer.new (H := single_scalar) samples
                     (Some (float_lit (Scalar := single_scalar) m k)))) NaN)) /\
  (forall (samples : matrix xreal) (p : R) (j : nat),
      (j < length (expect (H := single_scalar) samples))%nat ->
      nth j (expect (H := single_scalar) samples) NaN = Fin p ->
      (0 <= p <= 1)%R ->
      is_finite
        (nth j (HintonInitializer.ambient_bias (H := single_scalar)
                  (HintonInitializer.new (H := single_scalar) samples None))
           NaN) /\
      is_finite
        (nth j (GlorotInitializer.ambient_bias (H := single_scalar)
                  (GlorotInitializer.new (H := single_scalar) samples None))
           NaN)).
Proof.
  split; [|split].
  - intros F HS samples eps. split.
    + apply hinton_ambient_bias_eq.
    + apply glorot_ambient_bias_eq.
  - intros samples m k p j He Hj Hp Hrange.
    destruct (@single_ambient_bias_entries samples m k p j He Hj Hp Hrange)
      as (b & Hb & Hg & _).
    split; [exists b; exact Hb | eexists; exact Hg].
  - intros samples p j Hj Hp Hrange.
    destruct (@single_ambient_bias_entries samples 1 (-8) p j
                default_eps_normal Hj Hp Hrange) as (b & Hb & Hg & _).
    split; [exists b; exact Hb | eexists; exact Hg].
Qed.

(** With [eps = 1e-46], a positive number that single precision rounds to
    0, the floor is gone: on one sample whose first unit is off and whose
    second unit is on ([p = 0] and [p = 1]) the Hinton bias is minus and
    plus infinity, and the Glorot bias of the first unit is infinite. *)
Lemma ambient_bias_underflow :
  (0 < IZR 1 * powerRZ 10 (-46))%R /\
  expect (H := single_scalar) [[Fin 0; Fin 1]] = [Fin 0; Fin 1] /\
  HintonInitializer.ambient_bias (H := single_scalar)
    (HintonInitializer.new (H := single_scalar) [[Fin 0; Fin 1]]
       (Some (float_lit (Scalar := single_scalar) 1 (-46)))) = [NInf; PInf] /\
  GlorotInitializer.ambient_bias (H := single_scalar)
    (GlorotInitializer.new (H := single_scalar) [[Fin 0; Fin 1]]
       (Some (float_lit (Scalar := single_scalar) 1 (-46)))) = [PInf; Fin 1].
Proof.
  destruct single_literal_underflow as [Hpos Hzero].
  split; [exact Hpos|]. split; [exact single_expect_row|].
  rewrite Hzero. split.
  - rewrite (@hinton_ambient_bias_eq xreal single_scalar), single_expect_row.
    cbn [map]. destruct hinton_entry_underflow as [-> ->]. reflexivity.
  - rewrite (@glorot_ambient_bias_eq xreal single_scalar), single_expect_row.
    cbn [map]. destruct glorot_entry_underflow as [-> ->]. reflexivity.
Qed.

Lemma ambient_bias_initializers_witness :
  (single_normal <= IZR 1 * powerRZ 10 (-8) <= 1)%R /\
  (0 < length (expect (H := single_scalar) [[Fin 0; Fin 1]]))%nat /\
  nth 0 (expect (H := single_scalar) [[Fin 0; Fin 1]]) NaN = Fin 0 /\
  (0 <= 0 <= 1)%R /\
  is_finite
    (nth 0 (HintonInitializer.ambient_bias (H := single_scalar)
              (HintonInitializer.new (H := single_scalar) [[Fin 0; Fin 1]]
                 (Some (float_lit (Scalar := single_scalar) 1 (-8))))) NaN).
Proof.
  assert (Hj : (0 < length (expect (H := single_scalar) [[Fin 0; Fin 1]]))%nat).
  { rewrite single_expect_row. simpl. lia. }
  assert (Hp : nth 0 (expect (H := single_scalar) [[Fin 0; Fin 1]]) NaN = Fin 0).
  { rewrite single_expect_row. reflexivity. }
  assert (Hrange : (0 <= 0 <= 1)%R) by lra.
  split; [exact default_eps_normal|]. split; [exact Hj|]. split; [exact Hp|].
  split; [exact Hrange|].
  apply (proj1 (proj2 ambient_bias_initializers)
           [[Fin 0; Fin 1]] 1%Z (-8)%Z 0%R 0%nat default_eps_normal Hj Hp Hrange).
Defined.

End SinglePrecision.

Local Close Scope R_scope.

(** ** The metrics sink *)

Section HistoryFacts.

Context {F : Type} `{FloatFormat F}.

Local Open Scope string_scope.

Lemma lookup_store (logs : History.t F) (step : Z) (d : History.dict F) :
  History.lookup (History.store logs step d) step = Some d.
Proof.
  induction logs as [|[s d'] logs IH]; simpl.
  - now rewrite Z.eqb_refl.
  - destruct (Z.eqb s step) eqn:E; simpl; rewrite E; [reflexivity | exact IH].
Qed.

Lemma getitem_present (logs : History.t F) (step : Z) (d : History.dict F) :
  History.lookup logs step = Some d -> History.getitem step logs = (Ok d, logs).
Proof. intros E. unfold History.getitem. now rewrite E. Qed.

Lemma getitem_absent (logs : History.t F) (step : Z) :
  History.lookup logs step = None ->
  History.getitem step logs = (Ok [], History.store logs step []).
Proof. intros E. unfold History.getitem. now rewrite E. Qed.

(** The body of the loop on a step that has an entry. *)
Lemma show_body_run (logs : History.t F) (step : Z) (d : History.dict F)
    (k : string) (aspects : list string) :
  History.lookup logs step = Some d ->
  History.show_body step k aspects logs =
  (match render (History.dict_get d k History.PyNone) with
   | Some s => Ok (Continue (List.app aspects [k ++ ": " ++ s]))
   | None =>
       Raise (ValueError
         ("Type " ++ History.type_repr (History.dict_get d k History.PyNone)
          ++ " is temporally not supported."))
   end, logs).
Proof.
  intros E. unfold History.show_body, bind. rewrite (getitem_present _ _ E).
  destruct (History.dict_get d k History.PyNone); reflexivity.
Qed.

Lemma show_loop_ok (logs : History.t F) (step : Z) (d : History.dict F)
    (ks : list string) :
  History.lookup logs step = Some d ->
  (forall k, In k ks ->
     exists s, render (History.dict_get d k History.PyNone) = Some s) ->
  forall aspects,
    for_in ks (History.show_body step) aspects logs =
    (Ok (List.app aspects (map (fun k => k ++ ": " ++ rendered d k) ks)), logs).
Proof.
  intros E. induction ks as [|k ks IH]; intros Hall aspects; simpl.
  - now rewrite app_nil_r.
  - unfold bind. rewrite (@show_body_run logs step d k aspects E).
    unfold rendered at 1.
    destruct (Hall k (or_introl eq_refl)) as [s ->].
    rewrite IH by (intros k' Hk'; apply Hall; now right).
    now rewrite <- app_assoc.
Qed.

Lemma show_loop_raise (logs : History.t F) (step : Z) (d : History.dict F)
    (ks : list string) :
  History.lookup logs step = Some d ->
  (exists k, In k ks /\ render (History.dict_get d k History.PyNone) = None) ->
  forall aspects,
    exists msg,
      for_in ks (History.show_body step) aspects logs =
      (Raise (ValueError msg), logs).
Proof.
  intros E. induction ks as [|k ks IH]; intros (k0 & Hin & Hnone) aspects.
  - contradiction.
  - simpl. unfold bind. rewrite (@show_body_run logs step d k aspects E).
    destruct (render (History.dict_get d k History.PyNone)) as [s|] eqn:Ek.
    + apply IH. exists k0. split; [|exact Hnone].
      destruct Hin as [->|Hin]; [congruence | exact Hin].
    + eexists. reflexivity.
Qed.

(** The first access enters a missing step; the loop does not see the
    difference. *)
Lemma show_loop_absent (logs : History.t F) (step : Z) (ks : list string)
    (aspects : list string) :
  History.lookup logs step = None ->
  fst (for_in ks (History.show_body step) aspects logs) =
  fst (for_in ks (History.show_body step) aspects (History.store logs step [])).
Proof.
  intros E. destruct ks as [|k ks]; [reflexivity|]. simpl.
  unfold bind, History.show_body, bind.
  rewrite (getitem_absent _ _ E).
  rewrite (getitem_present _ _ (lookup_store logs step [])).
  reflexivity.
Qed.

Lemma show_run (logs : History.t F) (step : Z) (keys : option (list string)) :
  let d := current_dict logs step in
  let ks := match keys with Some ks => ks | None => map fst d end in
  fst (History.show step keys logs) =
  match fst (for_in ks (History.show_body step) []
               (match History.lookup logs step with
                | Some _ => logs
                | None => History.store logs step []
                end)) with
  | Ok aspects =>
      Ok (String.concat " - " (("step: " ++ History.str_of_int step) :: aspects))
  | Raise e => Raise e
  end.
Proof.
  intros d ks. unfold History.show, bind.
  destruct keys as [ks'|].
  - unfold ret at 1. subst ks.
    destruct (History.lookup logs step) as [d'|] eqn:E.
    + destruct (for_in ks' _ [] logs) as [[a|e] l]; reflexivity.
    + pose proof (@show_loop_absent logs step ks' [] E) as Heq.
      destruct (for_in ks' _ [] logs) as [[a|e] l];
      destruct (for_in ks' _ [] (History.store logs step [])) as [[a'|e'] l'];
      simpl in Heq; try discriminate; inversion Heq; reflexivity.
  - unfold bind, ret. subst ks d. unfold current_dict, History.getitem.
    destruct (History.lookup logs step) as [d'|] eqn:E.
    + destruct (for_in _ _ [] logs) as [[a|e] l]; reflexivity.
    + simpl. reflexivity.
Qed.

End HistoryFacts.

(** ** The fixed-point format of finite floats *)

Lemma string_length_append (s t : string) :
  String.length (s ++ t)%string = (String.length s + String.length t)%nat.
Proof. induction s as [|c s IH]; simpl; [reflexivity | now rewrite IH]. Qed.

Lemma digits_length (n : nat) (x : Z) : String.length (digits n x) = n.
Proof.
  revert x. induction n as [|n IH]; intros x; cbn [digits]; [reflexivity|].
  rewrite string_length_append, IH. simpl. lia.
Qed.

Lemma all_digits_append (s t : string) :
  all_digits (String.append s t) = all_digits s && all_digits t.
Proof.
  induction s as [|c s IH]; simpl; [reflexivity|]. now rewrite IH, andb_assoc.
Qed.

Lemma digit_is_digit (d : Z) : 0 <= d < 10 -> is_decimal_digit (digit d) = true.
Proof.
  intros Hd. unfold is_decimal_digit, digit.
  rewrite nat_ascii_embedding by lia.
  apply andb_true_intro. split; apply Nat.leb_le; lia.
Qed.

Lemma digits_all_digits (n : nat) (x : Z) : all_digits (digits n x) = true.
Proof.
  revert x. induction n as [|n IH]; intros x; cbn [digits]; [reflexivity|].
  rewrite all_digits_append, IH. cbn [all_digits andb].
  rewrite digit_is_digit; [reflexivity|]. apply Z.mod_pos_bound. lia.
Qed.

Lemma uint_all_digits (d : Decimal.uint) :
  all_digits (NilEmpty.string_of_uint d) = true.
Proof. induction d; simpl; try reflexivity; exact IHd. Qed.

(** The numeral of a number that is not negative: digits, at least one. *)
Lemma str_of_int_digits (z : Z) :
  0 <= z ->
  History.str_of_int z <> EmptyString /\ all_digits (History.str_of_int z) = true.
Proof.
  intros Hz. unfold History.str_of_int.
  destruct z as [|q|q]; [| |lia].
  - split; [discriminate | reflexivity].
  - cbn [Z.to_int NilZero.string_of_int]. unfold NilZero.string_of_uint.
    destruct (Pos.to_uint q) eqn:E;
      try (split; [discriminate | reflexivity]);
      rewrite <- E; (split; [rewrite E; discriminate | apply uint_all_digits]).
Qed.

Lemma round_half_even_nonneg (num den : Z) :
  0 <= num -> 0 < den -> 0 <= round_half_even num den.
Proof.
  intros Hn Hd. unfold round_half_even.
  assert (0 <= num / den) by (apply Z.div_pos; lia).
  destruct (2 * (num mod den) <? den); [lia|].
  destruct (den <? 2 * (num mod den)); [lia|].
  destruct (Z.even (num / den)); lia.
Qed.

(** A finite float is printed in fixed-point notation with exactly [n]
    decimal places, for [n >= 1]. *)
Lemma format_fixed_point (n : nat) (m e : Z) :
  fixed_point (S n) (format_f (S n) (PyFinite m e)).
Proof.
  cbn [format_f pyfloat_format format_fixed].
  set (scale := 10 ^ Z.of_nat (S n)).
  set (q := if 0 <=? e then Z.abs m * 2 ^ e * scale
            else round_half_even (Z.abs m * scale) (2 ^ (- e))).
  assert (Hscale : 0 < scale) by (apply Z.pow_pos_nonneg; lia).
  assert (Hq : 0 <= q).
  { unfold q. destruct (0 <=? e) eqn:E.
    - apply Z.leb_le in E.
      assert (0 <= 2 ^ e) by (apply Z.pow_nonneg; lia).
      apply Z.mul_nonneg_nonneg; [apply Z.mul_nonneg_nonneg|]; lia.
    - apply Z.leb_gt in E. apply round_half_even_nonneg.
      + apply Z.mul_nonneg_nonneg; lia.
      + apply Z.pow_pos_nonneg; lia. }
  destruct (@str_of_int_digits (q / scale) ltac:(apply Z.div_pos; lia))
    as [Hne Hdig].
  exists (if m <? 0 then "-"%string else EmptyString),
         (History.str_of_int (q / scale)), (digits (S n) (q mod scale)).
  split; [reflexivity|]. split; [destruct (m <? 0); auto|].
  split; [exact Hne|]. split; [exact Hdig|].
  split; [apply digits_length | apply digits_all_digits].
Qed.

(** A string too short for a digit, a point and [n] digits. *)
Lemma not_fixed_point_short (n : nat) (s : string) :
  (String.length s < n + 2)%nat -> ~ fixed_point n s.
Proof.
  intros Hlen (sign & integer & fraction & -> & _ & Hne & _ & Hfrac & _).
  rewrite !string_length_append in Hlen. cbn [String.length] in Hlen.
  destruct integer as [|c integer]; [contradiction|].
  cbn [String.length] in Hlen. lia.
Qed.

Section HistoryClaim.

Local Open Scope string_scope.

(** C9 (amended).  [History.show] prints a float with the format [.5f]: a
    finite float in fixed-point notation with exactly five decimal places,
    a float that is not a number as [nan] and an infinite one as [inf] or
    [-inf]; it prints a string as it is, and joins the aspects after the
    step; a value of any other type, the [None] of a key that is missing
    included, raises [ValueError]: it is neither skipped nor converted. *)
Theorem show_renders (logs : History.t pyfloat) (step : Z)
    (keys : option (list string)) :
  let d := current_dict logs step in
  let ks := match keys with Some ks => ks | None => map fst d end in
  (forall m e, exists s,
      render (History.PyFloat (PyFinite m e)) = Some s /\ fixed_point 5 s) /\
  (render (History.PyFloat PyNan) = Some "nan" /\
   render (History.PyFloat (PyInf false)) = Some "inf" /\
   render (History.PyFloat (PyInf true)) = Some "-inf") /\
  (forall s, render (F := pyfloat) (History.PyStr s) = Some s) /\
  (forall v : History.pyobj pyfloat,
      (forall x, v <> History.PyFloat x) -> (forall s, v <> History.PyStr s) ->
      render v = None) /\
  ((forall k, In k ks ->
      exists s, render (History.dict_get d k History.PyNone) = Some s) ->
   fst (History.show step keys logs) =
   Ok (String.concat " - "
         (("step: " ++ History.str_of_int step)
            :: map (fun k => k ++ ": " ++ rendered d k) ks))) /\
  ((exists k, In k ks /\
      render (History.dict_get d k History.PyNone) = None) ->
   exists msg, fst (History.show step keys logs) = Raise (ValueError msg)).
Proof.
  intros d ks.
  assert (Hentry :
    History.lookup
      (match History.lookup logs step with
       | Some _ => logs
       | None => History.store logs step []
       end) step = Some d).
  { unfold d, current_dict.
    destruct (History.lookup logs step) as [d'|] eqn:E;
      [exact E | apply lookup_store]. }
  split.
  { intros m e. eexists. split; [reflexivity | apply (format_fixed_point 4)]. }
  split; [repeat split|]. split; [reflexivity|]. split.
  { intros v Hfloat Hstr. destruct v; try reflexivity.
    - now destruct (Hfloat x).
    - now destruct (Hstr s). }
  split.
  - intros Hall. rewrite show_run. fold d. fold ks.
    rewrite (@show_loop_ok _ _ _ step d ks Hentry Hall []). reflexivity.
  - intros Hbad. rewrite show_run. fold d. fold ks.
    destruct (@show_loop_raise _ _ _ step d ks Hentry Hbad []) as [msg ->].
    exists msg. reflexivity.
Qed.

End HistoryClaim.

(** A float that is not a number is shown as [nan]: no decimal place. *)
Lemma show_nan_has_no_decimals :
  fst (History.show 0 None logs_nan) = Ok "step: 0 - mean energy: nan"%string /\
  render (History.PyFloat PyNan) = Some "nan"%string /\
  ~ fixed_point 5 "nan".
Proof.
  split; [reflexivity|]. split; [reflexivity|].
  apply not_fixed_point_short. simpl. lia.
Qed.

Lemma show_renders_witness :
  (forall k, In k (map fst (current_dict logs0 0)) ->
     exists s,
       render (History.dict_get (current_dict logs0 0) k History.PyNone) = Some s) /\
  fst (History.show 0 None logs0) =
    Ok "step: 0 - mean energy: -1.50000 - kernel: 0.00012 (0.01000)"%string /\
  (exists k, In k (map fst (current_dict logs0 10)) /\
     render (History.dict_get (current_dict logs0 10) k History.PyNone) = None) /\
  exists msg, fst (History.show 10 None logs0) = Raise (ValueError msg).
Proof.
  assert (Hall : forall k, In k (map fst (current_dict logs0 0)) ->
     exists s,
       render (History.dict_get (current_dict logs0 0) k History.PyNone) = Some s).
  { intros k [<-|[<-|[]]]; eexists; reflexivity. }
  assert (Hbad : exists k, In k (map fst (current_dict logs0 10)) /\
     render (History.dict_get (current_dict logs0 10) k History.PyNone) = None).
  { exists "batch"%string. split; [right; left; reflexivity | reflexivity]. }
  split; [exact Hall|]. split.
  - rewrite (proj1 (proj2 (proj2 (proj2 (proj2
      (@show_renders logs0 0 None))))) Hall).
    reflexivity.
  - split; [exact Hbad|].
    exact (proj2 (proj2 (proj2 (proj2 (proj2
      (@show_renders logs0 10 None))))) Hbad).
Defined.

(** ** The sink at work *)

Example format_tie_to_even : format_f 2 (PyFinite 1 (-3)) = "0.12"%string.
Proof. reflexivity. Qed.

Example format_small_negative : format_f 5 (PyFinite (-1) (-40)) = "-0.00000"%string.
Proof. reflexivity. Qed.

Example format_not_a_number : format_f 5 PyNan = "nan"%string.
Proof. reflexivity. Qed.

Example log_then_show :
  fst (bind (History.log 3 "recon error" (History.PyTensor0 (PyFinite 7 (-3))))
            (fun _ => History.show 3 None) logs0) =
  Ok "step: 3 - recon error: 0.87500"%string.
Proof. reflexivity. Qed.

Example show_missing_key :
  fst (History.show 0 (Some ["latent-on ratio"%string]) logs0) =
  Raise (ValueError "Type <class 'NoneType'> is temporally not supported.").
Proof. reflexivity. Qed.

Example show_array :
  fst (bind (History.log 3 "kernel" (History.PyTensor1 [PyFinite 1 0]))
            (fun _ => History.show 3 None) logs0) =
  Raise (ValueError "Type <class 'numpy.ndarray'> is temporally not supported.").
Proof. reflexivity. Qed.

(** * More of the module *)

(** ** The random generator *)

Section DrawFacts.

Context {F : Type} `{Scalar F} {G : Type} `{Generator F G}.

Lemma advance_add (a b : nat) (g : G) :
  advance (a + b) g = advance b (advance a g).
Proof.
  revert g. induction a as [|a IH]; intros g; simpl; [reflexivity | apply IH].
Qed.

Lemma nth_draw_shift (g : G) (a k : nat) :
  nth_draw (advance a g) k = nth_draw g (a + k).
Proof.
  unfold nth_draw. now rewrite advance_add.
Qed.

Lemma draws_run (n : nat) (w : World F G) :
  draws n w =
  (Ok (map (nth_draw (gen w)) (seq 0 n)),
   {| rbm := rbm w; gen := advance n (gen w) |}).
Proof.
  revert w. induction n as [|n IH]; intros w.
  - destruct w. reflexivity.
  - cbn [draws]. unfold bind, draw.
    destruct (uniform (gen w)) as [u g] eqn:E.
    rewrite IH. cbn [rbm gen ret advance seq map]. rewrite E. cbn [snd].
    unfold ret.
    assert (Hhead : nth_draw (gen w) 0 = u).
    { unfold nth_draw. cbn [advance]. now rewrite E. }
    assert (Htail : map (nth_draw (gen w)) (seq 1 n) = map (nth_draw g) (seq 0 n)).
    { rewrite <- seq_shift, map_map. apply map_ext. intros k.
      unfold nth_draw. cbn [advance]. now rewrite E. }
    now rewrite Hhead, Htail.
Qed.

Lemma draw_rows_run (rows cols : nat) (w : World F G) :
  draw_rows rows cols w =
  (Ok (drawn (gen w) rows cols),
   {| rbm := rbm w; gen := advance (rows * cols) (gen w) |}).
Proof.
  revert w. induction rows as [|rows IH]; intros w.
  - destruct w. reflexivity.
  - cbn [draw_rows]. unfold bind. rewrite draws_run, IH.
    cbn [rbm gen]. unfold ret.
    assert (Hrows : drawn (gen w) (S rows) cols =
                    map (nth_draw (gen w)) (seq 0 cols)
                    :: drawn (advance cols (gen w)) rows cols).
    { unfold drawn. cbn [seq map Nat.mul Nat.add]. f_equal.
      rewrite <- seq_shift, map_map. apply map_ext. intros i.
      apply map_ext. intros j. rewrite nth_draw_shift. f_equal. simpl. lia. }
    rewrite Hrows, <- advance_add. reflexivity.
Qed.

End DrawFacts.

Section ActivateFacts.

Context {F : Type} `{Scalar F} {G : Type} `{Generator F G}.

Lemma drawn_shape (g : G) (rows cols : nat) : has_shape (drawn g rows cols) rows cols.
Proof.
  unfold drawn. split.
  - now rewrite length_map, length_seq.
  - apply Forall_map, Forall_forall. intros i _.
    now rewrite length_map, length_seq.
Qed.

Lemma drawn_entry (g : G) (rows cols i j : nat) :
  (i < rows)%nat -> (j < cols)%nat ->
  at2 (drawn g rows cols) i j = nth_draw g (i * cols + j).
Proof.
  intros Hi Hj. unfold at2, at1, drawn.
  rewrite (nth_map_in _ _ 0%nat) by now rewrite length_seq.
  rewrite (nth_map_in _ _ 0%nat) by now rewrite length_seq.
  now rewrite !seq_nth.
Qed.

Lemma sample_elementwise (r p : matrix F) :
  sample r p =
  map2 (map2 (fun u q => if fleb u q then cast 1 else cast 0)) r p.
Proof.
  unfold sample, tf_cast, where_. rewrite map_map.
  revert p. induction r as [|x r IH]; intros [|y p]; simpl; try reflexivity.
  rewrite IH. f_equal.
  revert y. induction x as [|u x IHx]; intros [|q y]; simpl; try reflexivity.
  rewrite IHx. destruct (fleb u q); reflexivity.
Qed.

Lemma sample_binary (r p : matrix F) : Forall (Forall binary) (sample r p).
Proof.
  rewrite sample_elementwise. apply Forall_map2. intros x y _ _.
  apply Forall_map2. intros u q _ _.
  destruct (fleb u q); [right | left]; reflexivity.
Qed.

Lemma sample_entry (r p : matrix F) (N L n j : nat) :
  has_shape r N L -> has_shape p N L -> (n < N)%nat -> (j < L)%nat ->
  at2 (sample r p) n j =
  if fleb (at2 r n j) (at2 p n j) then cast 1 else cast 0.
Proof.
  intros Hr Hp Hn Hj. rewrite sample_elementwise. unfold at2, at1.
  rewrite (@map2_nth _ _ _ _ r p n [] [] []);
    [|exact (eq_trans (proj1 Hr) (eq_sym (proj1 Hp)))
     |rewrite (proj1 Hr); exact Hn].
  apply (@map2_nth _ _ _ (fun u q : F => if fleb u q then cast 1 else cast 0)).
  - rewrite (has_shape_row Hr Hn), (has_shape_row Hp Hn). reflexivity.
  - rewrite (has_shape_row Hr Hn). exact Hj.
Qed.

Lemma activate_true_run (p : matrix F) (w : World F G) :
  activate p true w =
  (Ok (sample (drawn (gen w) (fst (shape p)) (snd (shape p))) p),
   {| rbm := rbm w;
      gen := advance (fst (shape p) * snd (shape p)) (gen w) |}).
Proof.
  unfold activate, bind. change (negb true) with false. cbv beta iota.
  rewrite random_tf_shape.
  rewrite draw_rows_run. reflexivity.
Qed.

Lemma activate_true_shaped (p : matrix F) (N L : nat) (w : World F G) :
  has_shape p N L ->
  activate p true w =
  (Ok (sample (drawn (gen w) N L) p),
   {| rbm := rbm w; gen := advance (N * L) (gen w) |}).
Proof.
  intros Hp. rewrite activate_true_run.
  destruct N as [|N].
  - destruct p as [|x p]; [|destruct Hp as [Hlen _]; discriminate].
    reflexivity.
  - now rewrite (shape_of Hp (Nat.lt_0_succ N)).
Qed.

(** X1.  [activate(prob, True)] on a batch of [N] rows of [L] probabilities
    takes [N * L] draws from the generator, row by row, and returns the
    state of the same shape that is 1 exactly where the draw is at most
    the probability and 0 elsewhere; the model is left as it is. *)
Theorem activate_stochastic (p : matrix F) (N L : nat) (w : World F G) :
  has_shape p N L ->
  exists y,
    activate p true w =
      (Ok y, {| rbm := rbm w; gen := advance (N * L) (gen w) |}) /\
    has_shape y N L /\
    Forall (Forall binary) y /\
    (forall n j, (n < N)%nat -> (j < L)%nat ->
       at2 y n j =
       if fleb (nth_draw (gen w) (n * L + j)) (at2 p n j)
       then cast 1 else cast 0).
Proof.
  intros Hp. rewrite (activate_true_shaped w Hp).
  eexists. split; [reflexivity|].
  pose proof (drawn_shape (gen w) N L) as Hr.
  split; [exact (sample_shape Hr Hp)|].
  split; [apply sample_binary|].
  intros n j Hn Hj.
  rewrite (@sample_entry _ _ N L n j Hr Hp Hn Hj).
  now rewrite drawn_entry.
Qed.

End ActivateFacts.

(** ** The conditional probabilities, entry by entry *)

Section ProbabilityFacts.

Context {F : Type} `{Scalar F} {G : Type} `{Generator F G}.

Lemma transpose_entry (w : matrix F) (A L i j : nat) :
  has_shape w A L -> (0 < A)%nat -> (i < A)%nat -> (j < L)%nat ->
  at2 (transpose w) j i = at2 w i j.
Proof.
  intros Hw HA Hi Hj. unfold at2, at1, transpose.
  rewrite (shape_of Hw HA). cbn [snd].
  rewrite (nth_map_in _ _ 0%nat) by now rewrite length_seq.
  rewrite seq_nth by exact Hj. cbn [Nat.add]. unfold column.
  rewrite (@nth_map_in _ _ (fun r : list F => nth j r (cast 0)) w i [] (cast 0))
    by (rewrite (proj1 Hw); exact Hi).
  reflexivity.
Qed.

Lemma biased_sigmoid_entry (z : matrix F) (b : vector F) (N L n j : nat) :
  has_shape z N L -> length b = L -> (n < N)%nat -> (j < L)%nat ->
  at2 (tmap fsigmoid (tadd z [b])) n j = fsigmoid (fadd (at2 z n j) (at1 b j)).
Proof.
  intros Hz Hb Hn Hj.
  rewrite (@add_bias_eq _ _ z b L (proj2 Hz) Hb).
  cbn [tmap list_tensor scalar_tensor]. rewrite map_map. unfold at2, at1.
  rewrite (nth_map_in _ _ []) by (rewrite (proj1 Hz); exact Hn).
  rewrite (nth_map_in _ _ (cast 0))
    by (rewrite map2_length; rewrite (has_shape_row Hz Hn); [exact Hj | now symmetry]).
  f_equal.
  apply (@map2_nth _ _ _ fadd); rewrite (has_shape_row Hz Hn); [now symmetry | exact Hj].
Qed.

(** X3.  [prob_latent_given_ambient] on a batch of [N] rows returns the [N] by
    [L] matrix whose entry [n, j] is the sigmoid of
    [sum_i ambient[n][i] * kernel[i][j] + latent_bias[j]], and changes
    nothing. *)
Theorem prob_latent_entries (w : World F G) (ambient : matrix F) (N A L : nat) :
  (0 < A)%nat ->
  has_shape (kernel (rbm w)) A L ->
  length (latent_bias (rbm w)) = L ->
  has_shape ambient N A ->
  exists prob,
    prob_latent_given_ambient ambient w = (Ok prob, w) /\
    has_shape prob N L /\
    forall n j, (n < N)%nat -> (j < L)%nat ->
      at2 prob n j =
      fsigmoid (fadd (sum_over A (fun i =>
                        fmul (at2 ambient n i) (at2 (kernel (rbm w)) i j)))
                     (at1 (latent_bias (rbm w)) j)).
Proof.
  intros HA Hw Hb Hx. exists (latent_prob_of (rbm w) ambient).
  split; [apply prob_latent_run|].
  split; [apply (@latent_prob_shape _ _ (rbm w) ambient N A L); auto; apply Hx|].
  intros n j Hn Hj. unfold latent_prob_of.
  pose proof (@matmul_shape _ _ ambient (kernel (rbm w)) N A L (proj1 Hx) Hw HA)
    as Hz.
  rewrite (@biased_sigmoid_entry _ _ N L n j Hz Hb Hn Hj).
  now rewrite (@matmul_entry _ _ ambient (kernel (rbm w)) N A L n j).
Qed.

(** X4.  [prob_ambient_given_latent] on a batch of [N] rows returns the [N] by
    [A] matrix whose entry [n, i] is the sigmoid of
    [sum_j latent[n][j] * kernel[i][j] + ambient_bias[i]]: the kernel is
    read transposed. *)
Theorem prob_ambient_entries (w : World F G) (latent : matrix F) (N A L : nat) :
  (0 < A)%nat -> (0 < L)%nat ->
  has_shape (kernel (rbm w)) A L ->
  length (ambient_bias (rbm w)) = A ->
  has_shape latent N L ->
  exists prob,
    prob_ambient_given_latent latent w = (Ok prob, w) /\
    has_shape prob N A /\
    forall n i, (n < N)%nat -> (i < A)%nat ->
      at2 prob n i =
      fsigmoid (fadd (sum_over L (fun j =>
                        fmul (at2 latent n j) (at2 (kernel (rbm w)) i j)))
                     (at1 (ambient_bias (rbm w)) i)).
Proof.
  intros HA HL Hw Hv Hh. exists (ambient_prob_of (rbm w) latent).
  split; [apply prob_ambient_run|].
  split; [apply (@ambient_prob_shape _ _ (rbm w) latent N A L); auto; apply Hh|].
  intros n i Hn Hi. unfold ambient_prob_of.
  pose proof (transpose_shape Hw HA) as Ht.
  pose proof (@matmul_shape _ _ latent (transpose (kernel (rbm w))) N L A
                (proj1 Hh) Ht HL) as Hz.
  rewrite (@biased_sigmoid_entry _ _ N A n i Hz Hv Hn Hi).
  rewrite (@matmul_entry _ _ latent (transpose (kernel (rbm w))) N L A n i)
    by auto.
  f_equal. f_equal. unfold sum_over. f_equal.
  apply map_ext_in. intros j Hj. apply in_seq in Hj. f_equal.
  apply (@transpose_entry _ A L i j); auto. lia.
Qed.

End ProbabilityFacts.

(** ** More about the relaxation *)

Section RelaxMore.

Context {F : Type} `{Scalar F} {G : Type} `{Generator F G}.

Lemma threshold_shape (p : matrix F) (N L : nat) :
  has_shape p N L -> has_shape (threshold p) N L.
Proof.
  intros [Hlen Hrows]. rewrite threshold_elementwise. split.
  - now rewrite length_map.
  - apply Forall_map. eapply Forall_impl; [|exact Hrows].
    intros r Hr. cbv beta. now rewrite length_map.
Qed.

Lemma relax_round_shape (m : BernoulliRBM F) (a : matrix F) (N A L : nat) :
  (0 < A)%nat -> (0 < L)%nat ->
  has_shape (kernel m) A L ->
  length (latent_bias m) = L -> length (ambient_bias m) = A ->
  length a = N ->
  has_shape (relax_round m a) N A.
Proof.
  intros HA HL Hw Hb Hv Ha. unfold relax_round.
  apply threshold_shape.
  apply (@ambient_prob_shape _ _ m _ N A L); auto.
  apply (threshold_shape (@latent_prob_shape _ _ m a N A L Hw HA Hb Ha)).
Qed.

(** After at least one round the state is binary and has the shape of the
    model. *)
Lemma iterate_succ_state (m : BernoulliRBM F) (N A L : nat) (r : nat) :
  (0 < A)%nat -> (0 < L)%nat ->
  has_shape (kernel m) A L ->
  length (latent_bias m) = L -> length (ambient_bias m) = A ->
  forall a, length a = N ->
    has_shape (iterate m (S r) a) N A /\ Forall (Forall binary) (iterate m (S r) a).
Proof.
  intros HA HL Hw Hb Hv. induction r as [|r IH]; intros a Ha.
  - cbn [iterate]. split.
    + now apply (@relax_round_shape m a N A L).
    + apply threshold_binary.
  - change (iterate m (S (S r)) a) with (iterate m (S r) (relax_round m a)).
    apply IH. apply (@relax_round_shape m a N A L); auto.
Qed.

(** What [relax] returns, in terms of the rounds it ran. *)
Lemma relax_cases (w : World F G) (ambient : matrix F) (max_iter : Z) (tol : F) :
  1 <= max_iter ->
  (exists k : nat,
      Z.of_nat k < max_iter /\
      converged (rbm w) tol (iterate (rbm w) k ambient) = true /\
      relax ambient max_iter tol w =
        (Ok (iterate (rbm w) k ambient, Z.of_nat k), w) /\
      forall max_iter', Z.of_nat k < max_iter' ->
        relax ambient max_iter' tol w =
          (Ok (iterate (rbm w) k ambient, Z.of_nat k), w)) \/
  relax ambient max_iter tol w =
    (Ok (iterate (rbm w) (Z.to_nat max_iter) ambient, max_iter - 1), w).
Proof.
  intros Hpos.
  destruct (first_converged (rbm w) tol ambient (Z.to_nat max_iter))
    as [[k (Hk & Hbefore & Hconv)]|Hnever].
  - left. exists k. split; [lia|]. split; [exact Hconv|]. split.
    + apply relax_first; [lia | exact Hbefore | exact Hconv].
    + intros max_iter' Hk'. now apply relax_first.
  - right. apply relax_never; [exact Hpos|]. intros j Hj. apply Hnever. lia.
Qed.

(** X5.  [relax] draws no random number and does not touch the model: the
    world after the call is the world before it, also when the call
    raises. *)
Theorem relax_leaves_world (w : World F G) (ambient : matrix F) (max_iter : Z)
    (tol : F) :
  snd (relax ambient max_iter tol w) = w.
Proof.
  destruct (Z_lt_le_dec 0 max_iter) as [Hpos|Hle].
  - destruct (@relax_cases w ambient max_iter tol ltac:(lia))
      as [(k & _ & _ & -> & _)| ->]; reflexivity.
  - destruct (@relax_no_iteration _ _ _ _ w ambient max_iter tol Hle) as [e ->].
    reflexivity.
Qed.

(** X6.  A count below [max_iter - 1] certifies convergence, and then the
    result does not depend on [max_iter]: every larger bound (in fact
    every bound above the count) gives the same state and the same
    count. *)
Theorem relax_stable (w : World F G) (ambient state : matrix F)
    (max_iter max_iter' k : Z) (tol : F) :
  relax ambient max_iter tol w = (Ok (state, k), w) ->
  k < max_iter - 1 ->
  k < max_iter' ->
  relax ambient max_iter' tol w = (Ok (state, k), w) /\
  converged (rbm w) tol state = true.
Proof.
  intros Hrun Hk Hk'.
  destruct (Z_lt_le_dec 0 max_iter) as [Hpos|Hle];
    [|destruct (@relax_no_iteration _ _ _ _ w ambient max_iter tol Hle) as [e He];
      rewrite He in Hrun; discriminate].
  destruct (@relax_cases w ambient max_iter tol ltac:(lia))
    as [(k0 & Hk0 & Hconv & E & Hany)|E]; rewrite E in Hrun;
    inversion Hrun; subst.
  - split; [now apply Hany | exact Hconv].
  - lia.
Qed.


End RelaxMore.

Lemma relax_stable_witness :
  relax [[Fin 1]] 3 (Fin 1) w0 = (Ok ([[Fin 1]], 0), w0) /\
  0 < 3 - 1 /\ 0 < 7 /\
  relax [[Fin 1]] 7 (Fin 1) w0 = (Ok ([[Fin 1]], 0), w0).
Proof.
  assert (Hconv : converged (rbm w0) (Fin 1) (iterate (rbm w0) 0 [[Fin 1]]) = true).
  { cbn [iterate]. apply fixed_point_converged; [apply m0_round|].
    apply xltb_fin. lra. }
  assert (Hrun : relax [[Fin 1]] 3 (Fin 1) w0 = (Ok ([[Fin 1]], 0), w0)).
  { apply (@relax_first _ _ _ _ w0 [[Fin 1]] 3 (Fin 1) 0%nat);
      [lia | intros j Hj; lia | exact Hconv]. }
  split; [exact Hrun|]. split; [lia|]. split; [lia|].
  apply (@relax_stable _ _ _ _ w0 [[Fin 1]] [[Fin 1]] 3 7 0 (Fin 1) Hrun); lia.
Defined.


(** ** Relaxation with a tolerance that is not positive *)

Lemma xabs_abs_value (z : xreal) : abs_value (xabs z).
Proof.
  destruct z as [r| | |]; simpl.
  - right. right. exists (Rabs r). split; [apply Rabs_pos | reflexivity].
  - right. left. reflexivity.
  - right. left. reflexivity.
  - left. reflexivity.
Qed.

Lemma xmax_abs_value (a b : xreal) :
  a = NInf \/ abs_value a -> abs_value b -> abs_value (xmax a b).
Proof.
  intros Ha Hb.
  destruct Hb as [->|[->|(rb & Hrb & ->)]].
  - left. destruct a; reflexivity.
  - destruct Ha as [->|[->|[->|(ra & _ & ->)]]]; simpl;
      [right; left | left | right; left | right; left]; reflexivity.
  - destruct Ha as [->|[->|[->|(ra & Hra & ->)]]]; simpl.
    + right. right. exists rb. split; [exact Hrb | reflexivity].
    + left. reflexivity.
    + right. left. reflexivity.
    + right. right. exists (Rmax ra rb). split; [|reflexivity].
      apply Rle_trans with ra; [exact Hra | apply Rmax_l].
Qed.

Lemma fold_xmax_abs_value (l : list xreal) (acc : xreal) :
  Forall abs_value l -> acc = NInf \/ abs_value acc ->
  l <> [] \/ abs_value acc ->
  abs_value (fold_left xmax l acc).
Proof.
  intros Hl. revert acc. induction Hl as [|e l He _ IH]; intros acc Hacc Hne; simpl.
  - destruct Hne as [Hne|Hne]; [contradiction | exact Hne].
  - apply IH; [right | right]; now apply xmax_abs_value.
Qed.

Lemma abs_value_not_below (x : xreal) (t : R) :
  abs_value x -> (t <= 0)%R -> xltb x (Fin t) = false.
Proof.
  intros [->|[->|(r & Hr & ->)]] Ht; try reflexivity.
  apply xltb_fin_false. lra.
Qed.

Lemma tflat_nonempty {F : Type} `{Scalar F} (x : matrix F) (N A : nat) :
  has_shape x N A -> (0 < N)%nat -> (0 < A)%nat -> tflat x <> [].
Proof.
  intros [Hlen Hrows] HN HA.
  destruct x as [|r x]; [simpl in Hlen; lia|].
  inversion Hrows as [|? ? Hr _]; subst.
  destruct r as [|e r]; [simpl in HA; lia|].
  cbn. discriminate.
Qed.

Section ZeroTolerance.

Context {G : Type} `{Generator xreal G}.

Lemma not_converged_at_zero (m : BernoulliRBM xreal) (a : matrix xreal)
    (t : R) (N A L : nat) :
  (t <= 0)%R -> (0 < N)%nat -> (0 < A)%nat -> (0 < L)%nat ->
  has_shape (kernel m) A L ->
  length (latent_bias m) = L -> length (ambient_bias m) = A ->
  has_shape a N A ->
  converged m (Fin t) a = false.
Proof.
  intros Ht HN HA HL Hw Hb Hv Ha. unfold converged.
  pose proof (@relax_round_shape _ _ m a N A L HA HL Hw Hb Hv (proj1 Ha)) as Hr.
  pose proof (proj1 (@tsub_matrices _ _ _ _ N A 0 0 Hr Ha)) as Hd.
  apply abs_value_not_below; [|exact Ht].
  unfold reduce_max. apply fold_xmax_abs_value.
  - cbn [tflat tmap list_tensor scalar_tensor]. rewrite !map_map.
    apply Forall_concat, Forall_map, Forall_forall. intros r _.
    rewrite map_map. apply Forall_concat, Forall_map, Forall_forall.
    intros e _. constructor; [apply xabs_abs_value | constructor].
  - left. reflexivity.
  - left. apply (@tflat_nonempty _ _ _ N A); auto.
    now apply tmap_shape.
Qed.

(** X8.  Over the extended reals: with a tolerance that is zero or negative
    the test of [relax] never passes on a state that has elements, so a
    well-shaped model runs all the [max_iter] rounds and returns the count
    [max_iter - 1]. *)
Theorem relax_without_tolerance (w : World xreal G) (ambient : matrix xreal)
    (max_iter : Z) (t : R) (N A L : nat) :
  1 <= max_iter -> (t <= 0)%R ->
  (0 < N)%nat -> (0 < A)%nat -> (0 < L)%nat ->
  has_shape (kernel (rbm w)) A L ->
  length (latent_bias (rbm w)) = L ->
  length (ambient_bias (rbm w)) = A ->
  has_shape ambient N A ->
  relax ambient max_iter (Fin t) w =
  (Ok (iterate (rbm w) (Z.to_nat max_iter) ambient, max_iter - 1), w).
Proof.
  intros Hpos Ht HN HA HL Hw Hb Hv Ha.
  apply relax_never; [exact Hpos|]. intros j _.
  apply (@not_converged_at_zero (rbm w) _ t N A L); auto.
  destruct j as [|j]; [exact Ha|].
  apply (@iterate_succ_state _ _ (rbm w) N A L j); auto. apply Ha.
Qed.

End ZeroTolerance.

Lemma relax_without_tolerance_witness :
  1 <= 5 /\ (0 <= 0)%R /\ (0 < 2)%nat /\
  has_shape (kernel (rbm w2)) 2 2 /\
  length (latent_bias (rbm w2)) = 2%nat /\
  length (ambient_bias (rbm w2)) = 2%nat /\
  has_shape [[Fin 1; Fin 0]; [Fin 0; Fin 0]] 2 2 /\
  relax [[Fin 1; Fin 0]; [Fin 0; Fin 0]] 5 (Fin 0) w2 =
  (Ok (iterate (rbm w2) 5 [[Fin 1; Fin 0]; [Fin 0; Fin 0]], 4), w2).
Proof.
  assert (Hker : has_shape (kernel (rbm w2)) 2 2).
  { split; [reflexivity | repeat constructor]. }
  assert (Ha : has_shape [[Fin 1; Fin 0]; [Fin 0; Fin 0]] 2 2).
  { split; [reflexivity | repeat constructor]. }
  split; [lia|]. split; [lra|]. split; [lia|]. split; [exact Hker|].
  split; [reflexivity|]. split; [reflexivity|]. split; [exact Ha|].
  exact (@relax_without_tolerance _ _ w2 _ 5 0%R 2 2 2 ltac:(lia) ltac:(lra)
           ltac:(lia) ltac:(lia) ltac:(lia) Hker eq_refl eq_refl Ha).
Defined.

(** ** The chain and the draws it takes *)

Section ChainFacts.

Context {F : Type} `{Scalar F} {G : Type} `{Generator F G}.

Lemma gibbs_rounds_add (a b : nat) (latent : matrix F) (w : World F G) :
  gibbs_rounds (a + b) latent w =
  bind (gibbs_rounds a latent) (gibbs_rounds b) w.
Proof.
  revert latent w. induction a as [|a IH]; intros latent w.
  - reflexivity.
  - cbn [Nat.add gibbs_rounds]. unfold bind.
    destruct (gibbs_round latent w) as [[l|e] w1]; [|reflexivity].
    rewrite IH. reflexivity.
Qed.

(** One round on a well-shaped model: [N * A] draws for the ambient
    state, then [N * L] for the latent one. *)
Lemma gibbs_round_run (latent : matrix F) (N A L : nat) (w : World F G) :
  (0 < A)%nat -> (0 < L)%nat ->
  has_shape (kernel (rbm w)) A L ->
  length (latent_bias (rbm w)) = L ->
  length (ambient_bias (rbm w)) = A ->
  length latent = N ->
  exists latent',
    gibbs_round latent w =
      (Ok latent',
       {| rbm := rbm w; gen := advance (N * A + N * L) (gen w) |}) /\
    has_shape latent' N L /\ Forall (Forall binary) latent'.
Proof.
  intros HA HL Hw Hb Hv Hlen.
  pose proof (@ambient_prob_shape _ _ (rbm w) latent N A L Hw HA HL Hv Hlen) as Hpa.
  set (ambient := sample (drawn (gen w) N A) (ambient_prob_of (rbm w) latent)).
  assert (Hamb : has_shape ambient N A) by apply (sample_shape (drawn_shape _ _ _) Hpa).
  pose proof (@latent_prob_shape _ _ (rbm w) ambient N A L Hw HA Hb (proj1 Hamb)) as Hpl.
  eexists. split; [|split].
  - unfold gibbs_round, bind. rewrite prob_ambient_run.
    rewrite (activate_true_shaped w Hpa). rewrite prob_latent_run.
    cbn [rbm]. fold ambient.
    rewrite (activate_true_shaped _ Hpl). cbn [rbm gen].
    rewrite <- advance_add. reflexivity.
  - apply (sample_shape (drawn_shape _ _ _) Hpl).
  - apply sample_binary.
Qed.

Lemma gibbs_rounds_run (n : nat) (N A L : nat) :
  (0 < A)%nat -> (0 < L)%nat ->
  forall (latent : matrix F) (w : World F G),
    has_shape (kernel (rbm w)) A L ->
    length (latent_bias (rbm w)) = L ->
    length (ambient_bias (rbm w)) = A ->
    length latent = N ->
    exists latent',
      gibbs_rounds n latent w =
        (Ok latent',
         {| rbm := rbm w; gen := advance (n * (N * A + N * L)) (gen w) |}) /\
      (n = 0%nat -> latent' = latent) /\
      ((0 < n)%nat -> has_shape latent' N L /\ Forall (Forall binary) latent').
Proof.
  intros HA HL. induction n as [|n IH]; intros latent w Hw Hb Hv Hlen.
  - exists latent. split; [destruct w; reflexivity|].
    split; [reflexivity | intros Hn; lia].
  - destruct (@gibbs_round_run latent N A L w HA HL Hw Hb Hv Hlen)
      as (l1 & E1 & Hshape1 & Hbin1).
    set (w1 := {| rbm := rbm w; gen := advance (N * A + N * L) (gen w) |}) in *.
    destruct (IH l1 w1 Hw Hb Hv (proj1 Hshape1)) as (l2 & E2 & Hzero & Hmore).
    exists l2. split; [|split].
    + cbn [gibbs_rounds]. unfold bind. rewrite E1, E2. unfold w1. cbn [rbm gen].
      rewrite <- advance_add. reflexivity.
    + intros Hn. discriminate.
    + intros _. destruct n as [|n].
      * rewrite (Hzero eq_refl). split; assumption.
      * apply Hmore. lia.
Qed.

(** X9.  Running [a] steps of the chain and then [b] more from the state they
    leave is running [a + b] steps: the chain can be carried from one call
    to the next. *)
Theorem contrastive_divergence_compose (latent : matrix F) (a b : Z)
    (w : World F G) :
  0 <= a -> 0 <= b ->
  contrastive_divergence latent (a + b) w =
  bind (contrastive_divergence latent a)
       (fun latent' => contrastive_divergence latent' b) w.
Proof.
  intros Ha Hb. rewrite cd_run by lia.
  replace (Z.to_nat (a + b)) with (Z.to_nat a + Z.to_nat b)%nat by lia.
  rewrite gibbs_rounds_add. unfold bind.
  rewrite cd_run by exact Ha.
  destruct (gibbs_rounds (Z.to_nat a) latent w) as [[l|e] w1]; [|reflexivity].
  now rewrite cd_run by exact Hb.
Qed.



(** X12.  [init_fantasy_latent] with [num_samples >= 0], on a model whose
    [latent_size] is not negative, returns [num_samples] rows of
    [latent_size] values, [1.] where the draw is at least [0.5] and [0.]
    elsewhere, taking the draws row by row; no row when [num_samples = 0].
    A negative [num_samples] is refused by [tf.random.uniform]: the call
    raises and the world is left as it is. *)
Theorem init_fantasy_latent_state (num_samples : Z) (w : World F G) :
  let n := Z.to_nat num_samples in
  let l := Z.to_nat (latent_size (rbm w)) in
  (0 <= num_samples -> 0 <= latent_size (rbm w) ->
   exists latent,
     init_fantasy_latent num_samples w =
       (Ok latent, {| rbm := rbm w; gen := advance (n * l) (gen w) |}) /\
     has_shape latent n l /\
     (forall i j, (i < n)%nat -> (j < l)%nat ->
        at2 latent i j =
        if fgeb (nth_draw (gen w) (i * l + j)) half
        then float_lit 1 0 else float_lit 0 0) /\
     (num_samples = 0 -> latent = [])) /\
  (num_samples < 0 ->
   init_fantasy_latent num_samples w = (Raise InvalidArgumentError, w)).
Proof.
  intros n l. split.
  - intros Hn Hl.
    eexists. split; [|split; [|split]].
    + unfold init_fantasy_latent, bind, gets.
      rewrite <- (Z2Nat.id num_samples) at 1 by exact Hn.
      rewrite <- (Z2Nat.id (latent_size (rbm w))) at 1 by exact Hl.
      rewrite random_of_nat. fold n. fold l. rewrite draw_rows_run. reflexivity.
    + pose proof (drawn_shape (gen w) n l) as [Hlen Hrows]. split.
      * now rewrite length_map.
      * apply Forall_map. eapply Forall_impl; [|exact Hrows].
        intros r Hr. cbv beta. now rewrite length_map.
    + intros i j Hi Hj. unfold at2, at1.
      pose proof (drawn_shape (gen w) n l) as Hd.
      rewrite (nth_map_in _ _ []) by (rewrite (proj1 Hd); exact Hi).
      rewrite (nth_map_in _ _ (cast 0)) by (rewrite (has_shape_row Hd Hi); exact Hj).
      fold (at1 (nth i (drawn (gen w) n l) []) j).
      fold (at2 (drawn (gen w) n l) i j).
      now rewrite drawn_entry.
    + intros Hzero. replace n with 0%nat by (unfold n; lia). reflexivity.
  - intros Hneg. unfold init_fantasy_latent, bind, gets, random. cbn [fst snd].
    apply Z.ltb_lt in Hneg. rewrite Hneg. reflexivity.
Qed.

End ChainFacts.

Lemma activate_stochastic_witness :
  has_shape [[Fin (/ 2); Fin 0]] 1 2 /\
  exists y,
    activate [[Fin (/ 2); Fin 0]] true w0 =
      (Ok y, {| rbm := rbm w0; gen := advance (1 * 2) (gen w0) |}) /\
    has_shape y 1 2.
Proof.
  assert (Hp : has_shape [[Fin (/ 2); Fin 0]] 1 2).
  { split; [reflexivity | repeat constructor]. }
  split; [exact Hp|].
  destruct (@activate_stochastic _ _ _ _ [[Fin (/ 2); Fin 0]] 1 2 w0 Hp)
    as (y & Hrun & Hshape & _).
  exists y. split; [exact Hrun | exact Hshape].
Defined.

Lemma prob_latent_entries_witness :
  (0 < 2)%nat /\
  has_shape (kernel (rbm w2)) 2 2 /\
  length (latent_bias (rbm w2)) = 2%nat /\
  has_shape [[Fin 1; Fin 0]] 1 2 /\
  exists prob,
    prob_latent_given_ambient [[Fin 1; Fin 0]] w2 = (Ok prob, w2) /\
    has_shape prob 1 2.
Proof.
  assert (Hker : has_shape (kernel (rbm w2)) 2 2).
  { split; [reflexivity | repeat constructor]. }
  assert (Hx : has_shape [[Fin 1; Fin 0]] 1 2).
  { split; [reflexivity | repeat constructor]. }
  split; [lia|]. split; [exact Hker|]. split; [reflexivity|]. split; [exact Hx|].
  destruct (@prob_latent_entries _ _ _ w2 [[Fin 1; Fin 0]] 1 2 2
              ltac:(lia) Hker eq_refl Hx) as (p & Hrun & Hshape & _).
  exists p. split; [exact Hrun | exact Hshape].
Defined.

Lemma prob_ambient_entries_witness :
  (0 < 2)%nat /\
  has_shape (kernel (rbm w2)) 2 2 /\
  length (ambient_bias (rbm w2)) = 2%nat /\
  has_shape [[Fin 0; Fin 1]] 1 2 /\
  exists prob,
    prob_ambient_given_latent [[Fin 0; Fin 1]] w2 = (Ok prob, w2) /\
    has_shape prob 1 2.
Proof.
  assert (Hker : has_shape (kernel (rbm w2)) 2 2).
  { split; [reflexivity | repeat constructor]. }
  assert (Hh : has_shape [[Fin 0; Fin 1]] 1 2).
  { split; [reflexivity | repeat constructor]. }
  split; [lia|]. split; [exact Hker|]. split; [reflexivity|]. split; [exact Hh|].
  destruct (@prob_ambient_entries _ _ _ w2 [[Fin 0; Fin 1]] 1 2 2
              ltac:(lia) ltac:(lia) Hker eq_refl Hh) as (p & Hrun & Hshape & _).
  exists p. split; [exact Hrun | exact Hshape].
Defined.

Lemma contrastive_divergence_compose_witness :
  0 <= 2 /\ 0 <= 3 /\
  contrastive_divergence [[Fin 1; Fin 0]] (2 + 3) w2 =
  bind (contrastive_divergence [[Fin 1; Fin 0]] 2)
       (fun latent' => contrastive_divergence latent' 3) w2.
Proof.
  split; [lia|]. split; [lia|].
  apply (@contrastive_divergence_compose _ _ _ _ [[Fin 1; Fin 0]] 2 3 w2); lia.
Defined.



Lemma init_fantasy_latent_state_witness :
  0 <= 2 /\ 0 <= latent_size (rbm w2) /\
  (exists latent,
     init_fantasy_latent 2 w2 =
       (Ok latent,
        {| rbm := rbm w2;
           gen := advance (Z.to_nat 2 * Z.to_nat (latent_size (rbm w2))) (gen w2) |}) /\
     has_shape latent 2 2) /\
  -1 < 0 /\
  init_fantasy_latent (-1) w2 = (Raise InvalidArgumentError, w2).
Proof.
  split; [lia|]. split; [cbn; lia|]. split.
  - destruct (proj1 (@init_fantasy_latent_state _ _ _ _ 2 w2)
                ltac:(lia) ltac:(cbn; lia))
      as (l & Hrun & Hshape & _).
    exists l. split; [exact Hrun | exact Hshape].
  - split; [lia|].
    apply (proj2 (@init_fantasy_latent_state _ _ _ _ (-1) w2)). lia.
Defined.

(** ** Recording in the history *)

Section LogFacts.

Context {F : Type}.

Local Open Scope string_scope.

Lemma dict_get_set_same (d : History.dict F) (k : string) (v def : History.pyobj F) :
  History.dict_get (History.dict_set d k v) k def = v.
Proof.
  induction d as [|[k' v'] d IH]; simpl.
  - now rewrite String.eqb_refl.
  - destruct (String.eqb k' k) eqn:E; simpl; rewrite E; [reflexivity | exact IH].
Qed.

Lemma dict_get_set_other (d : History.dict F) (k k' : string)
    (v def : History.pyobj F) :
  k' <> k ->
  History.dict_get (History.dict_set d k v) k' def = History.dict_get d k' def.
Proof.
  intros Hne. induction d as [|[k0 v0] d IH]; simpl.
  - destruct (String.eqb k k') eqn:E; [|reflexivity].
    apply String.eqb_eq in E. congruence.
  - destruct (String.eqb k0 k) eqn:E; simpl.
    + apply String.eqb_eq in E. subst k0.
      destruct (String.eqb k k') eqn:E'; [|reflexivity].
      apply String.eqb_eq in E'. congruence.
    + destruct (String.eqb k0 k'); [reflexivity | exact IH].
Qed.

Lemma dict_set_keys (d : History.dict F) (k : string) (v : History.pyobj F) :
  map fst (History.dict_set d k v) =
  if existsb (String.eqb k) (map fst d) then map fst d
  else List.app (map fst d) [k].
Proof.
  induction d as [|[k' v'] d IH]; simpl; [reflexivity|].
  rewrite (String.eqb_sym k k').
  destruct (String.eqb k' k) eqn:E; simpl.
  - apply String.eqb_eq in E. now subst.
  - rewrite IH. destruct (existsb (String.eqb k) (map fst d)); reflexivity.
Qed.

Lemma lookup_store_other (logs : History.t F) (s s' : Z) (d : History.dict F) :
  s' <> s ->
  History.lookup (History.store logs s d) s' = History.lookup logs s'.
Proof.
  intros Hne. induction logs as [|[s0 d0] logs IH]; simpl.
  - destruct (Z.eqb s s') eqn:E; [|reflexivity].
    apply Z.eqb_eq in E. congruence.
  - destruct (Z.eqb s0 s) eqn:E; simpl.
    + apply Z.eqb_eq in E. subst s0.
      destruct (Z.eqb s s') eqn:E'; [|reflexivity].
      apply Z.eqb_eq in E'. congruence.
    + destruct (Z.eqb s0 s'); [reflexivity | exact IH].
Qed.

Lemma store_present (logs : History.t F) (s : Z) (d d' : History.dict F) :
  History.lookup logs s = Some d ->
  History.store (History.store logs s d) s d' = History.store logs s d'.
Proof.
  induction logs as [|[s0 d0] logs IH]; simpl; [discriminate|].
  destruct (Z.eqb s0 s) eqn:E; simpl; rewrite E; [reflexivity|].
  intros Hl. now rewrite IH.
Qed.

Lemma log_run (logs : History.t F) (step : Z) (key : string)
    (value : History.pyobj F) :
  exists logs',
    History.log step key value logs = (Ok tt, logs') /\
    History.lookup logs' step =
      Some (History.dict_set (current_dict logs step) key (stored value)) /\
    forall step', step' <> step ->
      History.lookup logs' step' = History.lookup logs step'.
Proof.
  unfold History.log, bind, modify, History.getitem, current_dict.
  fold (stored value).
  destruct (History.lookup logs step) as [d|] eqn:E.
  - eexists. split; [reflexivity|]. split; [apply lookup_store|].
    intros step' Hne. now apply lookup_store_other.
  - eexists. split; [reflexivity|]. split; [apply lookup_store|].
    intros step' Hne. rewrite !lookup_store_other by exact Hne. reflexivity.
Qed.

End LogFacts.

Section HistoryMore.

Context {F : Type} `{FloatFormat F}.

Local Open Scope string_scope.

Lemma show_loop_state (logs : History.t F) (step : Z) (d : History.dict F)
    (ks : list string) :
  History.lookup logs step = Some d ->
  forall aspects,
    snd (for_in ks (History.show_body step) aspects logs) = logs.
Proof.
  intros E. induction ks as [|k ks IH]; intros aspects; simpl; [reflexivity|].
  unfold bind. rewrite (@show_body_run _ _ logs step d k aspects E).
  destruct (render (History.dict_get d k History.PyNone)); [apply IH | reflexivity].
Qed.

Lemma show_loop_first_bad (logs : History.t F) (step : Z) (d : History.dict F)
    (before after : list string) (k0 : string) :
  History.lookup logs step = Some d ->
  (forall k, In k before ->
     exists s, render (History.dict_get d k History.PyNone) = Some s) ->
  render (History.dict_get d k0 History.PyNone) = None ->
  forall aspects,
    for_in (List.app before (k0 :: after)) (History.show_body step) aspects logs =
    (Raise (ValueError
       ("Type " ++ History.type_repr (History.dict_get d k0 History.PyNone)
        ++ " is temporally not supported.")), logs).
Proof.
  intros E. induction before as [|k before IH]; intros Hok Hbad aspects; simpl.
  - unfold bind. rewrite (@show_body_run _ _ logs step d k0 aspects E).
    now rewrite Hbad.
  - unfold bind. rewrite (@show_body_run _ _ logs step d k aspects E).
    destruct (Hok k (or_introl eq_refl)) as [s ->].
    apply IH; [|exact Hbad]. intros k' Hk'. apply Hok. now right.
Qed.

(** X13.  [log] writes one cell: afterwards the key of the step holds the value
    (the [numpy()] of a tensor), every other key of the step and every
    other step hold what they held. *)
Theorem log_writes_one_cell (logs : History.t F) (step : Z) (key : string)
    (value : History.pyobj F) :
  exists logs',
    History.log step key value logs = (Ok tt, logs') /\
    (forall def, History.dict_get (current_dict logs' step) key def = stored value) /\
    (forall key' def, key' <> key ->
       History.dict_get (current_dict logs' step) key' def =
       History.dict_get (current_dict logs step) key' def) /\
    (forall step', step' <> step ->
       History.lookup logs' step' = History.lookup logs step').
Proof.
  destruct (log_run logs step key value) as (logs' & Hrun & Hstep & Hother).
  exists logs'. split; [exact Hrun|].
  unfold current_dict at 1 2. rewrite Hstep.
  split; [|split].
  - intros def. apply dict_get_set_same.
  - intros key' def Hne. now apply dict_get_set_other.
  - exact Hother.
Qed.

(** X14.  [log] keeps the order of the keys of a step: a key that is already
    there keeps its place, a new key goes to the end. *)
Theorem log_keeps_order (logs : History.t F) (step : Z) (key : string)
    (value : History.pyobj F) :
  let keys := map fst (current_dict logs step) in
  let keys' := map fst (current_dict (snd (History.log step key value logs)) step) in
  (In key keys -> keys' = keys) /\
  (~ In key keys -> keys' = List.app keys [key]).
Proof.
  intros keys keys'.
  destruct (log_run logs step key value) as (logs' & Hrun & Hstep & _).
  assert (Hkeys : keys' =
            if existsb (String.eqb key) keys then keys else List.app keys [key]).
  { unfold keys'. rewrite Hrun. cbn [snd]. unfold current_dict at 1.
    rewrite Hstep. apply dict_set_keys. }
  split; intros Hin; rewrite Hkeys.
  - destruct (existsb (String.eqb key) keys) eqn:E; [reflexivity|].
    assert (Hex : existsb (String.eqb key) keys = true).
    { apply existsb_exists. exists key. split; [exact Hin | apply String.eqb_refl]. }
    congruence.
  - destruct (existsb (String.eqb key) keys) eqn:E; [|reflexivity].
    apply existsb_exists in E. destruct E as (k & Hk & Heq).
    apply String.eqb_eq in Heq. subst k. contradiction.
Qed.

(** X15.  [show] reads through a [defaultdict]: on a step that has an entry it
    changes nothing; on a step that has none it enters an empty one as
    soon as it looks the step up, printing only the step when no key is
    asked for and raising on the first key (whose value is [None])
    otherwise. *)
Theorem show_enters_missing_step (logs : History.t F) (step : Z) :
  (forall keys d, History.lookup logs step = Some d ->
     snd (History.show step keys logs) = logs) /\
  (History.lookup logs step = None ->
     History.show step None logs =
       (Ok ("step: " ++ History.str_of_int step), History.store logs step []) /\
     History.show step (Some []) logs =
       (Ok ("step: " ++ History.str_of_int step), logs) /\
     forall k ks,
       History.show step (Some (k :: ks)) logs =
       (Raise (ValueError "Type <class 'NoneType'> is temporally not supported."),
        History.store logs step [])).
Proof.
  split.
  - intros keys d E. unfold History.show, bind.
    destruct keys as [ks|].
    + unfold ret at 1.
      pose proof (@show_loop_state logs step d ks E []) as Hstate.
      destruct (for_in ks _ [] logs) as [[a|e] l]; simpl in *; exact Hstate.
    + unfold bind. rewrite (getitem_present _ _ E). unfold ret at 1.
      pose proof (@show_loop_state logs step d (map fst d) E []) as Hstate.
      destruct (for_in (map fst d) _ [] logs) as [[a|e] l]; simpl in *;
        exact Hstate.
  - intros E. split; [|split].
    + unfold History.show, bind. rewrite (getitem_absent _ _ E). reflexivity.
    + reflexivity.
    + intros k ks. unfold History.show, bind. unfold ret at 1.
      cbn [for_in]. unfold bind, History.show_body, bind.
      rewrite (getitem_absent _ _ E). reflexivity.
Qed.

(** X16.  [show] stops at the first key whose value is neither a float nor a
    string: the keys before it are rendered, and the error names the type
    of that value. *)
Theorem show_first_unsupported (logs : History.t F) (step : Z)
    (before after : list string) (k0 : string) :
  let d := current_dict logs step in
  (forall k, In k before ->
     exists s, render (History.dict_get d k History.PyNone) = Some s) ->
  render (History.dict_get d k0 History.PyNone) = None ->
  fst (History.show step (Some (List.app before (k0 :: after))) logs) =
  Raise (ValueError
    ("Type " ++ History.type_repr (History.dict_get d k0 History.PyNone)
     ++ " is temporally not supported.")).
Proof.
  intros d Hok Hbad. rewrite show_run. cbv zeta. fold d.
  assert (Hentry :
    History.lookup
      (match History.lookup logs step with
       | Some _ => logs
       | None => History.store logs step []
       end) step = Some d).
  { unfold d, current_dict.
    destruct (History.lookup logs step) as [d'|] eqn:E;
      [exact E | apply lookup_store]. }
  rewrite (@show_loop_first_bad _ step d before after k0 Hentry Hok Hbad []).
  reflexivity.
Qed.

End HistoryMore.

(** X17.  Logging a value and showing its key.  A float, and a scalar
    tensor (which [log] has turned into its [numpy()] value), come back
    printed with the format [.5f]: in fixed-point notation with exactly five
    decimal places when the number is finite, as [nan] when it is not a
    number; a string comes back as it is, and anything else (a tensor of
    rank 1 has become an array) raises. *)
Theorem log_then_show_key (logs : History.t pyfloat) (step : Z) (key : string)
    (value : History.pyobj pyfloat) :
  fst (bind (History.log step key value)
            (fun _ => History.show step (Some [key])) logs) =
  match render (stored value) with
  | Some s =>
      Ok ("step: " ++ History.str_of_int step ++ " - " ++ key ++ ": " ++ s)%string
  | None =>
      Raise (ValueError
        ("Type " ++ History.type_repr (stored value)
         ++ " is temporally not supported.")%string)
  end /\
  (forall m e,
      value = History.PyFloat (PyFinite m e) \/
      value = History.PyTensor0 (PyFinite m e) ->
      exists s, render (stored value) = Some s /\ fixed_point 5 s) /\
  (value = History.PyFloat PyNan \/ value = History.PyTensor0 PyNan ->
   render (stored value) = Some "nan"%string) /\
  (forall s, value = History.PyStr s -> render (stored value) = Some s) /\
  (forall a, value = History.PyTensor1 a -> render (stored value) = None).
Proof.
  split; [|split; [|split; [|split]]].
  - destruct (log_run logs step key value) as (logs' & Hrun & Hstep & _).
    unfold bind at 1. rewrite Hrun.
    unfold History.show, bind. unfold ret at 1. cbn [for_in]. unfold bind.
    rewrite (@show_body_run _ _ logs' step _ key [] Hstep).
    rewrite dict_get_set_same.
    destruct (render (stored value)) as [s|]; reflexivity.
  - intros m e [-> | ->]; (eexists; split;
      [reflexivity | apply (format_fixed_point 4)]).
  - intros [-> | ->]; reflexivity.
  - intros s ->. reflexivity.
  - intros a ->. reflexivity.
Qed.

Lemma log_then_show_key_witness :
  (History.PyTensor0 (PyFinite 7 (-3)) = History.PyFloat (PyFinite 7 (-3)) \/
   History.PyTensor0 (PyFinite 7 (-3)) = History.PyTensor0 (PyFinite 7 (-3))) /\
  exists s, render (stored (History.PyTensor0 (PyFinite 7 (-3)))) = Some s /\
            fixed_point 5 s.
Proof.
  split; [right; reflexivity|].
  apply (proj1 (proj2 (@log_then_show_key logs0 3 "recon error"
                         (History.PyTensor0 (PyFinite 7 (-3))))) 7 (-3)).
  right. reflexivity.
Defined.

Lemma log_keeps_order_witness :
  In "kernel"%string (map fst (current_dict logs0 0)) /\
  map fst (current_dict
             (snd (History.log 0 "kernel" (History.PyStr "x") logs0)) 0) =
  map fst (current_dict logs0 0).
Proof.
  assert (Hin : In "kernel"%string (map fst (current_dict logs0 0))).
  { right. left. reflexivity. }
  split; [exact Hin|].
  apply (proj1 (@log_keeps_order pyfloat logs0 0 "kernel" (History.PyStr "x")) Hin).
Defined.

Lemma log_writes_one_cell_witness :
  "kernel"%string <> "mean energy"%string /\
  exists logs',
    History.log 0 "mean energy" (History.PyTensor0 (PyFinite 1 0)) logs0 =
      (Ok tt, logs') /\
    History.dict_get (current_dict logs' 0) "kernel" History.PyNone =
    History.dict_get (current_dict logs0 0) "kernel" History.PyNone.
Proof.
  assert (Hne : "kernel"%string <> "mean energy"%string) by discriminate.
  split; [exact Hne|].
  destruct (@log_writes_one_cell pyfloat logs0 0 "mean energy"
              (History.PyTensor0 (PyFinite 1 0)))
    as (logs' & Hrun & _ & Hother & _).
  exists logs'. split; [exact Hrun | now apply Hother].
Defined.

Lemma show_enters_missing_step_witness :
  History.lookup logs0 5 = None /\
  History.show 5 None logs0 =
    (Ok "step: 5"%string, History.store logs0 5 []).
Proof.
  assert (E : History.lookup logs0 5 = None) by reflexivity.
  split; [exact E|].
  exact (proj1 (proj2 (@show_enters_missing_step pyfloat _ logs0 5) E)).
Defined.

Lemma show_first_unsupported_witness :
  (forall k, In k ["recon error"%string] ->
     exists s,
       render (History.dict_get (current_dict logs0 10) k History.PyNone) = Some s) /\
  render (History.dict_get (current_dict logs0 10) "batch" History.PyNone) = None /\
  fst (History.show 10 (Some ["recon error"; "batch"; "kernel"]%string) logs0) =
  Raise (ValueError "Type <class 'int'> is temporally not supported.").
Proof.
  assert (Hok : forall k, In k ["recon error"%string] ->
     exists s,
       render (History.dict_get (current_dict logs0 10) k History.PyNone) = Some s).
  { intros k [<-|[]]. eexists. reflexivity. }
  assert (Hbad : render (History.dict_get (current_dict logs0 10) "batch"
                           History.PyNone) = None) by reflexivity.
  split; [exact Hok|]. split; [exact Hbad|].
  exact (@show_first_unsupported pyfloat _ logs0 10 ["recon error"%string]
           ["kernel"%string] "batch"%string Hok Hbad).
Defined.

(** ** Construction of the model *)

Section ConstructionFacts.

Context {F : Type} `{Scalar F} {G : Type} `{Initializers F G}.

Lemma ambient_bias_length (initializer : Initializer F) (N W : nat) :
  (0 < N)%nat -> has_shape (initializer_samples initializer) N W ->
  length (match initializer with
          | Glorot self => GlorotInitializer.ambient_bias self
          | Hinton self => HintonInitializer.ambient_bias self
          end) = W.
Proof.
  intros HN Hs. destruct initializer as [[samples eps]|[samples eps]];
    cbn [initializer_samples GlorotInitializer.samples HintonInitializer.samples] in Hs.
  - change {| GlorotInitializer.samples := samples; GlorotInitializer.eps := eps |}
      with (GlorotInitializer.new samples (Some eps)).
    rewrite glorot_ambient_bias_eq, length_map. apply (expect_shape Hs HN).
  - change {| HintonInitializer.samples := samples; HintonInitializer.eps := eps |}
      with (HintonInitializer.new samples (Some eps)).
    rewrite hinton_ambient_bias_eq, length_map. apply (expect_shape Hs HN).
Qed.

(** X18.  For sizes that are not negative and initializers of TensorFlow
    that respect the shape they are given, the constructor returns: it
    records the sizes, asks the kernel initializer for an [ambient_size] by
    [latent_size] matrix and sets the latent bias to [latent_size] zeros;
    the ambient bias is as wide as the samples of the initializer, whatever
    [ambient_size] is, because its initializer does not look at the shape.
    So the model is well shaped exactly when the samples are [ambient_size]
    wide. *)
Theorem new_BernoulliRBM_shapes (n_ambient n_latent : Z)
    (initializer : Initializer F) (g : G) (N W : nat) :
  0 <= n_ambient -> 0 <= n_latent ->
  (0 < N)%nat ->
  has_shape (initializer_samples initializer) N W ->
  respects_shapes (F := F) (G := G) ->
  exists m g',
    new_BernoulliRBM n_ambient n_latent initializer g = (Ok m, g') /\
    ambient_size m = n_ambient /\
    latent_size m = n_latent /\
    has_shape (kernel m) (Z.to_nat n_ambient) (Z.to_nat n_latent) /\
    latent_bias m = repeat (float_lit 0 0) (Z.to_nat n_latent) /\
    length (ambient_bias m) = W /\
    (well_shaped m (Z.to_nat n_ambient) (Z.to_nat n_latent) <->
     W = Z.to_nat n_ambient).
Proof.
  intros Ha Hl HN Hs (Hglorot & Hnormal & Hzeros).
  pose proof (@ambient_bias_length initializer N W HN Hs) as Hwidth.
  assert (Hkernel : exists k g',
            kernel_initializer initializer (n_ambient, n_latent) g = (Ok k, g') /\
            has_shape k (Z.to_nat n_ambient) (Z.to_nat n_latent)).
  { destruct initializer as [self|self]; cbn [kernel_initializer].
    - apply (Hglorot (n_ambient, n_latent) g Ha Hl).
    - apply (Hnormal (float_lit 1 (-2)) (n_ambient, n_latent) g Ha Hl). }
  destruct Hkernel as (k & g' & Ek & Hk).
  assert (Hbias : latent_bias_initializer initializer n_latent g' =
                  (Ok (repeat (float_lit 0 0) (Z.to_nat n_latent)), g')).
  { destruct initializer as [self|self]; cbn [latent_bias_initializer];
      apply (Hzeros n_latent g' Hl). }
  unfold new_BernoulliRBM, create_variable.
  unfold bind at 1. unfold bind at 1. rewrite Ek. unfold ret at 1.
  unfold bind at 1. unfold bind at 1. rewrite Hbias. unfold ret at 1.
  exists {| ambient_size := n_ambient; latent_size := n_latent; kernel := k;
            latent_bias := repeat (float_lit 0 0) (Z.to_nat n_latent);
            ambient_bias :=
              match initializer with
              | Glorot self => GlorotInitializer.ambient_bias self
              | Hinton self => HintonInitializer.ambient_bias self
              end |}, g'.
  split.
  - destruct initializer as [self|self]; reflexivity.
  - cbn [ambient_size latent_size kernel latent_bias ambient_bias].
    split; [reflexivity|]. split; [reflexivity|]. split; [exact Hk|].
    split; [reflexivity|].
    split; [exact Hwidth|]. unfold well_shaped.
    cbn [kernel latent_bias ambient_bias]. split.
    + intros (_ & _ & Hv). congruence.
    + intros Heq. split; [exact Hk|].
      split; [apply repeat_length | congruence].
Qed.

End ConstructionFacts.

(** ** Training *)

Section TrainingFacts.

Context {F : Type} `{Scalar F} `{ScalarMore F} `{FloatFormat F}.
Context {G : Type} `{Generator F G} {O : Type} `{Optimizer F O}.

Lemma get_grads_and_vars_ok (real_ambient fantasy_latent : matrix F)
    (w : World F G) :
  exists grads w',
    get_grads_and_vars real_ambient fantasy_latent w = (Ok grads, w') /\
    rbm w' = rbm w.
Proof.
  unfold get_grads_and_vars, bind. rewrite prob_latent_run.
  destruct (activate_true_ok (latent_prob_of (rbm w) real_ambient) w)
    as (r1 & w1 & -> & Hrbm1 & _).
  rewrite prob_ambient_run.
  destruct (activate_true_ok (ambient_prob_of (rbm w1) fantasy_latent) w1)
    as (r2 & w2 & -> & Hrbm2 & _).
  eexists _, w2. split; [reflexivity | now rewrite Hrbm2].
Qed.

Lemma contrastive_divergence_ok (latent : matrix F) (k : Z) (w : World F G) :
  0 <= k ->
  exists latent' w',
    contrastive_divergence latent k w = (Ok latent', w') /\ rbm w' = rbm w.
Proof. intros Hk. rewrite cd_run by exact Hk. apply gibbs_rounds_ok. Qed.

(** One step of the loop when no history is given. *)
Lemma train_body_quiet (mc_steps : Z) (item : Z * matrix F)
    (fantasy_latent : matrix F) (s : Session F G O) :
  0 <= mc_steps ->
  exists latent' s',
    train_body mc_steps false item fantasy_latent s = (Ok (Continue latent'), s') /\
    history s' = history s /\ stdout s' = stdout s /\
    ambient_size (rbm (world s')) = ambient_size (rbm (world s)) /\
    latent_size (rbm (world s')) = latent_size (rbm (world s)).
Proof.
  intros Hsteps.
  destruct item as [step real_ambient]. unfold train_body, bind, in_world.
  destruct (get_grads_and_vars_ok real_ambient fantasy_latent (world s))
    as (grads & w1 & -> & Hrbm1).
  unfold optimizer_apply, modify. cbn [world optimizer history stdout].
  destruct (apply_gradients grads
              (kernel (rbm w1), latent_bias (rbm w1), ambient_bias (rbm w1))
              (optimizer s)) as [[[k b] v] o].
  cbn [world optimizer history stdout].
  match goal with
  | |- context [contrastive_divergence fantasy_latent mc_steps ?w] =>
      destruct (contrastive_divergence_ok fantasy_latent w Hsteps)
        as (l & w2 & -> & Hrbm2)
  end.
  cbn [andb]. unfold ret.
  eexists _, _. split; [reflexivity|].
  cbn [world optimizer history stdout]. rewrite Hrbm2. cbn [rbm ambient_size latent_size].
  now rewrite Hrbm1.
Qed.

Lemma train_quiet_loop (mc_steps : Z) (items : list (Z * matrix F)) :
  0 <= mc_steps ->
  forall (fantasy_latent : matrix F) (s : Session F G O),
  exists latent' s',
    for_in items (train_body mc_steps false) fantasy_latent s = (Ok latent', s') /\
    history s' = history s /\ stdout s' = stdout s /\
    ambient_size (rbm (world s')) = ambient_size (rbm (world s)) /\
    latent_size (rbm (world s')) = latent_size (rbm (world s)).
Proof.
  intros Hsteps.
  induction items as [|item items IH]; intros fantasy_latent s.
  - exists fantasy_latent, s. repeat split.
  - cbn [for_in]. unfold bind.
    destruct (train_body_quiet item fantasy_latent s Hsteps)
      as (l1 & s1 & -> & Hh1 & Ho1 & Ha1 & Hl1).
    destruct (IH l1 s1) as (l2 & s2 & -> & Hh2 & Ho2 & Ha2 & Hl2).
    exists l2, s2. split; [reflexivity|].
    repeat split; congruence.
Qed.

(** The first batch with a negative [mc_steps]: the gradients are taken
    and applied, then [contrastive_divergence] is refused. *)
Lemma train_body_negative (mc_steps : Z) (with_history : bool)
    (item : Z * matrix F) (fantasy_latent : matrix F) (s : Session F G O) :
  mc_steps < 0 ->
  exists s',
    train_body mc_steps with_history item fantasy_latent s =
      (Raise InvalidArgumentError, s') /\
    history s' = history s /\ stdout s' = stdout s.
Proof.
  intros Hneg.
  destruct item as [step real_ambient]. unfold train_body, bind, in_world.
  destruct (get_grads_and_vars_ok real_ambient fantasy_latent (world s))
    as (grads & w1 & -> & Hrbm1).
  unfold optimizer_apply, modify. cbn [world optimizer history stdout].
  destruct (apply_gradients grads
              (kernel (rbm w1), latent_bias (rbm w1), ambient_bias (rbm w1))
              (optimizer s)) as [[[k b] v] o].
  cbn [world optimizer history stdout].
  rewrite cd_negative by exact Hneg.
  eexists. split; [reflexivity|]. split; reflexivity.
Qed.


End TrainingFacts.

Section LoggingFacts.

Context {F : Type} `{Scalar F} `{ScalarMore F} `{FloatFormat F}.
Context {G : Type} `{Generator F G} {O : Type} `{Optimizer F O}.

Local Open Scope string_scope.

Lemma dict_set_key_in (d : History.dict F) (key k : string) (v : History.pyobj F) :
  In k (map fst (History.dict_set d key v)) -> k = key \/ In k (map fst d).
Proof.
  rewrite dict_set_keys.
  destruct (existsb (String.eqb key) (map fst d)); [now right|].
  intros Hin. apply in_app_or in Hin.
  destruct Hin as [Hin|[<-|[]]]; [now right | now left].
Qed.

Lemma tensor0_renders (x : F) : render (stored (History.PyTensor0 x)) <> None.
Proof. discriminate. Qed.

Lemma text_renders (s : string) :
  render (F := F) (stored (History.PyStr s)) <> None.
Proof. discriminate. Qed.

Lemma log_keeps_clean (h h' : History.t F) (step : Z) (key : string)
    (value : History.pyobj F) :
  clean_history h -> render (stored value) <> None ->
  History.lookup h' step =
    Some (History.dict_set (current_dict h step) key (stored value)) ->
  (forall step', step' <> step -> History.lookup h' step' = History.lookup h step') ->
  clean_history h'.
Proof.
  intros Hclean Hvalue Hstep Hother step' d' k Hl Hin.
  destruct (Z.eq_dec step' step) as [->|Hne].
  - rewrite Hstep in Hl. inversion Hl; subst d'. clear Hl.
    destruct (string_dec k key) as [->|Hk].
    + now rewrite dict_get_set_same.
    + rewrite dict_get_set_other by exact Hk.
      apply dict_set_key_in in Hin. destruct Hin as [Hin|Hin]; [contradiction|].
      unfold current_dict in *.
      destruct (History.lookup h step) as [d|] eqn:E; [|contradiction].
      now apply (Hclean step d k).
  - rewrite (Hother step' Hne) in Hl. now apply (Hclean step' d' k).
Qed.

Lemma show_clean (h : History.t F) (step : Z) (d : History.dict F) :
  clean_history h -> History.lookup h step = Some d ->
  History.show step None h =
  (Ok (String.concat " - "
         (("step: " ++ History.str_of_int step)
            :: map (fun k => k ++ ": " ++ rendered d k) (map fst d))), h).
Proof.
  intros Hclean E. unfold History.show, bind.
  rewrite (getitem_present _ _ E). unfold ret at 1.
  rewrite (@show_loop_ok _ _ h step d (map fst d) E).
  - reflexivity.
  - intros k Hk. pose proof (Hclean step d k E Hk) as Hr.
    destruct (render (History.dict_get d k History.PyNone)) as [s|];
      [now exists s | contradiction].
Qed.

(** A call of [log] inside a session. *)
Lemma in_history_log (w : World F G) (o : O) (h : History.t F)
    (out : list string) (step : Z) (key : string) (value : History.pyobj F) :
  exists h',
    in_history (History.log step key value)
      {| world := w; optimizer := o; history := h; stdout := out |} =
    (Ok tt, {| world := w; optimizer := o; history := h'; stdout := out |}) /\
    History.lookup h' step =
      Some (History.dict_set (current_dict h step) key (stored value)) /\
    (forall step', step' <> step -> History.lookup h' step' = History.lookup h step').
Proof.
  destruct (log_run h step key value) as (h' & Hrun & Hstep & Hother).
  exists h'. split; [|split; assumption].
  unfold in_history. cbn [history world optimizer stdout]. now rewrite Hrun.
Qed.

Lemma stats_run {T : Type} `{Tensor F T} (step : Z) (x : T) (name : string) :
  stats (G := G) (O := O) step x name =
  in_history (History.log step name (History.PyStr (moments_text x))).
Proof. reflexivity. Qed.

Lemma current_dict_present (h : History.t F) (step : Z) (d : History.dict F) :
  History.lookup h step = Some d -> current_dict h step = d.
Proof. intros E. unfold current_dict. now rewrite E. Qed.

Lemma bind_ok {S A B : Type} (c : M S A) (k : A -> M S B) (s s' : S) (a : A) :
  c s = (Ok a, s') -> bind c k s = k a s'.
Proof. intros E. unfold bind. now rewrite E. Qed.

Arguments bind_ok {S A B} [c] k [s s' a] _.

Lemma gets_run {S A : Type} (f : S -> A) (s : S) : gets f s = (Ok (f s), s).
Proof. reflexivity. Qed.

Lemma in_world_threshold_latent (x : matrix F) (w : World F G) (o : O)
    (h : History.t F) (out : list string) :
  in_world (bind (prob_latent_given_ambient x) (fun p => activate p false))
    {| world := w; optimizer := o; history := h; stdout := out |} =
  (Ok (threshold (latent_prob_of (rbm w) x)),
   {| world := w; optimizer := o; history := h; stdout := out |}).
Proof. reflexivity. Qed.

Lemma in_world_threshold_ambient (x : matrix F) (w : World F G) (o : O)
    (h : History.t F) (out : list string) :
  in_world (bind (prob_ambient_given_latent x) (fun p => activate p false))
    {| world := w; optimizer := o; history := h; stdout := out |} =
  (Ok (threshold (ambient_prob_of (rbm w) x)),
   {| world := w; optimizer := o; history := h; stdout := out |}).
Proof. reflexivity. Qed.

Lemma in_world_energy (x l : matrix F) (w : World F G) (o : O)
    (h : History.t F) (out : list string) :
  in_world (get_energy x l)
    {| world := w; optimizer := o; history := h; stdout := out |} =
  (Ok (energy_of (rbm w) x l),
   {| world := w; optimizer := o; history := h; stdout := out |}).
Proof. reflexivity. Qed.

Lemma in_history_show (w : World F G) (o : O) (out : list string)
    (h : History.t F) (step : Z) (d : History.dict F) :
  clean_history h -> History.lookup h step = Some d ->
  in_history (History.show step None)
    {| world := w; optimizer := o; history := h; stdout := out |} =
  (Ok (String.concat " - "
         (("step: " ++ History.str_of_int step)
            :: map (fun k => k ++ ": " ++ rendered d k) (map fst d))),
   {| world := w; optimizer := o; history := h; stdout := out |}).
Proof.
  intros C L. unfold in_history. cbn [world optimizer history stdout].
  now rewrite (@show_clean h step d C L).
Qed.

(** The diagnostics of a batch on a clean history: six values are logged
    under the step, the line of the step is printed once, nothing else
    changes and the history stays clean. *)
Lemma log_and_show_run (step : Z) (real_ambient fantasy_latent : matrix F)
    (s : Session F G O) :
  clean_history (history s) ->
  exists line h',
    log_and_show_internal_information step real_ambient fantasy_latent s =
    (Ok tt, {| world := world s; optimizer := optimizer s; history := h';
               stdout := List.app (stdout s) [line ++ String "013" ""] |}) /\
    clean_history h' /\
    (forall step', step' <> step ->
       History.lookup h' step' = History.lookup (history s) step') /\
    History.lookup h' step <> None /\
    (History.lookup (history s) step = None ->
     line = diagnostics_line (rbm (world s)) step real_ambient).
Proof.
  destruct s as [w o h0 out]. cbn [history world optimizer stdout]. intros Hclean0.
  set (rl := threshold (latent_prob_of (rbm w) real_ambient)).
  set (recon := threshold (ambient_prob_of (rbm w) rl)).
  destruct (in_history_log w o h0 out step "mean energy"
              (History.PyTensor0 (reduce_mean_all (energy_of (rbm w) real_ambient rl))))
    as (h1 & E1 & L1 & O1).
  destruct (in_history_log w o h1 out step "recon error"
              (History.PyTensor0 (equal_fraction recon real_ambient)))
    as (h2 & E2 & L2 & O2).
  destruct (in_history_log w o h2 out step "latent-on ratio"
              (History.PyTensor0 (reduce_mean_all rl)))
    as (h3 & E3 & L3 & O3).
  destruct (in_history_log w o h3 out step "kernel"
              (History.PyStr (moments_text (kernel (rbm w)))))
    as (h4 & E4 & L4 & O4).
  destruct (in_history_log w o h4 out step "ambientbias"
              (History.PyStr (moments_text (ambient_bias (rbm w)))))
    as (h5 & E5 & L5 & O5).
  destruct (in_history_log w o h5 out step "latent bias"
              (History.PyStr (moments_text (latent_bias (rbm w)))))
    as (h6 & E6 & L6 & O6).
  assert (C1 : clean_history h1)
    by exact (@log_keeps_clean h0 h1 step _ _ Hclean0 (@tensor0_renders _) L1 O1).
  assert (C2 : clean_history h2)
    by exact (@log_keeps_clean h1 h2 step _ _ C1 (@tensor0_renders _) L2 O2).
  assert (C3 : clean_history h3)
    by exact (@log_keeps_clean h2 h3 step _ _ C2 (@tensor0_renders _) L3 O3).
  assert (C4 : clean_history h4)
    by exact (@log_keeps_clean h3 h4 step _ _ C3 (@text_renders _) L4 O4).
  assert (C5 : clean_history h5)
    by exact (@log_keeps_clean h4 h5 step _ _ C4 (@text_renders _) L5 O5).
  assert (C6 : clean_history h6)
    by exact (@log_keeps_clean h5 h6 step _ _ C5 (@text_renders _) L6 O6).
  eexists _, h6. split; [|split; [exact C6|split; [|split]]].
  - unfold log_and_show_internal_information.
    rewrite (bind_ok _ (@in_world_threshold_latent real_ambient w o h0 out)).
    fold rl.
    rewrite (bind_ok _ (@in_world_threshold_ambient rl w o h0 out)).
    fold recon.
    rewrite (bind_ok _ (@in_world_energy real_ambient rl w o h0 out)).
    fold (equal_fraction recon real_ambient).
    rewrite (bind_ok _ E1), (bind_ok _ E2), (bind_ok _ E3).
    rewrite (bind_ok _ (gets_run _ _)). cbn [world rbm].
    rewrite stats_run, (bind_ok _ E4).
    rewrite (bind_ok _ (gets_run _ _)). cbn [world rbm].
    rewrite stats_run, (bind_ok _ E5).
    rewrite (bind_ok _ (gets_run _ _)). cbn [world rbm].
    rewrite stats_run, (bind_ok _ E6).
    rewrite (bind_ok _ (@in_history_show w o out h6 step _ C6 L6)).
    reflexivity.
  - intros step' Hne.
    now rewrite (O6 step' Hne), (O5 step' Hne), (O4 step' Hne), (O3 step' Hne),
      (O2 step' Hne), (O1 step' Hne).
  - rewrite L6. discriminate.
  - intros Hfresh.
    rewrite (@current_dict_present _ _ _ L5), (@current_dict_present _ _ _ L4),
      (@current_dict_present _ _ _ L3), (@current_dict_present _ _ _ L2),
      (@current_dict_present _ _ _ L1).
    unfold current_dict. rewrite Hfresh. reflexivity.
Qed.


(** The part of the body of the loop of [train] before the diagnostics. *)
Lemma train_prefix (mc_steps step : Z) (real_ambient fantasy_latent : matrix F)
    (w : World F G) (o : O) :
  0 <= mc_steps ->
  exists (latent' : matrix F) (w' : World F G) (o' : O),
    forall (with_history : bool) (h : History.t F) (out : list string),
      train_body mc_steps with_history (step, real_ambient) fantasy_latent
        {| world := w; optimizer := o; history := h; stdout := out |} =
      bind (if with_history && (step mod 10 =? 0)%Z
            then log_and_show_internal_information step real_ambient latent'
            else ret tt)
           (fun _ => ret (Continue latent'))
        {| world := w'; optimizer := o'; history := h; stdout := out |}.
Proof.
  intros Hsteps.
  destruct (get_grads_and_vars_ok real_ambient fantasy_latent w)
    as (grads & w1 & E1 & Hrbm1).
  destruct (apply_gradients grads
              (kernel (rbm w1), latent_bias (rbm w1), ambient_bias (rbm w1)) o)
    as [[[k b] v] o1] eqn:E2.
  set (w2 := {| rbm := {| ambient_size := ambient_size (rbm w1);
                          latent_size := latent_size (rbm w1);
                          kernel := k; latent_bias := b; ambient_bias := v |};
                gen := gen w1 |}).
  destruct (contrastive_divergence_ok fantasy_latent w2 Hsteps)
    as (l & w3 & E3 & Hrbm3).
  exists l, w3, o1. intros with_history h out.
  unfold train_body. unfold bind at 1. unfold in_world at 1.
  cbn [world optimizer history stdout]. rewrite E1.
  unfold bind at 1. unfold optimizer_apply, modify.
  cbn [world optimizer history stdout]. rewrite E2.
  fold w2. unfold bind at 1. unfold in_world at 1.
  cbn [world optimizer history stdout]. rewrite E3.
  reflexivity.
Qed.

(** One step of the loop when a history is given. *)
Lemma train_body_loud (mc_steps : Z) (item : Z * matrix F)
    (fantasy_latent : matrix F) (w : World F G) (o : O) (h : History.t F)
    (out : list string) :
  0 <= mc_steps ->
  clean_history h ->
  exists (latent' : matrix F) (w' : World F G) (o' : O) (h' : History.t F)
         (lines : list string),
    train_body mc_steps true item fantasy_latent
      {| world := w; optimizer := o; history := h; stdout := out |} =
    (Ok (Continue latent'),
     {| world := w'; optimizer := o'; history := h'; stdout := List.app out lines |}) /\
    (forall h0 out0,
       train_body mc_steps false item fantasy_latent
         {| world := w; optimizer := o; history := h0; stdout := out0 |} =
       (Ok (Continue latent'),
        {| world := w'; optimizer := o'; history := h0; stdout := out0 |})) /\
    clean_history h' /\
    length lines = length (filter (fun step => step mod 10 =? 0)%Z [fst item]) /\
    (forall step', ~ In step' (filter (fun step => step mod 10 =? 0)%Z [fst item]) ->
       History.lookup h' step' = History.lookup h step') /\
    (forall step', In step' (filter (fun step => step mod 10 =? 0)%Z [fst item]) ->
       History.lookup h' step' <> None).
Proof.
  intros Hsteps Hclean. destruct item as [step real_ambient].
  destruct (train_prefix step real_ambient fantasy_latent w o Hsteps)
    as (l & w' & o' & Hrun).
  cbn [fst filter].
  destruct (step mod 10 =? 0)%Z eqn:Hten.
  - destruct (@log_and_show_run step real_ambient l
                {| world := w'; optimizer := o'; history := h; stdout := out |} Hclean)
      as (line & h' & Hlog & Hclean' & Hother & Hstep & _).
    cbn [world optimizer history stdout] in Hlog, Hother.
    exists l, w', o', h', [line ++ String "013" ""].
    split; [|split; [|split; [exact Hclean'|split; [reflexivity|split]]]].
    + rewrite (Hrun true h out). cbn [andb].
      unfold bind. rewrite Hlog. reflexivity.
    + intros h0 out0. rewrite (Hrun false h0 out0). reflexivity.
    + intros step' Hnot. apply Hother. intros ->. apply Hnot. now left.
    + intros step' [<-|[]]. exact Hstep.
  - exists l, w', o', h, [].
    split; [|split; [|split; [exact Hclean|split; [reflexivity|split]]]].
    + rewrite (Hrun true h out). cbn [andb].
      rewrite app_nil_r. reflexivity.
    + intros h0 out0. rewrite (Hrun false h0 out0). reflexivity.
    + reflexivity.
    + intros step' [].
Qed.

Lemma train_loud_loop (mc_steps : Z) (items : list (Z * matrix F)) :
  0 <= mc_steps ->
  forall (fantasy_latent : matrix F) (w : World F G) (o : O) (h : History.t F)
         (out : list string),
  clean_history h ->
  exists (latent' : matrix F) (w' : World F G) (o' : O) (h' : History.t F)
         (lines : list string),
    for_in items (train_body mc_steps true) fantasy_latent
      {| world := w; optimizer := o; history := h; stdout := out |} =
    (Ok latent',
     {| world := w'; optimizer := o'; history := h'; stdout := List.app out lines |}) /\
    (forall h0 out0,
       for_in items (train_body mc_steps false) fantasy_latent
         {| world := w; optimizer := o; history := h0; stdout := out0 |} =
       (Ok latent',
        {| world := w'; optimizer := o'; history := h0; stdout := out0 |})) /\
    clean_history h' /\
    length lines =
      length (filter (fun step => step mod 10 =? 0)%Z (map fst items)) /\
    (forall step',
       ~ In step' (filter (fun step => step mod 10 =? 0)%Z (map fst items)) ->
       History.lookup h' step' = History.lookup h step') /\
    (forall step',
       In step' (filter (fun step => step mod 10 =? 0)%Z (map fst items)) ->
       History.lookup h' step' <> None).
Proof.
  intros Hsteps.
  induction items as [|item items IH]; intros fantasy_latent w o h out Hclean.
  - exists fantasy_latent, w, o, h, []. rewrite app_nil_r.
    split; [reflexivity|]. split; [reflexivity|]. split; [exact Hclean|].
    split; [reflexivity|]. split; [reflexivity|]. intros step' [].
  - destruct (train_body_loud item fantasy_latent w o out Hsteps Hclean)
      as (l1 & w1 & o1 & h1 & lines1 & Hrun1 & Hquiet1 & Hclean1 & Hlen1 & Hout1 & Hin1).
    destruct (IH l1 w1 o1 h1 (List.app out lines1) Hclean1)
      as (l2 & w2 & o2 & h2 & lines2 & Hrun2 & Hquiet2 & Hclean2 & Hlen2 & Hout2 & Hin2).
    exists l2, w2, o2, h2, (List.app lines1 lines2).
    change (map fst (item :: items)) with ([fst item] ++ map fst items)%list.
    rewrite filter_app.
    split; [|split; [|split; [exact Hclean2|split; [|split]]]].
    + cbn [for_in]. unfold bind at 1. rewrite Hrun1, Hrun2.
      now rewrite app_assoc.
    + intros h0 out0. cbn [for_in]. unfold bind at 1.
      now rewrite Hquiet1, Hquiet2.
    + now rewrite !length_app, Hlen1, Hlen2.
    + intros step' Hnot. rewrite Hout2, Hout1; [reflexivity| |];
        intros Hin; apply Hnot; apply in_or_app; [now left | now right].
    + intros step' Hin. apply in_app_or in Hin.
      destruct (in_dec Z.eq_dec step'
                  (filter (fun step => step mod 10 =? 0)%Z (map fst items)))
        as [Hlater|Hnot].
      * now apply Hin2.
      * rewrite (Hout2 step' Hnot).
        destruct Hin as [Hin|Hin]; [now apply Hin1 | contradiction].
Qed.

Lemma combine_keys {A B : Type} (xs : list A) :
  forall ys : list B, length xs = length ys -> map fst (combine xs ys) = xs.
Proof.
  induction xs as [|x xs IH]; intros [|y ys] E; try discriminate; [reflexivity|].
  cbn. f_equal. apply IH. now injection E.
Qed.

Lemma enumerate_steps {A : Type} (xs : list A) :
  map fst (enumerate xs) = map Z.of_nat (seq 0 (length xs)).
Proof.
  unfold enumerate. apply combine_keys.
  now rewrite length_map, length_seq.
Qed.


(** The six calls of [log] and what they leave in the history. *)
Lemma log_and_show_prefix (step : Z) (real_ambient fantasy_latent : matrix F)
    (w : World F G) (o : O) (h0 : History.t F) (out : list string) :
  exists h6,
    log_and_show_internal_information step real_ambient fantasy_latent
      {| world := w; optimizer := o; history := h0; stdout := out |} =
    bind (in_history (History.show step None)) print
      {| world := w; optimizer := o; history := h6; stdout := out |} /\
    History.lookup h6 step =
      Some (logged_dict (rbm w) real_ambient (current_dict h0 step)) /\
    (forall step', step' <> step ->
       History.lookup h6 step' = History.lookup h0 step').
Proof.
  set (rl := threshold (latent_prob_of (rbm w) real_ambient)).
  set (recon := threshold (ambient_prob_of (rbm w) rl)).
  destruct (in_history_log w o h0 out step "mean energy"
              (History.PyTensor0 (reduce_mean_all (energy_of (rbm w) real_ambient rl))))
    as (h1 & E1 & L1 & O1).
  destruct (in_history_log w o h1 out step "recon error"
              (History.PyTensor0 (equal_fraction recon real_ambient)))
    as (h2 & E2 & L2 & O2).
  destruct (in_history_log w o h2 out step "latent-on ratio"
              (History.PyTensor0 (reduce_mean_all rl)))
    as (h3 & E3 & L3 & O3).
  destruct (in_history_log w o h3 out step "kernel"
              (History.PyStr (moments_text (kernel (rbm w)))))
    as (h4 & E4 & L4 & O4).
  destruct (in_history_log w o h4 out step "ambientbias"
              (History.PyStr (moments_text (ambient_bias (rbm w)))))
    as (h5 & E5 & L5 & O5).
  destruct (in_history_log w o h5 out step "latent bias"
              (History.PyStr (moments_text (latent_bias (rbm w)))))
    as (h6 & E6 & L6 & O6).
  exists h6. split; [|split].
  - unfold log_and_show_internal_information.
    rewrite (bind_ok _ (@in_world_threshold_latent real_ambient w o h0 out)).
    fold rl.
    rewrite (bind_ok _ (@in_world_threshold_ambient rl w o h0 out)).
    fold recon.
    rewrite (bind_ok _ (@in_world_energy real_ambient rl w o h0 out)).
    fold (equal_fraction recon real_ambient).
    rewrite (bind_ok _ E1), (bind_ok _ E2), (bind_ok _ E3).
    rewrite (bind_ok _ (gets_run _ _)). cbn [world rbm].
    rewrite stats_run, (bind_ok _ E4).
    rewrite (bind_ok _ (gets_run _ _)). cbn [world rbm].
    rewrite stats_run, (bind_ok _ E5).
    rewrite (bind_ok _ (gets_run _ _)). cbn [world rbm].
    rewrite stats_run, (bind_ok _ E6).
    reflexivity.
  - rewrite (@current_dict_present _ _ _ L5), (@current_dict_present _ _ _ L4),
      (@current_dict_present _ _ _ L3), (@current_dict_present _ _ _ L2),
      (@current_dict_present _ _ _ L1) in L6.
    exact L6.
  - intros step' Hne.
    now rewrite (O6 step' Hne), (O5 step' Hne), (O4 step' Hne), (O3 step' Hne),
      (O2 step' Hne), (O1 step' Hne).
Qed.

Lemma set_first_unsupported (d : History.dict F) (before : list string)
    (k0 key : string) (v : History.pyobj F) :
  first_unsupported d before k0 -> key <> k0 -> render v <> None ->
  first_unsupported (History.dict_set d key v) before k0 /\
  History.dict_get (History.dict_set d key v) k0 History.PyNone =
    History.dict_get d k0 History.PyNone.
Proof.
  intros ((after & Hkeys) & Hbefore & Hbad) Hne Hv.
  assert (Hk0 : History.dict_get (History.dict_set d key v) k0 History.PyNone =
                History.dict_get d k0 History.PyNone).
  { apply dict_get_set_other. congruence. }
  split; [|exact Hk0]. split; [|split].
  - rewrite dict_set_keys, Hkeys.
    destruct (existsb _ _).
    + now exists after.
    + exists (List.app after [key]). now rewrite <- app_assoc.
  - intros k Hk. destruct (string_dec k key) as [->|Hk'].
    + now rewrite dict_get_set_same.
    + rewrite dict_get_set_other by exact Hk'. now apply Hbefore.
  - now rewrite Hk0.
Qed.

Lemma sets_first_unsupported (kvs : list (string * History.pyobj F))
    (before : list string) (k0 : string) :
  (forall kv, In kv kvs -> fst kv <> k0 /\ render (snd kv) <> None) ->
  forall d, first_unsupported d before k0 ->
    first_unsupported
      (fold_left (fun d kv => History.dict_set d (fst kv) (snd kv)) kvs d)
      before k0 /\
    History.dict_get
      (fold_left (fun d kv => History.dict_set d (fst kv) (snd kv)) kvs d)
      k0 History.PyNone =
    History.dict_get d k0 History.PyNone.
Proof.
  induction kvs as [|[key v] kvs IH]; intros Hkvs d Hd; cbn [fold_left fst snd].
  - now split.
  - destruct (Hkvs (key, v) (or_introl eq_refl)) as [Hne Hv]. cbn [fst snd] in Hne, Hv.
    destruct (@set_first_unsupported d before k0 key v Hd Hne Hv) as [Hd' Hk0].
    destruct (IH (fun kv Hin => Hkvs kv (or_intror Hin)) _ Hd') as [Hd'' Hk0'].
    split; [exact Hd'' | now rewrite Hk0'].
Qed.

Lemma sets_render (kvs : list (string * History.pyobj F)) :
  (forall kv, In kv kvs -> render (snd kv) <> None) ->
  forall (d : History.dict F) (k : string),
    In k (map fst kvs) \/ render (History.dict_get d k History.PyNone) <> None ->
    render (History.dict_get
              (fold_left (fun d kv => History.dict_set d (fst kv) (snd kv)) kvs d)
              k History.PyNone) <> None.
Proof.
  induction kvs as [|[key v] kvs IH]; intros Hv d k Hk; cbn [fold_left fst snd].
  - destruct Hk as [[]|Hk]. exact Hk.
  - apply IH; [intros kv Hin; apply Hv; now right|].
    destruct (string_dec k key) as [->|Hne].
    + right. rewrite dict_get_set_same. apply (Hv (key, v)). now left.
    + destruct Hk as [[Heq|Hin]|Hk].
      * cbn [fst] in Heq. congruence.
      * now left.
      * right. now rewrite dict_get_set_other by exact Hne.
Qed.

Lemma logged_values_keys (m : BernoulliRBM F) (real_ambient : matrix F) :
  map fst (logged_values m real_ambient) = diagnostics_keys.
Proof. reflexivity. Qed.

Lemma logged_values_render (m : BernoulliRBM F) (real_ambient : matrix F)
    (kv : string * History.pyobj F) :
  In kv (logged_values m real_ambient) -> render (snd kv) <> None.
Proof.
  intros Hin. unfold logged_values in Hin. cbn [In] in Hin.
  repeat (destruct Hin as [<-|Hin]; [discriminate|]). destruct Hin.
Qed.

(** The diagnostics on a step that holds a value [show] does not support. *)
Lemma log_and_show_bad_run (step : Z) (real_ambient fantasy_latent : matrix F)
    (s : Session F G O) (d : History.dict F) (before : list string) (k0 : string) :
  History.lookup (history s) step = Some d ->
  first_unsupported d before k0 ->
  ~ In k0 diagnostics_keys ->
  exists h',
    log_and_show_internal_information step real_ambient fantasy_latent s =
    (Raise (ValueError
       ("Type " ++ History.type_repr (History.dict_get d k0 History.PyNone)
        ++ " is temporally not supported.")),
     {| world := world s; optimizer := optimizer s; history := h';
        stdout := stdout s |}) /\
    History.lookup h' step = Some (logged_dict (rbm (world s)) real_ambient d) /\
    (forall k, In k diagnostics_keys ->
       render (History.dict_get (logged_dict (rbm (world s)) real_ambient d) k
                 History.PyNone) <> None) /\
    (forall step', step' <> step ->
       History.lookup h' step' = History.lookup (history s) step').
Proof.
  destruct s as [w o h0 out]. cbn [world optimizer history stdout].
  intros Hd Hfirst Hk0.
  destruct (log_and_show_prefix step real_ambient fantasy_latent w o h0 out)
    as (h6 & Hrun & Hstep & Hother).
  rewrite (@current_dict_present _ _ _ Hd) in Hstep.
  assert (Hkvs : forall kv, In kv (logged_values (rbm w) real_ambient) ->
                   fst kv <> k0 /\ render (snd kv) <> None).
  { intros kv Hin. split; [|now apply (@logged_values_render (rbm w) real_ambient)].
    intros Heq. apply Hk0. rewrite <- (logged_values_keys (rbm w) real_ambient).
    rewrite <- Heq. now apply in_map. }
  destruct (@sets_first_unsupported _ before k0 Hkvs d Hfirst)
    as [((after & Hkeys) & Hbefore & Hbad) Hsame].
  fold (logged_dict (rbm w) real_ambient d) in Hkeys, Hbefore, Hbad, Hsame.
  exists h6. split; [|split; [exact Hstep|split; [|exact Hother]]].
  - rewrite Hrun. unfold bind at 1. unfold in_history.
    cbn [world optimizer history stdout].
    unfold History.show, bind. rewrite (getitem_present _ _ Hstep).
    unfold ret at 1. rewrite Hkeys.
    rewrite (@show_loop_first_bad _ _ h6 step _ before after k0 Hstep).
    + now rewrite Hsame.
    + intros k Hk. pose proof (Hbefore k Hk) as Hr.
      destruct (render (History.dict_get (logged_dict (rbm w) real_ambient d) k
                          History.PyNone)) as [x|];
        [now exists x | exfalso; now apply Hr].
    + exact Hbad.
  - intros k Hk. unfold logged_dict. apply sets_render.
    + apply logged_values_render.
    + left. now rewrite logged_values_keys.
Qed.



End LoggingFacts.

(** ** Examples of the diagnostics *)

Lemma empty_history_clean : clean_history (F := xreal) [].
Proof. intros step d k E. discriminate E. Qed.

Lemma epoch_first_unsupported :
  first_unsupported (F := xreal) [ ("epoch"%string, History.PyInt 1) ] [] "epoch".
Proof.
  split; [now exists []|]. split; [intros k []|reflexivity].
Qed.

Lemma epoch_not_diagnostic : ~ In "epoch"%string diagnostics_keys.
Proof.
  unfold diagnostics_keys. cbn [In]. intros Hin.
  repeat (destruct Hin as [Hin|Hin]; [discriminate Hin|]). exact Hin.
Qed.






(** ** An example of the construction *)

Lemma repeat_shape {F : Type} (c : F) (rows cols : nat) :
  has_shape (repeat (repeat c cols) rows) rows cols.
Proof.
  split; [apply repeat_length|].
  apply Forall_forall. intros r Hr. apply repeat_spec in Hr. subst r.
  apply repeat_length.
Qed.

Lemma constant_respects_shapes (c : xreal) :
  respects_shapes (F := xreal) (G := nat) (H0 := constant_initializers c).
Proof.
  split; [|split].
  - intros [a b] g Ha Hb. cbn [fst snd] in *.
    cbn [glorot_normal constant_initializers fst snd].
    destruct (a <? 0) eqn:Ea; [apply Z.ltb_lt in Ea; lia|].
    destruct (b <? 0) eqn:Eb; [apply Z.ltb_lt in Eb; lia|].
    cbn [orb]. eexists _, g. split; [reflexivity | apply repeat_shape].
  - intros stddev [a b] g Ha Hb. cbn [fst snd] in *.
    cbn [random_normal constant_initializers fst snd].
    destruct (a <? 0) eqn:Ea; [apply Z.ltb_lt in Ea; lia|].
    destruct (b <? 0) eqn:Eb; [apply Z.ltb_lt in Eb; lia|].
    cbn [orb]. eexists _, g. split; [reflexivity | apply repeat_shape].
  - intros n g Hn. cbn [zeros constant_initializers].
    destruct (n <? 0) eqn:En; [apply Z.ltb_lt in En; lia | reflexivity].
Qed.

Lemma new_BernoulliRBM_shapes_witness :
  0 <= 3 /\ 0 <= 2 /\ (0 < 1)%nat /\
  has_shape
    (initializer_samples (Hinton (HintonInitializer.new [[Fin 0; Fin 1]] None)))
    1 2 /\
  respects_shapes (F := xreal) (G := nat) (H0 := constant_initializers (Fin 0)) /\
  exists m g',
    @new_BernoulliRBM xreal _ nat (constant_initializers (Fin 0)) 3 2
      (Hinton (HintonInitializer.new [[Fin 0; Fin 1]] None)) 0%nat = (Ok m, g') /\
    length (ambient_bias m) = 2%nat /\
    ~ well_shaped m 3 2.
Proof.
  assert (Hs : has_shape
                 (initializer_samples
                    (Hinton (HintonInitializer.new [[Fin 0; Fin 1]] None))) 1 2).
  { split; [reflexivity | repeat constructor]. }
  split; [lia|]. split; [lia|]. split; [lia|]. split; [exact Hs|].
  split; [apply constant_respects_shapes|].
  destruct (@new_BernoulliRBM_shapes xreal _ nat (constant_initializers (Fin 0)) 3 2
              (Hinton (HintonInitializer.new [[Fin 0; Fin 1]] None)) 0%nat 1 2
              ltac:(lia) ltac:(lia) ltac:(lia) Hs
              (constant_respects_shapes (Fin 0)))
    as (m & g' & Hrun & _ & _ & _ & _ & Hlen & Hiff).
  exists m, g'. split; [exact Hrun|]. split; [exact Hlen|].
  intros Hw. apply Hiff in Hw. discriminate Hw.
Defined.

(** ** The sign of the initial ambient bias *)

Section SingleSigns.

(** In this section the arithmetic of [xreal] is that of [single_scalar]. *)
#[local] Existing Instance single_scalar.



End SingleSigns.
